(** * xv6 lab kernel: per-CPU page allocator (kalloc.c) and hashed buffer
      cache (bio.c)

    A shallow embedding of [kernel/kalloc.c] and [kernel/bio.c].  Kernel
    code is written in a small state-and-outcome monad; C objects are
    records, arrays are functions of the index, physical memory is a
    function from byte addresses to bytes. *)

From Stdlib Require Import String ZArith List Lia Bool Arith.
Import ListNotations.
Local Open Scope Z_scope.

(** ** Outcomes and the kernel monad *)

(** What a kernel routine can do besides returning: [panic] halts the
    machine with a message; [acquire] and [acquiresleep] on a lock that is
    taken wait for it, which a run with no other actor never leaves
    ([Spin]); an access that leaves every C object has no meaning
    ([Undef]); and a loop of the source that has not finished within the
    iterations granted to the model stops with [Fuel]. *)
Inductive outcome (S A : Type) : Type :=
| Ret (a : A) (s : S)
| Panic (msg : string)
| Spin
| Undef
| Fuel.

Arguments Ret {S A} a s.
Arguments Panic {S A} msg.
Arguments Spin {S A}.
Arguments Undef {S A}.
Arguments Fuel {S A}.

Definition M (S A : Type) : Type := S -> outcome S A.

Definition ret {S A} (a : A) : M S A := fun s => Ret a s.

Definition bind {S A B} (m : M S A) (k : A -> M S B) : M S B :=
  fun s =>
    match m s with
    | Ret a s' => k a s'
    | Panic msg => Panic msg
    | Spin => Spin
    | Undef => Undef
    | Fuel => Fuel
    end.

Definition gets {S A} (f : S -> A) : M S A := fun s => Ret (f s) s.
Definition modify {S} (f : S -> S) : M S unit := fun s => Ret tt (f s).
Definition panic {S A} (msg : string) : M S A := fun _ => Panic msg.
Definition spin {S A} : M S A := fun _ => Spin.
Definition undef {S A} : M S A := fun _ => Undef.
Definition out_of_fuel {S A} : M S A := fun _ => Fuel.

(** The parts of an outcome that returned. *)
Definition returned {S A} (o : outcome S A) : bool :=
  match o with
  | Ret _ _ => true
  | _ => false
  end.

Definition state_of {S A} (o : outcome S A) (dflt : S) : S :=
  match o with
  | Ret _ s => s
  | _ => dflt
  end.

Definition value_of {S A} (o : outcome S A) (dflt : A) : A :=
  match o with
  | Ret a _ => a
  | _ => dflt
  end.

Declare Scope kernel_scope.
Delimit Scope kernel_scope with kernel.
Notation "x <- m ;; k" := (bind m (fun x => k))
  (at level 61, m at next level, right associativity) : kernel_scope.
Notation "m ;; k" := (bind m (fun _ => k))
  (at level 61, right associativity) : kernel_scope.
Local Open Scope kernel_scope.

(** Modelled from the spec: the spin lock of [spinlock.c] (not part of the
    sources at hand), a "short, non-blocking mutual-exclusion lock".  A lock
    records the core that holds it. *)
Definition spinlock : Type := option nat.

Definition holding (cpu : nat) (lk : spinlock) : bool :=
  match lk with
  | Some c => Nat.eqb c cpu
  | None => false
  end.

(** Arrays indexed by a natural number, updated at one index. *)
Definition upd {A} (f : nat -> A) (i : nat) (v : A) : nat -> A :=
  fun j => if Nat.eqb j i then v else f j.

(** C [int]: 32 bits, two's complement. *)
Definition int32 (x : Z) : Z := (x + 2 ^ 31) mod 2 ^ 32 - 2 ^ 31.

(** C [uint]: 32 bits. *)
Definition uint32 (x : Z) : Z := x mod 2 ^ 32.

(** C [uint64], and pointers: 64 bits. *)
Definition uint64 (x : Z) : Z := x mod 2 ^ 64.

(* ===================================================================== *)
(** ** kalloc.c *)

Module Kalloc.

(** [PGSIZE] of riscv.h: "Allocates whole 4096-byte pages". *)
Definition PGSIZE : Z := 4096.

(** Modelled from the spec: [PGROUNDUP] of riscv.h (not part of the sources
    at hand) rounds an address up to the next page boundary.  It is the
    macro [(((sz)+PGSIZE-1) & ~(PGSIZE-1))] on a [uint64]: the sum wraps at
    2^64, so an address in the last page rounds up to 0. *)
Definition PGROUNDUP (a : Z) : Z :=
  Z.land (uint64 (a + PGSIZE - 1)) (uint64 (Z.lnot (PGSIZE - 1))).

(** *** Physical memory *)

Definition memory : Type := Z -> Z.

(** Modelled from the spec: [memset] of string.c writes [n] copies of the
    byte [c] from address [a] on. *)
Definition memset_bytes (m : memory) (a c n : Z) : memory :=
  fun x => if (a <=? x) && (x <? a + n) then c else m x.

(** A little-endian load and store of [n] bytes: the [next] field of
    [struct run] is the first 8 bytes of a page. *)
Fixpoint load_le (m : memory) (a : Z) (n : nat) : Z :=
  match n with
  | O => 0
  | S k => m a + 256 * load_le m (a + 1) k
  end.

Fixpoint store_le (m : memory) (a : Z) (n : nat) (v : Z) : memory :=
  match n with
  | O => m
  | S k => store_le (fun x => if x =? a then v mod 256 else m x) (a + 1) k (v / 256)
  end.

Definition load64 (m : memory) (a : Z) : Z := load_le m a 8.
Definition store64 (m : memory) (a v : Z) : memory := store_le m a 8 v.

Arguments load64 : simpl never.
Arguments store64 : simpl never.

(** *** The allocator state

    [struct { struct spinlock lock; struct run *freelist; int freelen; }
    kmem[NCPU]], and the memory the free lists are threaded through. *)
Record pool : Type := mkpool {
  lock : spinlock;
  freelist : Z;
  freelen : Z
}.

Record state : Type := mkstate {
  kmem : nat -> pool;
  mem : memory
}.

Definition set_lock (i : nat) (l : spinlock) (s : state) : state :=
  mkstate (upd (kmem s) i (mkpool l (freelist (kmem s i)) (freelen (kmem s i))))
          (mem s).

Definition set_freelist (i : nat) (p : Z) (s : state) : state :=
  mkstate (upd (kmem s) i (mkpool (lock (kmem s i)) p (freelen (kmem s i))))
          (mem s).

Definition set_freelen (i : nat) (n : Z) (s : state) : state :=
  mkstate (upd (kmem s) i (mkpool (lock (kmem s i)) (freelist (kmem s i)) n))
          (mem s).

Definition set_mem (m : memory) (s : state) : state := mkstate (kmem s) m.

Definition K : Type -> Type := M state.

(** Modelled from the spec: [acquire], [release] (spinlock.c) on the lock
    of pool [i], called on core [cpu]. *)
Definition acquire (cpu i : nat) : K unit :=
  fun s =>
    match lock (kmem s i) with
    | None => Ret tt (set_lock i (Some cpu) s)
    | Some _ => Spin
    end.

Definition release (cpu i : nat) : K unit :=
  fun s =>
    if holding cpu (lock (kmem s i)) then Ret tt (set_lock i None s)
    else Panic "release".

(** [r->next] read and written. *)
Definition get_next (r : Z) : K Z := gets (fun s => load64 (mem s) r).
Definition put_next (r v : Z) : K unit :=
  modify (fun s => set_mem (store64 (mem s) r v) s).
Definition memset (a c n : Z) : K unit :=
  modify (fun s => set_mem (memset_bytes (mem s) a c n) s).

Section Allocator.

(** [NCPU] (param.h), [end] (kernel.ld) and [PHYSTOP] (memlayout.h). *)
Variable NCPU : nat.
Variable kend : Z.
Variable PHYSTOP : Z.

(** Lines 48-61 of [reschedule]: the scan for the pool with the largest
    [freelen]; [maxid = -1] is [None]. *)
Fixpoint scan (cpu id : nat) (ids : list nat) (maxid : option nat) (maxlen : Z)
  : K (option nat * Z) :=
  match ids with
  | [] => ret (maxid, maxlen)
  | i :: rest =>
      if Nat.eqb i id then scan cpu id rest maxid maxlen
      else
        acquire cpu i ;;
        len <- gets (fun s => freelen (kmem s i)) ;;
        if len >? maxlen then
          match maxid with
          | Some m => release cpu m
          | None => ret tt
          end ;;
          scan cpu id rest (Some i) len
        else
          release cpu i ;;
          scan cpu id rest maxid maxlen
  end.

(** Lines 71-75: [fp] runs two nodes at a time, [r] one. *)
Fixpoint walk (fuel : nat) (m : memory) (fp r : Z) : option Z :=
  if fp =? 0 then Some r
  else if load64 m fp =? 0 then Some r
  else
    match fuel with
    | O => None
    | S f => walk f m (load64 m (load64 m fp)) (load64 m r)
    end.

Definition reschedule (fuel : nat) (cpu id : nat) : K Z :=
  h <- gets (fun s => holding cpu (lock (kmem s id))) ;;
  if negb h then panic "rechedule lock error1"
  else
    l <- gets (fun s => freelist (kmem s id)) ;;
    if negb (l =? 0) then ret 0
    else
      best <- scan cpu id (seq 0 NCPU) None 0 ;;
      match fst best with
      | None => ret 0
      | Some maxid =>
          h <- gets (fun s => holding cpu (lock (kmem s maxid))) ;;
          if negb h then panic "rechedule lock error2"
          else
            r0 <- gets (fun s => freelist (kmem s maxid)) ;;
            if negb (r0 =? 0) then
              m <- gets mem ;;
              match walk fuel m r0 r0 with
              | None => out_of_fuel
              | Some r =>
                  if r =? r0 then
                    modify (set_freelist maxid 0) ;;
                    modify (set_freelen maxid 0) ;;
                    modify (set_freelist id 0) ;;
                    modify (set_freelen id 0) ;;
                    release cpu maxid ;;
                    ret r
                  else
                    modify (set_freelist id r0) ;;
                    rn <- get_next r ;;
                    modify (set_freelist maxid rn) ;;
                    put_next r 0 ;;
                    len <- gets (fun s => freelen (kmem s maxid)) ;;
                    (if Z.rem len 2 =? 0 then
                       modify (set_freelen maxid (int32 (Z.quot len 2 - 1))) ;;
                       len' <- gets (fun s => freelen (kmem s maxid)) ;;
                       modify (set_freelen id (int32 (len' + 1)))
                     else
                       modify (set_freelen maxid (Z.quot len 2)) ;;
                       len' <- gets (fun s => freelen (kmem s maxid)) ;;
                       modify (set_freelen id len')) ;;
                    release cpu maxid ;;
                    r' <- gets (fun s => freelist (kmem s id)) ;;
                    rn' <- get_next r' ;;
                    modify (set_freelist id rn') ;;
                    ret r'
              end
            else
              release cpu maxid ;;
              ret 0
      end.

(** [kfree], called on core [cpu]. *)
Definition kfree (cpu : nat) (pa : Z) : K unit :=
  if negb (pa mod PGSIZE =? 0) || (pa <? kend) || (PHYSTOP <=? pa)
  then panic "kfree"
  else
    memset pa 1 PGSIZE ;;
    acquire cpu cpu ;;
    l <- gets (fun s => freelist (kmem s cpu)) ;;
    put_next pa l ;;
    modify (set_freelist cpu pa) ;;
    len <- gets (fun s => freelen (kmem s cpu)) ;;
    modify (set_freelen cpu (int32 (len + 1))) ;;
    release cpu cpu.

(** [kalloc], called on core [cpu]. *)
Definition kalloc (fuel : nat) (cpu : nat) : K Z :=
  acquire cpu cpu ;;
  r <- gets (fun s => freelist (kmem s cpu)) ;;
  r <- (if negb (r =? 0) then
          rn <- get_next r ;;
          modify (set_freelist cpu rn) ;;
          len <- gets (fun s => freelen (kmem s cpu)) ;;
          modify (set_freelen cpu (int32 (len - 1))) ;;
          ret r
        else reschedule fuel cpu cpu) ;;
  release cpu cpu ;;
  (if negb (r =? 0) then memset r 5 PGSIZE else ret tt) ;;
  ret r.

(** [freerange]: the loop [for(; p + PGSIZE <= pa_end; p += PGSIZE)] on the
    pointer [p], a 64-bit address: [p + PGSIZE] wraps at 2^64. *)
Fixpoint freerange_loop (fuel : nat) (cpu : nat) (p pa_end : Z) : K unit :=
  if uint64 (p + PGSIZE) <=? pa_end then
    match fuel with
    | O => out_of_fuel
    | S f => kfree cpu p ;; freerange_loop f cpu (uint64 (p + PGSIZE)) pa_end
    end
  else ret tt.

Definition freerange (fuel : nat) (cpu : nat) (pa_start pa_end : Z) : K unit :=
  freerange_loop fuel cpu (PGROUNDUP pa_start) pa_end.

(** [kinit]: [initlock] leaves each lock free. *)
Fixpoint kinit_loop (ids : list nat) : K unit :=
  match ids with
  | [] => ret tt
  | i :: rest =>
      modify (set_lock i None) ;;
      modify (set_freelen i 0) ;;
      kinit_loop rest
  end.

Definition kinit (fuel : nat) (cpu : nat) : K unit :=
  kinit_loop (seq 0 NCPU) ;;
  freerange fuel cpu kend PHYSTOP.

(** [checklen], called on core [cpu] with the lock of pool [id] held; the
    message of its panic ends in a newline. *)
Definition checklen_msg : string :=
  String.append "checklen not match" (String (Ascii.ascii_of_nat 10) EmptyString).

Fixpoint list_len (fuel : nat) (m : memory) (r : Z) (len : Z) : option Z :=
  if r =? 0 then Some len
  else
    match fuel with
    | O => None
    | S f => list_len f m (load64 m r) (int32 (len + 1))
    end.

Fixpoint checklen_loop (fuel : nat) (cpu id : nat) (ids : list nat) : K unit :=
  match ids with
  | [] => ret tt
  | i :: rest =>
      (if negb (Nat.eqb i id) then acquire cpu i else ret tt) ;;
      r <- gets (fun s => freelist (kmem s i)) ;;
      m <- gets mem ;;
      match list_len fuel m r 0 with
      | None => out_of_fuel
      | Some len =>
          flen <- gets (fun s => freelen (kmem s i)) ;;
          if negb (len =? flen) then panic checklen_msg
          else
            (if negb (Nat.eqb i id) then release cpu i else ret tt) ;;
            checklen_loop fuel cpu id rest
      end
  end.

Definition checklen (fuel : nat) (cpu id : nat) : K unit :=
  checklen_loop fuel cpu id (seq 0 NCPU).

End Allocator.

(** *** Free lists in memory

    [lseg m p q l]: following [next] from [p] visits the nodes [l] and then
    reaches [q]; a free list is a segment that ends in the null pointer. *)
Fixpoint lseg (m : memory) (p q : Z) (l : list Z) : Prop :=
  match l with
  | [] => p = q
  | a :: l' => p = a /\ a <> 0 /\ lseg m (load64 m a) q l'
  end.

Definition flist (m : memory) (p : Z) (l : list Z) : Prop := lseg m p 0 l.

(** A node address: a page-aligned, non-null 64-bit pointer. *)
Definition okaddr (a : Z) : Prop := 0 < a < 2 ^ 64 /\ a mod PGSIZE = 0.

(** The representation invariant of the pools: pool [i] holds the pages
    [ls i], its count is their number, no page is on two lists or twice on
    one. *)
Record wf (NCPU : nat) (st : state) (ls : nat -> list Z) : Prop := mkwf {
  wf_list : forall i, (i < NCPU)%nat ->
            flist (mem st) (freelist (kmem st i)) (ls i);
  wf_len : forall i, (i < NCPU)%nat ->
           freelen (kmem st i) = Z.of_nat (length (ls i));
  wf_range : forall i, (i < NCPU)%nat -> Z.of_nat (length (ls i)) < 2 ^ 31;
  wf_nodup : forall i, (i < NCPU)%nat -> NoDup (ls i);
  wf_disj : forall i j a, (i < NCPU)%nat -> (j < NCPU)%nat -> i <> j ->
            In a (ls i) -> ~ In a (ls j);
  wf_addr : forall i a, (i < NCPU)%nat -> In a (ls i) -> okaddr a
}.

(** No pool lock is held: the state between two calls. *)
Definition unlocked (NCPU : nat) (st : state) : Prop :=
  forall i, (i < NCPU)%nat -> lock (kmem st i) = None.

(** The choice the scan of [reschedule] makes, as a function of the
    counts alone. *)
Fixpoint best (lens : nat -> Z) (id : nat) (ids : list nat)
         (maxid : option nat) (maxlen : Z) : option nat * Z :=
  match ids with
  | [] => (maxid, maxlen)
  | i :: rest =>
      if Nat.eqb i id then best lens id rest maxid maxlen
      else if lens i >? maxlen then best lens id rest (Some i) (lens i)
      else best lens id rest maxid maxlen
  end.

Definition donor (NCPU : nat) (st : state) (id : nat) : option nat :=
  fst (best (fun i => freelen (kmem st i)) id (seq 0 NCPU) None 0).

(** Sums over the pools [0 .. n-1]. *)
Fixpoint sumf (f : nat -> Z) (n : nat) : Z :=
  match n with
  | O => 0
  | S k => sumf f k + f k
  end.

(** The sum of the free counts of all pools. *)
Definition free_total (NCPU : nat) (st : state) : Z :=
  sumf (fun i => freelen (kmem st i)) NCPU.

(** The pages [freerange(end, PHYSTOP)] hands to [kfree]. *)
Definition npages (kend PHYSTOP : Z) : Z :=
  Z.max 0 ((PHYSTOP - PGROUNDUP kend) / PGSIZE).

(** The page addresses [p], [p + PGSIZE], ...: [n] of them. *)
Fixpoint pages (p : Z) (n : nat) : list Z :=
  match n with
  | O => []
  | S k => p :: pages (p + PGSIZE) k
  end.

(** The managed pages: those [freerange(end, PHYSTOP)] hands to [kfree],
    in the order of the calls. *)
Definition managed (kend PHYSTOP : Z) : list Z :=
  pages (PGROUNDUP kend) (Z.to_nat (npages kend PHYSTOP)).

(** The machine at boot: [kmem] is in zero-initialised storage, memory
    holds anything. *)
Definition boot (m : memory) : state :=
  mkstate (fun _ => mkpool None 0 0) m.

(** The states the allocator goes through, with the pages that are out:
    returned by [kalloc] and not yet given back.  Callers free only pages
    they hold. *)
Inductive reach (NCPU : nat) (kend PHYSTOP : Z) : state -> list Z -> Prop :=
| reach_init m fuel cpu st :
    (cpu < NCPU)%nat ->
    kinit NCPU kend PHYSTOP fuel cpu (boot m) = Ret tt st ->
    reach NCPU kend PHYSTOP st []
| reach_alloc st out fuel cpu r st' :
    reach NCPU kend PHYSTOP st out ->
    (cpu < NCPU)%nat ->
    kalloc NCPU fuel cpu st = Ret r st' ->
    reach NCPU kend PHYSTOP st' (if r =? 0 then out else r :: out)
| reach_free st out cpu pa st' :
    reach NCPU kend PHYSTOP st out ->
    (cpu < NCPU)%nat ->
    In pa out ->
    kfree kend PHYSTOP cpu pa st = Ret tt st' ->
    reach NCPU kend PHYSTOP st' (remove Z.eq_dec pa out).

(** *** The invariant of the allocator *)

Section Invariant.

Variable NCPU : nat.
Variable kend : Z.
Variable PHYSTOP : Z.

(** The addresses [kfree] refuses. *)
Definition bad_address (pa : Z) : Prop :=
  pa mod PGSIZE <> 0 \/ pa < kend \/ PHYSTOP <= pa.

(** The state [kfree] leaves. *)
Definition freed (cpu : nat) (pa : Z) (st : state) : state :=
  let m := store64 (memset_bytes (mem st) pa 1 PGSIZE) pa (freelist (kmem st cpu)) in
  set_lock cpu None
    (set_freelen cpu (int32 (freelen (kmem st cpu) + 1))
       (set_freelist cpu pa (set_mem m st))).

(** The lengths of the lists. *)
Definition lens (ls : nat -> list Z) : nat -> Z :=
  fun i => Z.of_nat (length (ls i)).

(** The pages still to be freed when the loop of [freerange] is at [p]. *)
Definition remaining (p : Z) : Z := Z.max 0 ((PHYSTOP - p) / PGSIZE).

(** What holds between two calls in every state the allocator reaches:
    the pools are well formed and unlocked, the pages that are out are on
    no list, and lists and pages out together are the managed pages. *)
Record inv (st : state) (out : list Z) (ls : nat -> list Z) : Prop := mkinv {
  inv_wf : wf NCPU st ls;
  inv_unlocked : unlocked NCPU st;
  inv_out_nodup : NoDup out;
  inv_out_good : forall a, In a out -> ~ bad_address a;
  inv_out_disj : forall a i, In a out -> (i < NCPU)%nat -> ~ In a (ls i);
  inv_free_good : forall i a, (i < NCPU)%nat -> In a (ls i) -> ~ bad_address a;
  inv_count : sumf (lens ls) NCPU + Z.of_nat (length out) = npages kend PHYSTOP
}.

End Invariant.

(** *** A small machine

    Two cores, ten managed pages above a kernel that ends at 0x80021000
    (the addresses of the qemu [virt] board, with [PHYSTOP] lowered to keep
    the example small).  Core 0 runs [kinit], so pool 0 starts with the ten
    pages and pool 1 with none. *)
Module Small.
Definition NCPU : nat := 2.
Definition kend : Z := 2147618816.
Definition PHYSTOP : Z := 2147659776.

Definition st0 : state := boot (fun _ => 0).
Definition booted : state := state_of (kinit NCPU kend PHYSTOP 10 0 st0) st0.

(** Core 1, whose pool is empty, allocates.  In [holding1] core 1 holds the
    lock of its pool, as it does when [kalloc] calls [reschedule]. *)
Definition alloc1 : outcome state Z := kalloc NCPU 10 1 booted.
Definition after_alloc1 : state := state_of alloc1 st0.
Definition holding1 : state := set_lock 1 (Some 1%nat) booted.
End Small.

(** *** Three cores after boot

    The same memory with three cores.  Core 0 has run [kinit]: pool 0 has
    the ten pages, pools 1 and 2 are empty, as the pools of all cores but
    the first are when the kernel starts. *)
Module Trio.
Definition NCPU : nat := 3.
Definition booted : state :=
  state_of (kinit NCPU Small.kend Small.PHYSTOP 10 0 Small.st0) Small.st0.
End Trio.

End Kalloc.

(* ===================================================================== *)
(** ** bio.c *)

Module Bio.

(** A [struct buf *]: null, the list head of a bucket ([&table[i].head]) or
    a slot of the cache ([&bcache.buf[j]]). *)
Inductive ptr : Type :=
| Null
| Head (i : nat)
| Buf (j : nat).

Definition ptr_eqb (p q : ptr) : bool :=
  match p, q with
  | Null, Null => true
  | Head i, Head i' => Nat.eqb i i'
  | Buf j, Buf j' => Nat.eqb j j'
  | _, _ => false
  end.

(** Modelled from the spec: the sleep lock of [sleeplock.c], "a blocking
    exclusive lock per cache slot"; it records the process that holds
    it. *)
Definition sleeplock : Type := option nat.

Definition holdingsleep (pid : nat) (lk : sleeplock) : bool :=
  match lk with
  | Some p => Nat.eqb p pid
  | None => false
  end.

(** Modelled from the spec: [struct buf] of buf.h, a cache slot with its
    "device id, block number, validity flag, reference count, last-release
    timestamp, data payload, exclusive lock", and the [next] link bio.c
    threads the bucket lists through.  [dev], [blockno], [refcnt] and
    [timestamp] are [uint]. *)
Record buf : Type := mkbuf {
  valid : Z;
  dev : Z;
  blockno : Z;
  lock : sleeplock;
  refcnt : Z;
  next : ptr;
  timestamp : Z;
  data : list Z
}.

(** [struct hashtable]. *)
Record hashtable : Type := mkbucket {
  tlock : spinlock;
  head : buf
}.

(** The cache: [bcache], [table], the clock [ticks] and the disk behind
    [virtio_disk_rw] with the transfers made so far (last first; [true] is
    a write).  [beyond] is what the element after the last one of
    [bcache.buf] reads as: line 126 reads [b->refcnt] there. *)
Record state : Type := mkstate {
  bcache_lock : spinlock;
  bufs : nat -> buf;
  beyond : buf;
  table : nat -> hashtable;
  ticks : Z;
  disk : Z -> Z -> list Z;
  io : list (bool * Z * Z)
}.

Definition set_bcache_lock (l : spinlock) (s : state) : state :=
  mkstate l (bufs s) (beyond s) (table s) (ticks s) (disk s) (io s).
Definition set_buf (j : nat) (b : buf) (s : state) : state :=
  mkstate (bcache_lock s) (upd (bufs s) j b) (beyond s) (table s) (ticks s)
          (disk s) (io s).
Definition set_tlock (i : nat) (l : spinlock) (s : state) : state :=
  mkstate (bcache_lock s) (bufs s) (beyond s)
          (upd (table s) i (mkbucket l (head (table s i)))) (ticks s) (disk s) (io s).
Definition set_head (i : nat) (b : buf) (s : state) : state :=
  mkstate (bcache_lock s) (bufs s) (beyond s)
          (upd (table s) i (mkbucket (tlock (table s i)) b)) (ticks s) (disk s) (io s).
Definition set_ticks (t : Z) (s : state) : state :=
  mkstate (bcache_lock s) (bufs s) (beyond s) (table s) t (disk s) (io s).
Definition set_disk (d : Z -> Z -> list Z) (s : state) : state :=
  mkstate (bcache_lock s) (bufs s) (beyond s) (table s) (ticks s) d (io s).
Definition log_io (e : bool * Z * Z) (s : state) : state :=
  mkstate (bcache_lock s) (bufs s) (beyond s) (table s) (ticks s) (disk s)
          (e :: io s).

Definition set_valid (v : Z) (b : buf) : buf :=
  mkbuf v (dev b) (blockno b) (lock b) (refcnt b) (next b) (timestamp b) (data b).
Definition set_dev (v : Z) (b : buf) : buf :=
  mkbuf (valid b) v (blockno b) (lock b) (refcnt b) (next b) (timestamp b) (data b).
Definition set_blockno (v : Z) (b : buf) : buf :=
  mkbuf (valid b) (dev b) v (lock b) (refcnt b) (next b) (timestamp b) (data b).
Definition set_lock (v : sleeplock) (b : buf) : buf :=
  mkbuf (valid b) (dev b) (blockno b) v (refcnt b) (next b) (timestamp b) (data b).
Definition set_refcnt (v : Z) (b : buf) : buf :=
  mkbuf (valid b) (dev b) (blockno b) (lock b) v (next b) (timestamp b) (data b).
Definition set_next (v : ptr) (b : buf) : buf :=
  mkbuf (valid b) (dev b) (blockno b) (lock b) (refcnt b) v (timestamp b) (data b).
Definition set_timestamp (v : Z) (b : buf) : buf :=
  mkbuf (valid b) (dev b) (blockno b) (lock b) (refcnt b) (next b) v (data b).
Definition set_data (v : list Z) (b : buf) : buf :=
  mkbuf (valid b) (dev b) (blockno b) (lock b) (refcnt b) (next b) (timestamp b) v.

Definition B : Type -> Type := M state.

(** [0xffffffff]: the initial [mintime], and [(uint)-1], the block number
    of a slot that was never bound. *)
Definition UINT_MAX : Z := 4294967295.

Section Cache.

(** [NBUF] (param.h) and [NBUCKET]. *)
Variable NBUF : nat.
Variable NBUCKET : nat.

(** What a pointer points to.  A null pointer, and an index outside the
    arrays, point to no object. *)
Definition deref (s : state) (p : ptr) : option buf :=
  match p with
  | Null => None
  | Head i => if (i <? NBUCKET)%nat then Some (head (table s i)) else None
  | Buf j => if (j <? NBUF)%nat then Some (bufs s j) else None
  end.

Definition assign (p : ptr) (b : buf) (s : state) : state :=
  match p with
  | Null => s
  | Head i => set_head i b s
  | Buf j => set_buf j b s
  end.

(** [p->f] read, and [p->f = v]. *)
Definition rd {A} (p : ptr) (f : buf -> A) : B A :=
  fun s =>
    match deref s p with
    | Some b => Ret (f b) s
    | None => Undef
    end.

Definition wr (p : ptr) (f : buf -> buf) : B unit :=
  fun s =>
    match deref s p with
    | Some b => Ret tt (assign p (f b) s)
    | None => Undef
    end.

(** Modelled from the spec: [acquire] and [release] of spinlock.c, on the
    lock of bucket [i] and on [bcache.lock]. *)
Definition acquire_bucket (cpu i : nat) : B unit :=
  fun s =>
    if (i <? NBUCKET)%nat then
      match tlock (table s i) with
      | None => Ret tt (set_tlock i (Some cpu) s)
      | Some _ => Spin
      end
    else Undef.

Definition release_bucket (cpu i : nat) : B unit :=
  fun s =>
    if (i <? NBUCKET)%nat then
      if holding cpu (tlock (table s i)) then Ret tt (set_tlock i None s)
      else Panic "release"
    else Undef.

Definition acquire_bcache (cpu : nat) : B unit :=
  fun s =>
    match bcache_lock s with
    | None => Ret tt (set_bcache_lock (Some cpu) s)
    | Some _ => Spin
    end.

Definition release_bcache (cpu : nat) : B unit :=
  fun s =>
    if holding cpu (bcache_lock s) then Ret tt (set_bcache_lock None s)
    else Panic "release".

(** Modelled from the spec: [acquiresleep] and [releasesleep] of
    sleeplock.c, called by process [pid]. *)
Definition acquiresleep (pid : nat) (p : ptr) : B unit :=
  l <- rd p lock ;;
  match l with
  | None => wr p (set_lock (Some pid))
  | Some _ => spin
  end.

Definition releasesleep (p : ptr) : B unit := wr p (set_lock None).

(** Modelled from the spec: [virtio_disk_rw], "one device-level read or
    write transferring exactly one block's worth of bytes into/out of a
    given slot's payload". *)
Definition virtio_disk_rw (p : ptr) (write : bool) : B unit :=
  d <- rd p dev ;;
  bn <- rd p blockno ;;
  if write then
    c <- rd p data ;;
    modify (fun s => set_disk (fun d' bn' =>
                       if (d' =? d) && (bn' =? bn) then c else disk s d' bn') s) ;;
    modify (log_io (true, d, bn))
  else
    c <- gets (fun s => disk s d bn) ;;
    wr p (set_data c) ;;
    modify (log_io (false, d, bn)).

(** [binit]. *)
Fixpoint binit_bufs (js : list nat) : B unit :=
  match js with
  | [] => ret tt
  | j :: rest =>
      wr (Buf j) (set_lock None) ;;
      wr (Buf j) (set_blockno UINT_MAX) ;;
      binit_bufs rest
  end.

Fixpoint binit_table (ids : list nat) : B unit :=
  match ids with
  | [] => ret tt
  | i :: rest =>
      modify (set_tlock i None) ;;
      wr (Head i) (set_next (Head i)) ;;
      binit_table rest
  end.

Definition binit : B unit :=
  modify (set_bcache_lock None) ;;
  binit_bufs (seq 0 NBUF) ;;
  binit_table (seq 0 NBUCKET).

(** [hash]: the argument is an [int], [%] is the C remainder. *)
Definition hash (blockno : Z) : Z := Z.rem (int32 blockno) (Z.of_nat NBUCKET).

(** Lines 83-90: the search of the bucket for the block. *)
Fixpoint lookup (fuel : nat) (idx : nat) (d bn : Z) (b : ptr) : B (option ptr) :=
  if ptr_eqb b (Head idx) then ret None
  else
    match fuel with
    | O => out_of_fuel
    | S f =>
        bd <- rd b dev ;;
        bb <- rd b blockno ;;
        if (bd =? d) && (bb =? bn) then ret (Some b)
        else
          nx <- rd b next ;;
          lookup f idx d bn nx
    end.

(** Lines 96-101: the least recently used unused slot of the bucket. *)
Fixpoint lru_bucket (fuel : nat) (idx : nat) (b : ptr) (mintime : Z) (replbuf : ptr)
  : B ptr :=
  if ptr_eqb b (Head idx) then ret replbuf
  else
    match fuel with
    | O => out_of_fuel
    | S f =>
        rc <- rd b refcnt ;;
        ts <- rd b timestamp ;;
        nx <- rd b next ;;
        if (rc =? 0) && (ts <? mintime) then lru_bucket f idx nx ts b
        else lru_bucket f idx nx mintime replbuf
    end.

(** Lines 109-115: the same over the whole array [bcache.buf]. *)
Fixpoint lru_all (s : state) (js : list nat) (mintime : Z) (replbuf : ptr) : ptr :=
  match js with
  | [] => replbuf
  | j :: rest =>
      if (refcnt (bufs s j) =? 0) && (timestamp (bufs s j) <? mintime)
      then lru_all s rest (timestamp (bufs s j)) (Buf j)
      else lru_all s rest mintime replbuf
  end.

(** How one round of the loop of lines 108-132 ends. *)
Inductive verdict : Type :=
| GoFind
| Break (ridx : nat)
| Again.

(** Lines 116-129, for the slot [replbuf] the scan has left.  The test of
    line 126 is on [b], the cursor of the scan, which the loop of lines
    110-115 has left at [bcache.buf + NBUF]. *)
Definition after_scan (cpu idx : nat) (replbuf : ptr) : B verdict :=
  if ptr_eqb replbuf Null then ret Again
  else
    bn <- rd replbuf blockno ;;
    if bn =? UINT_MAX then
      hn <- rd (Head idx) next ;;
      wr replbuf (set_next hn) ;;
      wr (Head idx) (set_next replbuf) ;;
      release_bcache cpu ;;
      ret GoFind
    else
      let ridx := hash bn in
      if ridx <? 0 then undef
      else
        acquire_bucket cpu (Z.to_nat ridx) ;;
        rc <- gets (fun s => refcnt (beyond s)) ;;
        if rc =? 0 then ret (Break (Z.to_nat ridx))
        else
          release_bucket cpu (Z.to_nat ridx) ;;
          ret Again.

(** Lines 108-132: [for(int i = 0; ; i++)].  [mintime] is reset in each
    round, [replbuf] is not. *)
Fixpoint global_loop (fuel : nat) (cpu idx : nat) (replbuf : ptr)
  : B (ptr * option nat) :=
  match fuel with
  | O => out_of_fuel
  | S f =>
      r <- gets (fun s => lru_all s (seq 0 NBUF) UINT_MAX replbuf) ;;
      v <- after_scan cpu idx r ;;
      match v with
      | GoFind => ret (r, None)
      | Break ridx => ret (r, Some ridx)
      | Again => global_loop f cpu idx r
      end
  end.

(** Lines 134-141.  The search for the predecessor of [replbuf] steps with
    [b++]: when [replbuf] is not the first slot of the bucket, [b] leaves
    [rbucket->head] for the memory behind it, which is then read and
    written as a [struct buf]. *)
Definition migrate (cpu idx ridx : nat) (replbuf : ptr) : B unit :=
  hn <- rd (Head ridx) next ;;
  if ptr_eqb hn replbuf then
    rn <- rd replbuf next ;;
    wr (Head ridx) (set_next rn) ;;
    release_bucket cpu ridx ;;
    hn' <- rd (Head idx) next ;;
    wr replbuf (set_next hn') ;;
    wr (Head idx) (set_next replbuf) ;;
    release_bcache cpu
  else undef.

(** Lines 144-151, the label [find]. *)
Definition find (cpu pid idx : nat) (replbuf : ptr) (d bn : Z) : B ptr :=
  wr replbuf (set_dev d) ;;
  wr replbuf (set_blockno bn) ;;
  wr replbuf (set_valid 0) ;;
  wr replbuf (set_refcnt 1) ;;
  release_bucket cpu idx ;;
  acquiresleep pid replbuf ;;
  ret replbuf.

(** Lines 79-90 up to the test of line 84: is the block cached? *)
Definition search (fuel : nat) (cpu idx : nat) (d bn : Z) : B (option ptr) :=
  acquire_bucket cpu idx ;;
  hn <- rd (Head idx) next ;;
  lookup fuel idx d bn hn.

(** [bget], called on core [cpu] by process [pid]. *)
Definition bget (fuel : nat) (cpu pid : nat) (d bn : Z) : B ptr :=
  if hash bn <? 0 then undef
  else
    let idx := Z.to_nat (hash bn) in
    hit <- search fuel cpu idx d bn ;;
    match hit with
    | Some b =>
        rc <- rd b refcnt ;;
        wr b (set_refcnt (uint32 (rc + 1))) ;;
        release_bucket cpu idx ;;
        acquiresleep pid b ;;
        ret b
    | None =>
        hn <- rd (Head idx) next ;;
        replbuf <- lru_bucket fuel idx hn UINT_MAX Null ;;
        if negb (ptr_eqb replbuf Null) then find cpu pid idx replbuf d bn
        else
          acquire_bcache cpu ;;
          res <- global_loop fuel cpu idx replbuf ;;
          match snd res with
          | None => find cpu pid idx (fst res) d bn
          | Some ridx =>
              migrate cpu idx ridx (fst res) ;;
              find cpu pid idx (fst res) d bn
          end
    end.

(** [bread]. *)
Definition bread (fuel : nat) (cpu pid : nat) (d bn : Z) : B ptr :=
  b <- bget fuel cpu pid d bn ;;
  v <- rd b valid ;;
  (if v =? 0 then
     virtio_disk_rw b false ;;
     wr b (set_valid 1)
   else ret tt) ;;
  ret b.

(** [bwrite]. *)
Definition bwrite (pid : nat) (b : ptr) : B unit :=
  l <- rd b lock ;;
  if negb (holdingsleep pid l) then panic "bwrite"
  else virtio_disk_rw b true.

(** [brelse]. *)
Definition brelse (cpu pid : nat) (b : ptr) : B unit :=
  l <- rd b lock ;;
  if negb (holdingsleep pid l) then panic "brelse"
  else
    releasesleep b ;;
    bn <- rd b blockno ;;
    if hash bn <? 0 then undef
    else
      let idx := Z.to_nat (hash bn) in
      acquire_bucket cpu idx ;;
      rc <- rd b refcnt ;;
      wr b (set_refcnt (uint32 (rc - 1))) ;;
      rc' <- rd b refcnt ;;
      (if rc' =? 0 then
         t <- gets ticks ;;
         wr b (set_timestamp t)
       else ret tt) ;;
      release_bucket cpu idx.

(** [bpin] and [bunpin]. *)
Definition bpin (cpu : nat) (b : ptr) : B unit :=
  bn <- rd b blockno ;;
  if hash bn <? 0 then undef
  else
    let idx := Z.to_nat (hash bn) in
    acquire_bucket cpu idx ;;
    rc <- rd b refcnt ;;
    wr b (set_refcnt (uint32 (rc + 1))) ;;
    release_bucket cpu idx.

Definition bunpin (cpu : nat) (b : ptr) : B unit :=
  bn <- rd b blockno ;;
  if hash bn <? 0 then undef
  else
    let idx := Z.to_nat (hash bn) in
    acquire_bucket cpu idx ;;
    rc <- rd b refcnt ;;
    wr b (set_refcnt (uint32 (rc - 1))) ;;
    release_bucket cpu idx.

(** The slots [l] are linked from [p] to [q] through [next]. *)
Fixpoint chain (s : state) (p : ptr) (l : list nat) (q : ptr) : Prop :=
  match l with
  | [] => p = q
  | j :: l' => p = Buf j /\ (j < NBUF)%nat /\ chain s (next (bufs s j)) l' q
  end.

(** The list of bucket [idx] holds the slots [l]. *)
Definition bucket_list (s : state) (idx : nat) (l : list nat) : Prop :=
  (idx < NBUCKET)%nat /\ chain s (next (head (table s idx))) l (Head idx).

(** Slot [j] is bound to block [bn] of device [d]. *)
Definition bound_to (s : state) (d bn : Z) (j : nat) : Prop :=
  dev (bufs s j) = d /\ blockno (bufs s j) = bn.

(** Slot [j] can be evicted: lines 97 and 111. *)
Definition evictable (s : state) (j : nat) : Prop :=
  refcnt (bufs s j) = 0 /\ timestamp (bufs s j) < UINT_MAX.

End Cache.

(** Two states that differ in slot [j] at most. *)
Definition same_but_slot (j : nat) (s s' : state) : Prop :=
  (forall k, k <> j -> bufs s' k = bufs s k) /\
  (forall i, table s' i = table s i) /\
  bcache_lock s' = bcache_lock s /\ beyond s' = beyond s /\
  ticks s' = ticks s /\ disk s' = disk s /\ io s' = io s.

(** The cache before [binit]: zero-initialised storage. *)
Definition zero_buf : buf := mkbuf 0 0 0 None 0 Null 0 [].

Definition boot (stray : buf) (t : Z) (d : Z -> Z -> list Z) : state :=
  mkstate None (fun _ => zero_buf) stray (fun _ => mkbucket None zero_buf) t d [].

(** *** A small cache: two slots, two buckets *)
Module Tiny.
Definition NBUF : nat := 2.
Definition NBUCKET : nat := 2.

Definition off : state := boot zero_buf 0 (fun _ _ => []).
Definition s0 : state := state_of (binit NBUF NBUCKET off) off.

(** Process 1 takes block 0 and process 2 block 2 of device 1, both of
    bucket 0: slot 0, then slot 1 in front of it.  No slot is left. *)
Definition s1 : state := state_of (bget NBUF NBUCKET 4 0 1 1 0 s0) off.
Definition full : state := state_of (bget NBUF NBUCKET 4 0 2 1 2 s1) off.

(** At time 7 one of the two is released: the slot at the front of the
    list of bucket 0, or the slot behind it. *)
Definition first_free : state :=
  state_of (brelse NBUF NBUCKET 0 2 (Buf 1) (set_ticks 7 full)) off.
Definition second_free : state :=
  state_of (brelse NBUF NBUCKET 0 1 (Buf 0) (set_ticks 7 full)) off.

(** Core 0 (process 3) asks for block 1, of bucket 1, in [first_free]: it
    finds nothing in bucket 1, takes [bcache.lock] and scans the array. *)
Definition a_scans : state :=
  state_of (acquire_bcache 0 (state_of (search NBUF NBUCKET 4 0 1 1 1 first_free) off))
           off.
(** Before core 0 goes on, core 1 (process 2) takes block 2 again. *)
Definition b_hits : state := state_of (bget NBUF NBUCKET 4 1 2 1 2 a_scans) off.
(** The same moment for core 0, no other core interfering, when the word
    behind the array is not zero. *)
Definition a_scans_stray : state :=
  mkstate (bcache_lock a_scans) (bufs a_scans) (set_refcnt 5 zero_buf)
          (table a_scans) (ticks a_scans) (disk a_scans) (io a_scans).

(** Scenario C: block 5 of device 1 is read, released, and read again. *)
Definition c1 : state := state_of (bread NBUF NBUCKET 4 0 1 1 5 s0) off.
Definition c2 : state := state_of (brelse NBUF NBUCKET 0 1 (Buf 0) c1) off.
Definition c3 : state := state_of (bread NBUF NBUCKET 4 0 1 1 5 c2) off.
End Tiny.

End Bio.

(* ===================================================================== *)
(** ** Shared facts *)

Module Common.

Lemma returned_eq {S A} (o : outcome S A) (dv : A) (ds : S) :
  returned o = true -> o = Ret (value_of o dv) (state_of o ds).
Proof. destruct o; simpl; intros H; [reflexivity | discriminate..]. Qed.

Lemma upd_same {A} (f : nat -> A) i v : upd f i v i = v.
Proof. unfold upd. now rewrite Nat.eqb_refl. Qed.

Lemma upd_other {A} (f : nat -> A) i j v : j <> i -> upd f i v j = f j.
Proof. unfold upd. intros H. apply Nat.eqb_neq in H. now rewrite H. Qed.

Lemma int32_small x : - 2 ^ 31 <= x < 2 ^ 31 -> int32 x = x.
Proof. intros H. unfold int32. rewrite Z.mod_small; lia. Qed.

End Common.

(* ===================================================================== *)
(** ** Facts about kalloc.c *)

Module KallocFacts.
Import Common Kalloc.

(** *** Memory lemmas *)

Lemma store_le_out m a n v x :
  x < a \/ a + Z.of_nat n <= x -> store_le m a n v x = m x.
Proof.
  revert m a v. induction n as [|n IH]; intros m a v H; simpl; [reflexivity|].
  rewrite IH by lia.
  destruct (Z.eqb_spec x a); [lia | reflexivity].
Qed.

Lemma load_le_ext m m' a n :
  (forall x, a <= x < a + Z.of_nat n -> m x = m' x) ->
  load_le m a n = load_le m' a n.
Proof.
  revert a. induction n as [|n IH]; intros a H; simpl; [reflexivity|].
  rewrite (H a) by lia. rewrite (IH (a + 1)); [reflexivity|].
  intros x Hx. apply H. lia.
Qed.

Lemma load_le_store_le m a n v :
  load_le (store_le m a n v) a n = v mod 256 ^ Z.of_nat n.
Proof.
  revert m a v. induction n as [|n IH]; intros m a v.
  - simpl. now rewrite Z.mod_1_r.
  - cbn [load_le store_le]. rewrite IH.
    rewrite store_le_out by lia. rewrite Z.eqb_refl.
    rewrite Nat2Z.inj_succ, Z.pow_succ_r by lia.
    rewrite Z.rem_mul_r by lia. reflexivity.
Qed.

Lemma load64_store64_same m a v :
  0 <= v < 2 ^ 64 -> load64 (store64 m a v) a = v.
Proof.
  intros H. unfold load64, store64. rewrite load_le_store_le.
  apply Z.mod_small. change (256 ^ Z.of_nat 8) with (2 ^ 64). exact H.
Qed.

Lemma load64_store64_other m a b v :
  a + 8 <= b \/ b + 8 <= a -> load64 (store64 m b v) a = load64 m a.
Proof.
  intros H. unfold load64, store64. apply load_le_ext.
  intros x Hx. apply store_le_out. lia.
Qed.

Lemma load64_memset_other m a b c n :
  a + 8 <= b \/ b + n <= a -> load64 (memset_bytes m b c n) a = load64 m a.
Proof.
  intros H. unfold load64. apply load_le_ext. intros x Hx.
  unfold memset_bytes.
  destruct (Z.leb_spec b x); destruct (Z.ltb_spec x (b + n)); simpl; try reflexivity.
  lia.
Qed.

Lemma memset_bytes_in m a c n x :
  a <= x < a + n -> memset_bytes m a c n x = c.
Proof.
  intros H. unfold memset_bytes.
  destruct (Z.leb_spec a x); destruct (Z.ltb_spec x (a + n)); simpl; try reflexivity; lia.
Qed.

Lemma memset_bytes_out m a c n x :
  x < a \/ a + n <= x -> memset_bytes m a c n x = m x.
Proof.
  intros H. unfold memset_bytes.
  destruct (Z.leb_spec a x); destruct (Z.ltb_spec x (a + n)); simpl; try reflexivity; lia.
Qed.

Lemma okaddr_apart a b : okaddr a -> okaddr b -> a <> b ->
  a + PGSIZE <= b \/ b + PGSIZE <= a.
Proof.
  unfold okaddr, PGSIZE. intros [_ Ha] [_ Hb] Hne.
  apply Z.mod_divide in Ha; [|lia]. apply Z.mod_divide in Hb; [|lia].
  destruct Ha as [x ->], Hb as [y ->]. lia.
Qed.

Lemma lseg_app m p q l1 l2 :
  lseg m p q (l1 ++ l2) <-> exists r, lseg m p r l1 /\ lseg m r q l2.
Proof.
  revert p. induction l1 as [|a l1 IH]; intros p; simpl.
  - split.
    + intros H. exists p. auto.
    + intros [r [-> H]]. exact H.
  - split.
    + intros (-> & Hn & H). apply IH in H. destruct H as [r [H1 H2]].
      exists r. auto.
    + intros [r [(-> & Hn & H1) H2]]. repeat split; auto.
      apply IH. exists r. auto.
Qed.

Lemma lseg_ext m m' p q l :
  (forall a, In a l -> load64 m' a = load64 m a) ->
  lseg m p q l -> lseg m' p q l.
Proof.
  revert p. induction l as [|a l IH]; intros p Hm H; simpl in *; [exact H|].
  destruct H as (-> & Hn & H). repeat split; auto.
  rewrite Hm by auto. apply IH; auto.
Qed.

Lemma flist_fun m p l l' : flist m p l -> flist m p l' -> l = l'.
Proof.
  unfold flist. revert p l'. induction l as [|a l IH]; intros p [|a' l'] H H'; simpl in *.
  - reflexivity.
  - destruct H' as (-> & Hn & _). congruence.
  - destruct H as (-> & Hn & _). congruence.
  - destruct H as (-> & Hn & H), H' as (E & _ & H'). subst a'.
    f_equal. eapply IH; eauto.
Qed.

Lemma flist_null m l : flist m 0 l -> l = [].
Proof.
  destruct l as [|a l]; [reflexivity|]. intros (E & Hn & _). congruence.
Qed.

Lemma flist_nonnull m p l : flist m p l -> p <> 0 ->
  exists l', l = p :: l' /\ flist m (load64 m p) l'.
Proof.
  destruct l as [|a l]; simpl.
  - intros -> H. congruence.
  - intros (-> & Hn & H) _. eauto.
Qed.

(** *** Projections of the updated state *)

Lemma kmem_set_lock i l s j :
  kmem (set_lock i l s) j =
  if Nat.eqb j i then mkpool l (freelist (kmem s i)) (freelen (kmem s i))
  else kmem s j.
Proof. reflexivity. Qed.

Lemma kmem_set_freelist i p s j :
  kmem (set_freelist i p s) j =
  if Nat.eqb j i then mkpool (lock (kmem s i)) p (freelen (kmem s i))
  else kmem s j.
Proof. reflexivity. Qed.

Lemma kmem_set_freelen i n s j :
  kmem (set_freelen i n s) j =
  if Nat.eqb j i then mkpool (lock (kmem s i)) (freelist (kmem s i)) n
  else kmem s j.
Proof. reflexivity. Qed.

(** *** The scan *)

Lemma best_spec lens id ids : forall maxid maxlen,
  maxlen <= snd (best lens id ids maxid maxlen) /\
  (forall i, In i ids -> i <> id -> lens i <= snd (best lens id ids maxid maxlen)) /\
  (forall d, fst (best lens id ids maxid maxlen) = Some d ->
     (maxid = Some d /\ snd (best lens id ids maxid maxlen) = maxlen) \/
     (In d ids /\ d <> id /\ lens d = snd (best lens id ids maxid maxlen) /\
      maxlen < snd (best lens id ids maxid maxlen))) /\
  (fst (best lens id ids maxid maxlen) = None ->
     maxid = None /\ snd (best lens id ids maxid maxlen) = maxlen).
Proof.
  induction ids as [|i rest IH]; intros maxid maxlen; cbn [best].
  - cbn [fst snd]. split; [lia|]. split; [intros i []|]. split; auto.
  - destruct (Nat.eqb_spec i id) as [E|E].
    + destruct (IH maxid maxlen) as (H1 & H2 & H3 & H4).
      split; [exact H1|]. split; [|split; [|exact H4]].
      * intros j [Hj|Hj] Hne; [congruence | auto].
      * intros d Hd. destruct (H3 d Hd) as [?|(?&?&?&?)]; [left; auto | right].
        repeat split; auto. now right.
    + destruct (Z.gtb_spec (lens i) maxlen) as [G|G].
      * destruct (IH (Some i) (lens i)) as (H1 & H2 & H3 & H4).
        split; [lia|]. split; [|split].
        -- intros j [Hj|Hj] Hne; [subst; lia | auto].
        -- intros d Hd. right. destruct (H3 d Hd) as [[Hd1 Hd2]|(?&?&?&?)].
           ++ inversion Hd1; subst. repeat split; auto; try lia. now left.
           ++ repeat split; auto; try lia. now right.
        -- intros Hn. apply H4 in Hn. destruct Hn; discriminate.
      * destruct (IH maxid maxlen) as (H1 & H2 & H3 & H4).
        split; [exact H1|]. split; [|split; [|exact H4]].
        -- intros j [Hj|Hj] Hne; [subst; lia | auto].
        -- intros d Hd. destruct (H3 d Hd) as [?|(?&?&?&?)]; [left; auto | right].
           repeat split; auto. now right.
Qed.

Lemma scan_spec cpu id lens ids : forall maxid maxlen st,
  NoDup ids ->
  (forall i, In i ids -> i <> id -> lock (kmem st i) = None) ->
  (forall m, maxid = Some m -> lock (kmem st m) = Some cpu /\ ~ In m ids) ->
  (forall i, freelen (kmem st i) = lens i) ->
  exists st',
    scan cpu id ids maxid maxlen st = Ret (best lens id ids maxid maxlen) st' /\
    mem st' = mem st /\
    (forall i, freelist (kmem st' i) = freelist (kmem st i)) /\
    (forall i, freelen (kmem st' i) = freelen (kmem st i)) /\
    (forall i, lock (kmem st' i) =
       if match fst (best lens id ids maxid maxlen) with
          | Some d => Nat.eqb i d | None => false end
       then Some cpu
       else if match maxid with Some m => Nat.eqb i m | None => false end
       then None
       else lock (kmem st i)).
Proof.
  induction ids as [|i rest IH]; intros maxid maxlen st Hnd Hfree Hmax Hlens.
  - exists st. cbn. repeat split; auto.
    intros i. destruct maxid as [m|]; [|reflexivity].
    destruct (Nat.eqb_spec i m); [subst|reflexivity].
    now destruct (Hmax m eq_refl).
  - inversion Hnd as [|? ? Hni Hnd']; subst.
    cbn [scan best]. destruct (Nat.eqb_spec i id) as [E|E].
    + apply IH; auto.
      * intros j Hj. apply Hfree. now right.
      * intros m Hm. destruct (Hmax m Hm) as [H1 H2]. split; auto.
        intros C. apply H2. now right.
    + unfold bind at 1. unfold acquire. rewrite (Hfree i) by (auto; now left).
      unfold bind at 1. unfold gets.
      replace (freelen (kmem (set_lock i (Some cpu) st) i)) with (lens i)
        by (rewrite kmem_set_lock, Nat.eqb_refl; simpl; auto).
      destruct (Z.gtb_spec (lens i) maxlen) as [G|G].
      * (* a better candidate: drop the previous one *)
        destruct maxid as [m|].
        -- destruct (Hmax m eq_refl) as [Hm1 Hm2].
           assert (Hmi : m <> i) by (intros ->; apply Hm2; now left).
           unfold bind at 1. unfold release.
           rewrite kmem_set_lock. destruct (Nat.eqb_spec m i); [congruence|].
           rewrite Hm1. cbn [holding]. rewrite Nat.eqb_refl.
           destruct (IH (Some i) (lens i) (set_lock m None (set_lock i (Some cpu) st)))
             as (st' & Hrun & Hmem & Hfl & Hlen & Hlk); auto.
           ++ intros j Hj Hne. rewrite !kmem_set_lock.
              destruct (Nat.eqb_spec j m); [reflexivity|].
              destruct (Nat.eqb_spec j i); [subst; contradiction|].
              apply Hfree; auto. now right.
           ++ intros m' Hm'. inversion Hm'; subst m'. split; auto.
              rewrite !kmem_set_lock.
              destruct (Nat.eqb_spec i m); [congruence|]. rewrite Nat.eqb_refl. reflexivity.
           ++ intros j. rewrite !kmem_set_lock.
              destruct (Nat.eqb_spec j m); destruct (Nat.eqb_spec j i); subst; simpl;
                try rewrite Nat.eqb_refl; simpl; auto.
              destruct (Nat.eqb_spec m i); [congruence|]. auto.
           ++ exists st'. split; [exact Hrun|]. split; [exact Hmem|].
              split; [|split].
              ** intros j. rewrite Hfl, !kmem_set_lock.
                 destruct (Nat.eqb_spec j m); destruct (Nat.eqb_spec j i); subst; simpl;
                   try rewrite Nat.eqb_refl; simpl; auto.
                 destruct (Nat.eqb_spec m i); [congruence|]. auto.
              ** intros j. rewrite Hlen, !kmem_set_lock.
                 destruct (Nat.eqb_spec j m); destruct (Nat.eqb_spec j i); subst; simpl;
                   try rewrite Nat.eqb_refl; simpl; auto.
                 destruct (Nat.eqb_spec m i); [congruence|]. auto.
              ** intros j. rewrite Hlk.
                 destruct (match fst (best lens id rest (Some i) (lens i)) with
                           | Some d => Nat.eqb j d | None => false end) eqn:Eb; [reflexivity|].
                 destruct (Nat.eqb_spec j i) as [->|Hji].
                 --- destruct (Nat.eqb_spec i m); [congruence|].
                     (* i is not the final choice, so it was released *)
                     rewrite (Hfree i); auto. now left.
                 --- rewrite !kmem_set_lock.
                     destruct (Nat.eqb_spec j m); [reflexivity|].
                     destruct (Nat.eqb_spec j i); [congruence|]. reflexivity.
        -- unfold bind at 1. unfold ret.
           destruct (IH (Some i) (lens i) (set_lock i (Some cpu) st))
             as (st' & Hrun & Hmem & Hfl & Hlen & Hlk); auto.
           ++ intros j Hj Hne. rewrite !kmem_set_lock.
              destruct (Nat.eqb_spec j i); [subst; contradiction|].
              apply Hfree; auto. now right.
           ++ intros m' Hm'. inversion Hm'; subst m'. split; auto.
              rewrite !kmem_set_lock. rewrite Nat.eqb_refl. reflexivity.
           ++ intros j. rewrite !kmem_set_lock.
              destruct (Nat.eqb_spec j i); subst; simpl; auto.
           ++ exists st'. split; [exact Hrun|]. split; [exact Hmem|].
              split; [|split].
              ** intros j. rewrite Hfl, !kmem_set_lock.
                 destruct (Nat.eqb_spec j i); subst; simpl; auto.
              ** intros j. rewrite Hlen, !kmem_set_lock.
                 destruct (Nat.eqb_spec j i); subst; simpl; auto.
              ** intros j. rewrite Hlk.
                 destruct (match fst (best lens id rest (Some i) (lens i)) with
                           | Some d => Nat.eqb j d | None => false end) eqn:Eb; [reflexivity|].
                 destruct (Nat.eqb_spec j i) as [->|Hji].
                 --- rewrite (Hfree i); auto. now left.
                 --- rewrite !kmem_set_lock.
                     destruct (Nat.eqb_spec j i); [congruence|]. reflexivity.
      * (* not better: release it at once *)
        unfold bind at 1. unfold release.
        rewrite kmem_set_lock, Nat.eqb_refl. cbn [lock holding]. rewrite Nat.eqb_refl.
        destruct (IH maxid maxlen (set_lock i None (set_lock i (Some cpu) st)))
          as (st' & Hrun & Hmem & Hfl & Hlen & Hlk); auto.
        -- intros j Hj Hne. rewrite !kmem_set_lock.
           destruct (Nat.eqb_spec j i); [reflexivity|].
           apply Hfree; auto. now right.
        -- intros m Hm. destruct (Hmax m Hm) as [H1 H2].
           assert (Hmi : m <> i) by (intros ->; apply H2; now left).
           split; [|intros C; apply H2; now right].
           rewrite !kmem_set_lock. destruct (Nat.eqb_spec m i); [congruence|]. exact H1.
        -- intros j. rewrite !kmem_set_lock.
           destruct (Nat.eqb_spec j i); subst; simpl; try rewrite Nat.eqb_refl; simpl; auto.
        -- exists st'. split; [exact Hrun|]. split; [exact Hmem|].
           split; [|split].
           ++ intros j. rewrite Hfl, !kmem_set_lock.
              destruct (Nat.eqb_spec j i); subst; simpl; try rewrite Nat.eqb_refl; simpl; auto.
           ++ intros j. rewrite Hlen, !kmem_set_lock.
              destruct (Nat.eqb_spec j i); subst; simpl; try rewrite Nat.eqb_refl; simpl; auto.
           ++ intros j. rewrite Hlk.
              destruct (match fst (best lens id rest maxid maxlen) with
                        | Some d => Nat.eqb j d | None => false end) eqn:Eb; [reflexivity|].
              destruct (match maxid with Some m => Nat.eqb j m | None => false end) eqn:Em;
                [reflexivity|].
              rewrite !kmem_set_lock.
              destruct (Nat.eqb_spec j i); [|reflexivity].
              subst j. simpl. symmetry. apply Hfree; auto. now left.
Qed.

(** *** The slow/fast walk *)

Lemma flist_hd m p l : flist m p l -> p = hd 0 l.
Proof. destruct l; simpl; [auto | intros (-> & _); reflexivity]. Qed.

Lemma walk_spec m : forall fuel lf lr fp r,
  flist m fp lf -> flist m r lr ->
  (length lf <= length lr)%nat ->
  (length lf / 2 <= fuel)%nat ->
  walk fuel m fp r = Some (hd 0 (skipn (length lf / 2) lr)).
Proof.
  induction fuel as [|f IH]; intros lf lr fp r Hf Hr Hle Hfuel.
  - destruct lf as [|a [|b lf]].
    + cbn in Hf. subst fp. cbn. f_equal. now apply flist_hd in Hr.
    + cbn in Hf. destruct Hf as (-> & Ha & Hn). cbn [walk].
      destruct (Z.eqb_spec a 0); [congruence|]. rewrite Hn. cbn.
      f_equal. now apply flist_hd in Hr.
    + exfalso. cbn [length] in Hfuel.
      change (S (S (length lf))) with (2 + length lf)%nat in Hfuel.
      pose proof (Nat.div_add_l 1 2 (length lf)) as D. cbn in D.
      assert (1 <= (2 + length lf) / 2)%nat.
      { apply Nat.div_le_lower_bound; lia. }
      lia.
  - destruct lf as [|a [|b lf]].
    + cbn in Hf. subst fp. cbn. f_equal. now apply flist_hd in Hr.
    + cbn in Hf. destruct Hf as (-> & Ha & Hn). cbn [walk].
      destruct (Z.eqb_spec a 0); [congruence|]. rewrite Hn. cbn.
      f_equal. now apply flist_hd in Hr.
    + destruct Hf as (-> & Ha & Hb & Hb0 & Hf). cbn [walk].
      destruct (Z.eqb_spec a 0); [congruence|]. rewrite Hb.
      destruct (Z.eqb_spec b 0); [congruence|].
      destruct lr as [|c lr]; [cbn in Hle; lia|].
      destruct Hr as (-> & Hc & Hr).
      assert (D : (length (a :: b :: lf) / 2 = S (length lf / 2))%nat).
      { change (length (a :: b :: lf)) with (1 * 2 + length lf)%nat.
        rewrite Nat.div_add_l by lia. reflexivity. }
      rewrite D in *. cbn [skipn].
      apply IH; auto; cbn in Hle; lia.
Qed.

(** Field by field. *)

Lemma lock_set_lock i l s j :
  lock (kmem (set_lock i l s) j) = if Nat.eqb j i then l else lock (kmem s j).
Proof. rewrite kmem_set_lock. now destruct (Nat.eqb j i). Qed.
Lemma lock_set_freelist i p s j :
  lock (kmem (set_freelist i p s) j) = lock (kmem s j).
Proof. rewrite kmem_set_freelist. destruct (Nat.eqb_spec j i); now subst. Qed.
Lemma lock_set_freelen i n s j :
  lock (kmem (set_freelen i n s) j) = lock (kmem s j).
Proof. rewrite kmem_set_freelen. destruct (Nat.eqb_spec j i); now subst. Qed.
Lemma freelist_set_lock i l s j :
  freelist (kmem (set_lock i l s) j) = freelist (kmem s j).
Proof. rewrite kmem_set_lock. destruct (Nat.eqb_spec j i); now subst. Qed.
Lemma freelist_set_freelist i p s j :
  freelist (kmem (set_freelist i p s) j) =
  if Nat.eqb j i then p else freelist (kmem s j).
Proof. rewrite kmem_set_freelist. now destruct (Nat.eqb j i). Qed.
Lemma freelist_set_freelen i n s j :
  freelist (kmem (set_freelen i n s) j) = freelist (kmem s j).
Proof. rewrite kmem_set_freelen. destruct (Nat.eqb_spec j i); now subst. Qed.
Lemma freelen_set_lock i l s j :
  freelen (kmem (set_lock i l s) j) = freelen (kmem s j).
Proof. rewrite kmem_set_lock. destruct (Nat.eqb_spec j i); now subst. Qed.
Lemma freelen_set_freelist i p s j :
  freelen (kmem (set_freelist i p s) j) = freelen (kmem s j).
Proof. rewrite kmem_set_freelist. destruct (Nat.eqb_spec j i); now subst. Qed.
Lemma freelen_set_freelen i n s j :
  freelen (kmem (set_freelen i n s) j) =
  if Nat.eqb j i then n else freelen (kmem s j).
Proof. rewrite kmem_set_freelen. now destruct (Nat.eqb j i). Qed.
Lemma kmem_set_mem m s : kmem (set_mem m s) = kmem s.
Proof. reflexivity. Qed.
Lemma mem_set_mem m s : mem (set_mem m s) = m.
Proof. reflexivity. Qed.
Lemma mem_set_lock i l s : mem (set_lock i l s) = mem s.
Proof. reflexivity. Qed.
Lemma mem_set_freelist i p s : mem (set_freelist i p s) = mem s.
Proof. reflexivity. Qed.
Lemma mem_set_freelen i n s : mem (set_freelen i n s) = mem s.
Proof. reflexivity. Qed.

Create Rewrite HintDb kst.
#[local] Hint Rewrite lock_set_lock lock_set_freelist lock_set_freelen
  freelist_set_lock freelist_set_freelist freelist_set_freelen
  freelen_set_lock freelen_set_freelist freelen_set_freelen
  kmem_set_mem mem_set_mem mem_set_lock mem_set_freelist mem_set_freelen
  Nat.eqb_refl : kst.

Ltac kst := autorewrite with kst in *.

Ltac run :=
  cbv beta iota delta [bind gets modify ret panic out_of_fuel get_next put_next memset].

Lemma pool_eq (p q : pool) :
  lock p = lock q -> freelist p = freelist q -> freelen p = freelen q -> p = q.
Proof. destruct p, q; simpl; congruence. Qed.

Lemma holding_self cpu : holding cpu (Some cpu) = true.
Proof. simpl. apply Nat.eqb_refl. Qed.

Lemma NoDup_app_disj {A} (l1 l2 : list A) a :
  NoDup (l1 ++ l2) -> In a l1 -> In a l2 -> False.
Proof.
  induction l1 as [|x l1 IH]; simpl; intros H H1 H2; [contradiction|].
  inversion H as [|? ? Hx Hnd]; subst. destruct H1 as [->|H1].
  - apply Hx. apply in_or_app. now right.
  - auto.
Qed.

Lemma half_split {A} (l : list A) :
  l <> [] ->
  exists l1 x l2, l = l1 ++ x :: l2 /\ length l1 = (length l / 2)%nat.
Proof.
  intros Hne.
  assert (Hlt : (length l / 2 < length l)%nat).
  { apply Nat.div_lt; [|lia]. destruct l; [congruence | simpl; lia]. }
  destruct (skipn (length l / 2) l) as [|x l2] eqn:E.
  - apply (f_equal (@length A)) in E. rewrite length_skipn in E.
    change (length (@nil A)) with 0%nat in E. lia.
  - exists (firstn (length l / 2) l), x, l2. split.
    + rewrite <- E. symmetry. apply firstn_skipn.
    + rewrite length_firstn. lia.
Qed.

Lemma hd_skipn_app (l1 : list Z) x l2 :
  hd 0 (skipn (length l1) (l1 ++ x :: l2)) = x.
Proof. rewrite skipn_app, skipn_all, Nat.sub_diag. reflexivity. Qed.

Lemma half_arith (N : nat) :
  Z.quot (Z.of_nat N) 2 = Z.of_nat (N / 2) /\
  (if Z.rem (Z.of_nat N) 2 =? 0 then N = (2 * (N / 2))%nat
   else N = (2 * (N / 2) + 1)%nat).
Proof.
  rewrite Z.quot_div_nonneg, Z.rem_mod_nonneg by lia.
  pose proof (Nat.div_mod_eq N 2) as D.
  pose proof (Nat.mod_upper_bound N 2) as B.
  split.
  - change 2 with (Z.of_nat 2). now rewrite <- Nat2Z.inj_div.
  - change 2 with (Z.of_nat 2). rewrite <- Nat2Z.inj_mod.
    destruct (Z.eqb_spec (Z.of_nat (N mod 2)) 0); lia.
Qed.

Section Facts.

Variable NCPU : nat.
Variable kend : Z.
Variable PHYSTOP : Z.

Local Abbreviation bad_address := (bad_address kend PHYSTOP).
Local Abbreviation remaining := (remaining PHYSTOP).
Local Abbreviation inv := (inv NCPU kend PHYSTOP).

Lemma donor_scan cpu id st :
  (forall i, (i < NCPU)%nat -> i <> id -> lock (kmem st i) = None) ->
  exists st1,
    scan cpu id (seq 0 NCPU) None 0 st =
      Ret (best (fun i => freelen (kmem st i)) id (seq 0 NCPU) None 0) st1 /\
    mem st1 = mem st /\
    (forall i, freelist (kmem st1 i) = freelist (kmem st i)) /\
    (forall i, freelen (kmem st1 i) = freelen (kmem st i)) /\
    (forall i, lock (kmem st1 i) =
       if match donor NCPU st id with Some d => Nat.eqb i d | None => false end
       then Some cpu else lock (kmem st i)).
Proof.
  intros Hfree.
  destruct (scan_spec cpu id (fun i => freelen (kmem st i)) (seq 0 NCPU) None 0 st)
    as (st1 & H1 & H2 & H3 & H4 & H5); auto.
  - apply seq_NoDup.
  - intros i Hi Hne. apply Hfree; auto. apply in_seq in Hi. lia.
  - intros m Hm. discriminate.
  - exists st1. repeat split; auto.
Qed.

Lemma donor_some st id d :
  donor NCPU st id = Some d ->
  (d < NCPU)%nat /\ d <> id /\ 0 < freelen (kmem st d) /\
  (forall i, (i < NCPU)%nat -> i <> id -> freelen (kmem st i) <= freelen (kmem st d)).
Proof.
  unfold donor. intros H.
  destruct (best_spec (fun i => freelen (kmem st i)) id (seq 0 NCPU) None 0)
    as (H1 & H2 & H3 & H4).
  destruct (H3 d H) as [[C _]|(Hin & Hne & Hl & Hpos)]; [discriminate|].
  apply in_seq in Hin. repeat split; try lia.
  intros i Hi Hnei. rewrite Hl. apply H2; auto. apply in_seq. lia.
Qed.

Lemma donor_none st id :
  donor NCPU st id = None ->
  forall i, (i < NCPU)%nat -> i <> id -> freelen (kmem st i) <= 0.
Proof.
  unfold donor. intros H i Hi Hne.
  destruct (best_spec (fun i => freelen (kmem st i)) id (seq 0 NCPU) None 0)
    as (H1 & H2 & H3 & H4).
  destruct (H4 H) as [_ E]. rewrite <- E. apply H2; auto. apply in_seq. lia.
Qed.

(** No pool has a page to give: [reschedule] returns null and leaves the
    pools as they were. *)
Lemma reschedule_none fuel cpu id st :
  lock (kmem st id) = Some cpu ->
  freelist (kmem st id) = 0 ->
  (forall i, (i < NCPU)%nat -> i <> id -> lock (kmem st i) = None) ->
  donor NCPU st id = None ->
  exists st',
    reschedule NCPU fuel cpu id st = Ret 0 st' /\
    mem st' = mem st /\ (forall i, kmem st' i = kmem st i).
Proof.
  intros Hlk Hnull Hfree Hd.
  destruct (donor_scan cpu id st Hfree) as (st1 & H1 & H2 & H3 & H4 & H5).
  exists st1. split.
  - unfold reschedule. run. rewrite Hlk, holding_self. cbn [negb]. rewrite Hnull. cbn [negb Z.eqb].
    rewrite H1. unfold donor in Hd. rewrite Hd. reflexivity.
  - split; [exact H2|]. intros i. apply pool_eq; auto.
    rewrite H5, Hd. reflexivity.
Qed.

(** Pool [d] hands the front of its list to the empty pool [id], one page
    [r] of it leaves: the invariant carries over. *)
Lemma wf_transfer st st' ls d id r lr l2 :
  wf NCPU st ls ->
  (d < NCPU)%nat -> (id < NCPU)%nat -> d <> id ->
  ls d = r :: lr ++ l2 -> ls id = [] ->
  flist (mem st') (freelist (kmem st' id)) lr ->
  flist (mem st') (freelist (kmem st' d)) l2 ->
  freelen (kmem st' id) = Z.of_nat (length lr) ->
  freelen (kmem st' d) = Z.of_nat (length l2) ->
  (forall i, i <> d -> i <> id -> kmem st' i = kmem st i) ->
  (forall a, okaddr a -> ~ In a (ls d) -> load64 (mem st') a = load64 (mem st) a) ->
  wf NCPU st' (upd (upd ls d l2) id lr).
Proof.
  intros W Hd Hid Hne Hls Hemp Fid Fd Lid Ld Hoth Hframe.
  assert (Hndd : NoDup (r :: lr ++ l2)) by (rewrite <- Hls; apply (wf_nodup _ _ _ W); auto).
  inversion Hndd as [|? ? Hr Hnd']; subst.
  assert (Hsub : forall a, In a lr \/ In a l2 -> In a (ls d)).
  { intros a Ha. rewrite Hls. right. apply in_or_app. exact Ha. }
  pose proof (wf_range _ _ _ W d Hd) as Rd. rewrite Hls in Rd.
  cbn [length] in Rd. rewrite length_app in Rd.
  constructor.
  - intros i Hi. unfold upd.
    destruct (Nat.eqb_spec i id) as [->|Ni]; [exact Fid|].
    destruct (Nat.eqb_spec i d) as [->|Nd]; [exact Fd|].
    rewrite Hoth by auto. apply lseg_ext with (m := mem st); [|apply (wf_list _ _ _ W); auto].
    intros a Ha. apply Hframe.
    + eapply wf_addr; eauto.
    + intros C. eapply (wf_disj _ _ _ W i d); eauto.
  - intros i Hi. unfold upd.
    destruct (Nat.eqb_spec i id) as [->|Ni]; [exact Lid|].
    destruct (Nat.eqb_spec i d) as [->|Nd]; [exact Ld|].
    rewrite Hoth by auto. apply (wf_len _ _ _ W); auto.
  - intros i Hi. unfold upd.
    destruct (Nat.eqb_spec i id) as [->|Ni]; [lia|].
    destruct (Nat.eqb_spec i d) as [->|Nd]; [lia|].
    apply (wf_range _ _ _ W); auto.
  - intros i Hi. unfold upd.
    destruct (Nat.eqb_spec i id) as [->|Ni]; [eapply NoDup_app_remove_r; exact Hnd'|].
    destruct (Nat.eqb_spec i d) as [->|Nd]; [eapply NoDup_app_remove_l; exact Hnd'|].
    apply (wf_nodup _ _ _ W); auto.
  - intros i j a Hi Hj Hij. unfold upd.
    destruct (Nat.eqb_spec i id) as [->|Ni]; destruct (Nat.eqb_spec j id) as [->|Nj];
      try congruence.
    + destruct (Nat.eqb_spec j d) as [->|Njd].
      * intros Ha Ha'. eapply NoDup_app_disj; eauto.
      * intros Ha Ha'. eapply (wf_disj _ _ _ W d j); eauto.
    + destruct (Nat.eqb_spec i d) as [->|Nid].
      * intros Ha Ha'. eapply NoDup_app_disj; eauto.
      * intros Ha Ha'. eapply (wf_disj _ _ _ W d i); eauto.
    + destruct (Nat.eqb_spec i d) as [->|Nid]; destruct (Nat.eqb_spec j d) as [->|Njd];
        try congruence.
      * intros Ha Ha'. eapply (wf_disj _ _ _ W d j); eauto.
      * intros Ha Ha'. eapply (wf_disj _ _ _ W d i); eauto.
      * apply (wf_disj _ _ _ W); auto.
  - intros i a Hi. unfold upd.
    destruct (Nat.eqb_spec i id) as [->|Ni].
    { intros Ha. eapply (wf_addr _ _ _ W d); eauto. }
    destruct (Nat.eqb_spec i d) as [->|Nd].
    { intros Ha. eapply (wf_addr _ _ _ W d); eauto. }
    apply (wf_addr _ _ _ W); auto.
Qed.

(** The pool [d] with the largest count gives the front half of its list:
    [reschedule] returns the first page of it. *)
Lemma reschedule_spec fuel cpu id st ls d :
  wf NCPU st ls ->
  (id < NCPU)%nat ->
  lock (kmem st id) = Some cpu ->
  (forall i, (i < NCPU)%nat -> i <> id -> lock (kmem st i) = None) ->
  ls id = [] ->
  donor NCPU st id = Some d ->
  (length (ls d) / 2 <= fuel)%nat ->
  exists r lr l2 st',
    reschedule NCPU fuel cpu id st = Ret r st' /\
    ls d = r :: lr ++ l2 /\
    length lr = (length (ls d) / 2)%nat /\
    wf NCPU st' (upd (upd ls d l2) id lr) /\
    (forall i, lock (kmem st' i) = lock (kmem st i)) /\
    (forall i, i <> d -> i <> id -> kmem st' i = kmem st i).
Proof.
  intros W Hid Hlk Hfree Hemp Hd Hfuel.
  destruct (donor_some st id d Hd) as (Hdn & Hdi & Hpos & _).
  pose proof (wf_len _ _ _ W d Hdn) as Hlen.
  pose proof (wf_list _ _ _ W d Hdn) as Hfl.
  pose proof (wf_nodup _ _ _ W d Hdn) as Hnd.
  pose proof (wf_range _ _ _ W d Hdn) as Hrg.
  assert (Hnull : freelist (kmem st id) = 0).
  { pose proof (wf_list _ _ _ W id Hid) as F. rewrite Hemp in F. exact F. }
  assert (Hne : ls d <> []).
  { intros C. rewrite C in Hlen. simpl in Hlen. lia. }
  destruct (half_split (ls d) Hne) as (l1 & x & l2 & Hsplit & Hk).
  destruct (donor_scan cpu id st Hfree) as (st1 & H1 & H2 & H3 & H4 & H5).
  assert (Hlkd : lock (kmem st1 d) = Some cpu).
  { rewrite H5, Hd, Nat.eqb_refl. reflexivity. }
  assert (Hlk1 : forall i, i <> d -> lock (kmem st1 i) = lock (kmem st i)).
  { intros i Hi. rewrite H5, Hd. destruct (Nat.eqb_spec i d); [congruence|reflexivity]. }
  assert (Hwalk : walk fuel (mem st) (freelist (kmem st d)) (freelist (kmem st d)) = Some x).
  { rewrite (walk_spec (mem st) fuel (ls d) (ls d)); auto.
    rewrite <- Hk, Hsplit. now rewrite hd_skipn_app. }
  assert (Hr0 : freelist (kmem st d) = hd 0 (ls d)) by (now apply flist_hd in Hfl).
  destruct (half_arith (length (ls d))) as [Hq Hpar].
  assert (Edi : Nat.eqb d id = false) by (now apply Nat.eqb_neq).
  assert (Eid : Nat.eqb id d = false) by (apply Nat.eqb_neq; congruence).
  destruct l1 as [|r0 l1'].
  - (* a single page: it is the one returned *)
    assert (Hl2 : l2 = []).
    { destruct l2 as [|y l2]; [reflexivity|]. exfalso.
      apply (f_equal (@length Z)) in Hsplit. cbn [length app] in Hsplit, Hk.
      assert (2 <= length (ls d))%nat by lia.
      assert (1 <= length (ls d) / 2)%nat by (apply Nat.div_le_lower_bound; lia).
      lia. }
    subst l2. simpl in Hsplit.
    rewrite Hsplit in Hr0. simpl in Hr0.
    exists x, [], []. eexists. split; [|split; [|split; [|split; [|split]]]].
    + unfold reschedule. run. rewrite Hlk, holding_self. cbn [negb].
      rewrite Hnull. cbn [negb Z.eqb]. rewrite H1. fold (donor NCPU st id). rewrite Hd.
      cbn [fst]. rewrite Hlkd, holding_self. cbn [negb]. rewrite H3.
      assert (Hx0 : x <> 0) by (rewrite Hsplit in Hfl; now destruct Hfl as (_ & ? & _)).
      rewrite Hr0. destruct (Z.eqb_spec x 0); [congruence|]. cbn [negb].
      rewrite H2. rewrite <- Hr0, Hwalk, Hr0, Z.eqb_refl.
      unfold release. kst. rewrite Hlkd, holding_self. reflexivity.
    + exact Hsplit.
    + rewrite Hsplit. reflexivity.
    + eapply wf_transfer with (r := x); eauto.
      * kst. reflexivity.
      * kst. rewrite Edi. reflexivity.
      * kst. reflexivity.
      * kst. rewrite Edi. reflexivity.
      * intros i Nd Ni. apply pool_eq; kst;
          repeat match goal with
                 | |- context [Nat.eqb i ?j] => destruct (Nat.eqb_spec i j); [congruence|]
                 end; auto.
      * intros a _ _. kst. now rewrite H2.
    + intros i. kst. destruct (Nat.eqb_spec i d) as [->|Ni].
      * symmetry. apply Hfree; auto.
      * auto.
    + intros i Nd Ni. apply pool_eq; kst;
        repeat match goal with
               | |- context [Nat.eqb i ?j] => destruct (Nat.eqb_spec i j); [congruence|]
               end; auto.
  - (* two pages or more: split at the node the walk stopped on *)
    rewrite Hsplit in Hr0. simpl in Hr0.
    assert (Hls' : ls d = r0 :: (l1' ++ [x]) ++ l2).
    { rewrite Hsplit. simpl. now rewrite <- app_assoc. }
    assert (Hxr : x <> r0).
    { rewrite Hsplit in Hnd. simpl in Hnd. inversion Hnd as [|? ? Hni _]; subst.
      intros ->. apply Hni. apply in_or_app. right. now left. }
    assert (Hseg := Hfl). rewrite Hsplit in Hseg. apply lseg_app in Hseg.
    destruct Hseg as (q & (_ & Hr0n & Hseg1) & (-> & Hxn & Hseg2)).
    assert (Hok : forall a, In a (ls d) -> okaddr a) by (intros a; apply (wf_addr _ _ _ W); auto).
    assert (Hokx : okaddr x).
    { apply Hok. rewrite Hsplit. apply in_or_app. right. now left. }
    assert (Hfar : forall a, okaddr a -> a <> x -> a + 8 <= x \/ x + 8 <= a).
    { intros a Ha Hne'. destruct (okaddr_apart a x Ha Hokx Hne'); unfold PGSIZE in *; lia. }
    assert (Hlen1 : length (l1' ++ [x]) = (length (ls d) / 2)%nat).
    { rewrite length_app. simpl in *. lia. }
    assert (Hlen2 : (length (ls d) = S (length (ls d) / 2) + length l2)%nat).
    { rewrite Hls' at 1. cbn [length]. rewrite length_app. lia. }
    assert (Hnx : ~ In x ((r0 :: l1') ++ l2)).
    { apply NoDup_remove_2. rewrite <- Hsplit. exact Hnd. }
    assert (Hstore : forall a, In a (l1' ++ l2) ->
              load64 (store64 (mem st) x 0) a = load64 (mem st) a).
    { intros a Ha. apply load64_store64_other. apply Hfar.
      - apply Hok. rewrite Hsplit. simpl. right.
        apply in_app_or in Ha. apply in_or_app. destruct Ha; [left|right; right]; auto.
      - intros ->. apply Hnx. simpl. now right. }
    destruct (Z.rem (Z.of_nat (length (ls d))) 2 =? 0) eqn:Epar;
    (exists r0, (l1' ++ [x]), l2; eexists; split; [|split; [|split; [|split; [|split]]]];
     [ unfold reschedule; run; rewrite Hlk, holding_self; cbn [negb];
       rewrite Hnull; cbn [negb Z.eqb]; rewrite H1; fold (donor NCPU st id); rewrite Hd;
       cbn [fst]; rewrite Hlkd, holding_self; cbn [negb]; rewrite H3;
       rewrite Hr0; destruct (Z.eqb_spec r0 0); [congruence|]; cbn [negb];
       rewrite H2; rewrite <- Hr0, Hwalk, Hr0;
       destruct (Z.eqb_spec x r0); [congruence|];
       kst; rewrite ?Edi, ?Eid; rewrite H4, Hlen, Epar;
       unfold release; kst; rewrite ?Edi, ?Eid, Hlkd, holding_self;
       kst; rewrite ?Edi, ?Eid; reflexivity
     | exact Hls'
     | exact Hlen1
     | eapply wf_transfer with (r := r0); eauto
     | intros i; kst; rewrite ?Edi, ?Eid;
       destruct (Nat.eqb_spec i d) as [Ei|Ni]; destruct (Nat.eqb_spec i id) as [Ei'|Ni'];
         subst; try congruence; auto; symmetry; apply Hfree; auto
     | intros i Nd Ni; apply pool_eq; kst; rewrite ?Edi, ?Eid;
         repeat match goal with
                | |- context [Nat.eqb i ?j] => destruct (Nat.eqb_spec i j); [congruence|]
                end; auto ]).
    all: kst; rewrite ?Edi, ?Eid, ?H2, ?H3, ?H4, ?Hlen.
    all: try match goal with
      | |- flist _ (load64 (store64 _ _ _) _) _ =>
          rewrite load64_store64_other by (apply Hfar; [apply Hok; rewrite Hsplit; now left | congruence]);
          apply lseg_app; exists x; split;
          [ apply lseg_ext with (m := mem st); [|exact Hseg1];
            intros a Ha; apply Hstore; apply in_or_app; now left
          | simpl; repeat split; auto; apply load64_store64_same; lia ]
      | |- flist _ (load64 (mem _) _) _ =>
          apply lseg_ext with (m := mem st); [|exact Hseg2];
          intros a Ha; apply Hstore; apply in_or_app; now right
      | |- forall a : Z, okaddr a -> _ =>
          intros a Ha Hn; apply load64_store64_other; apply Hfar; auto;
          intros ->; apply Hn; rewrite Hsplit; apply in_or_app; right; now left
      | |- forall i : nat, _ =>
          intros i Nd Ni; apply pool_eq; kst; rewrite ?Edi, ?Eid;
          repeat match goal with
                 | |- context [Nat.eqb i ?j] => destruct (Nat.eqb_spec i j); [congruence|]
                 end; auto
      end.
    all: rewrite ?Hq, ?Hlen1.
    all: revert Hpar Hlen2 Hrg;
      generalize (length (ls d) / 2)%nat; generalize (length (ls d));
      generalize (length l2); intros n2 n k Hpar Hlen2 Hrg.
    all: repeat match goal with
      | |- context [int32 (Z.of_nat ?j - 1)] =>
          rewrite (int32_small (Z.of_nat j - 1)) by lia
      end.
    all: rewrite ?int32_small by lia; lia.
Qed.

(** One pool changes its list, the others keep theirs. *)
Lemma wf_update_one st st' ls i l' :
  wf NCPU st ls ->
  (i < NCPU)%nat ->
  flist (mem st') (freelist (kmem st' i)) l' ->
  freelen (kmem st' i) = Z.of_nat (length l') ->
  Z.of_nat (length l') < 2 ^ 31 ->
  NoDup l' ->
  (forall a, In a l' -> okaddr a) ->
  (forall a j, In a l' -> (j < NCPU)%nat -> j <> i -> ~ In a (ls j)) ->
  (forall j, j <> i -> freelist (kmem st' j) = freelist (kmem st j) /\
                       freelen (kmem st' j) = freelen (kmem st j)) ->
  (forall j a, (j < NCPU)%nat -> j <> i -> In a (ls j) ->
               load64 (mem st') a = load64 (mem st) a) ->
  wf NCPU st' (upd ls i l').
Proof.
  intros W Hi Fl Len Rg Nd Ok Disj Oth Frame.
  constructor; intros j; unfold upd.
  - intros Hj. destruct (Nat.eqb_spec j i) as [->|Nj]; [exact Fl|].
    destruct (Oth j Nj) as [-> _].
    apply lseg_ext with (m := mem st); [|apply (wf_list _ _ _ W); auto].
    intros a Ha. eapply Frame; eauto.
  - intros Hj. destruct (Nat.eqb_spec j i) as [->|Nj]; [exact Len|].
    destruct (Oth j Nj) as [_ ->]. apply (wf_len _ _ _ W); auto.
  - intros Hj. destruct (Nat.eqb_spec j i) as [->|Nj]; [exact Rg|].
    apply (wf_range _ _ _ W); auto.
  - intros Hj. destruct (Nat.eqb_spec j i) as [->|Nj]; [exact Nd|].
    apply (wf_nodup _ _ _ W); auto.
  - intros k a Hj Hk Hjk.
    destruct (Nat.eqb_spec j i) as [->|Nj]; destruct (Nat.eqb_spec k i) as [->|Nk];
      try congruence.
    + intros Ha. apply Disj; auto.
    + intros Ha Ha'. eapply (Disj a j); eauto.
    + apply (wf_disj _ _ _ W); auto.
  - intros a Hj. destruct (Nat.eqb_spec j i) as [->|Nj]; [apply Ok|].
    apply (wf_addr _ _ _ W); auto.
Qed.

Lemma upd_upd {A} (f : nat -> A) i v w j : upd (upd f i v) i w j = upd f i w j.
Proof. unfold upd. now destruct (Nat.eqb j i). Qed.

Lemma wf_ext_ls st ls ls' :
  (forall i, ls' i = ls i) -> wf NCPU st ls -> wf NCPU st ls'.
Proof.
  intros E W. constructor; intros i; rewrite ?E.
  - apply (wf_list _ _ _ W); auto.
  - apply (wf_len _ _ _ W); auto.
  - apply (wf_range _ _ _ W); auto.
  - apply (wf_nodup _ _ _ W); auto.
  - intros j a. rewrite !E. apply (wf_disj _ _ _ W).
  - intros a. rewrite ?E. apply (wf_addr _ _ _ W).
Qed.

(** The same lists, seen from a state that agrees on heads, counts and
    link words. *)
Lemma wf_frame st st' ls :
  wf NCPU st ls ->
  (forall j, freelist (kmem st' j) = freelist (kmem st j) /\
             freelen (kmem st' j) = freelen (kmem st j)) ->
  (forall j a, (j < NCPU)%nat -> In a (ls j) ->
               load64 (mem st') a = load64 (mem st) a) ->
  wf NCPU st' ls.
Proof.
  intros W Oth Frame. constructor; intros j.
  - intros Hj. destruct (Oth j) as [-> _].
    apply lseg_ext with (m := mem st); [|apply (wf_list _ _ _ W); auto].
    intros a Ha. eapply Frame; eauto.
  - intros Hj. destruct (Oth j) as [_ ->]. apply (wf_len _ _ _ W); auto.
  - apply (wf_range _ _ _ W).
  - apply (wf_nodup _ _ _ W).
  - apply (wf_disj _ _ _ W).
  - apply (wf_addr _ _ _ W).
Qed.

(** *** kfree *)


Lemma kfree_check pa :
  negb (pa mod PGSIZE =? 0) || (pa <? kend) || (PHYSTOP <=? pa) = true <->
  bad_address pa.
Proof.
  unfold bad_address.
  destruct (Z.eqb_spec (pa mod PGSIZE) 0), (Z.ltb_spec pa kend), (Z.leb_spec PHYSTOP pa);
    simpl; split; intros; auto; try lia; try discriminate.
Qed.

Lemma kfree_panics cpu pa st :
  bad_address pa -> kfree kend PHYSTOP cpu pa st = Panic "kfree".
Proof.
  intros H. apply kfree_check in H. unfold kfree. rewrite H. reflexivity.
Qed.


Lemma kfree_runs cpu pa st :
  ~ bad_address pa -> lock (kmem st cpu) = None ->
  exists st',
    kfree kend PHYSTOP cpu pa st = Ret tt st' /\
    mem st' = mem (freed cpu pa st) /\
    (forall i, kmem st' i = kmem (freed cpu pa st) i).
Proof.
  intros Hok Hlk.
  assert (C : negb (pa mod PGSIZE =? 0) || (pa <? kend) || (PHYSTOP <=? pa) = false).
  { destruct (negb (pa mod PGSIZE =? 0) || (pa <? kend) || (PHYSTOP <=? pa)) eqn:E; auto.
    apply kfree_check in E. contradiction. }
  eexists. split; [|split].
  - unfold kfree. rewrite C. run. unfold acquire. kst. rewrite Hlk.
    unfold release. kst. rewrite holding_self. reflexivity.
  - unfold freed. kst. reflexivity.
  - intros i. unfold freed. apply pool_eq; kst;
      destruct (Nat.eqb_spec i cpu); subst; auto.
Qed.

Lemma freed_head cpu pa st : freelist (kmem (freed cpu pa st) cpu) = pa.
Proof. unfold freed. kst. reflexivity. Qed.

Lemma freed_mem_page cpu pa st x :
  pa + 8 <= x < pa + PGSIZE -> mem (freed cpu pa st) x = 1.
Proof.
  intros H. unfold freed. kst. unfold store64.
  rewrite store_le_out by (simpl; lia). apply memset_bytes_in. lia.
Qed.

Lemma freed_mem_out cpu pa st x :
  x < pa \/ pa + PGSIZE <= x -> mem (freed cpu pa st) x = mem st x.
Proof.
  intros H. unfold freed. kst. unfold store64.
  rewrite store_le_out by (unfold PGSIZE in *; simpl; lia).
  apply memset_bytes_out. lia.
Qed.

Lemma freed_next cpu pa st :
  0 <= freelist (kmem st cpu) < 2 ^ 64 ->
  load64 (mem (freed cpu pa st)) pa = freelist (kmem st cpu).
Proof. intros H. unfold freed. kst. now apply load64_store64_same. Qed.

Lemma freed_load_other cpu pa st a :
  a + 8 <= pa \/ pa + PGSIZE <= a ->
  load64 (mem (freed cpu pa st)) a = load64 (mem st) a.
Proof.
  intros H. unfold freed. kst.
  rewrite load64_store64_other by (unfold PGSIZE in *; lia).
  apply load64_memset_other. lia.
Qed.

Lemma okaddr_range a : okaddr a -> 0 <= a < 2 ^ 64.
Proof. unfold okaddr. lia. Qed.

Lemma flist_head_range m p l :
  flist m p l -> (forall a, In a l -> okaddr a) -> 0 <= p < 2 ^ 64.
Proof.
  destruct l as [|a l]; simpl.
  - intros -> _. lia.
  - intros (-> & _) H. apply okaddr_range. apply H. now left.
Qed.

(** A page that is on no list goes onto the list of the calling core. *)
Lemma kfree_wf cpu pa st ls :
  wf NCPU st ls -> unlocked NCPU st -> (cpu < NCPU)%nat ->
  ~ bad_address pa -> okaddr pa ->
  (forall i, (i < NCPU)%nat -> ~ In pa (ls i)) ->
  Z.of_nat (length (ls cpu)) + 1 < 2 ^ 31 ->
  exists st',
    kfree kend PHYSTOP cpu pa st = Ret tt st' /\
    wf NCPU st' (upd ls cpu (pa :: ls cpu)) /\ unlocked NCPU st'.
Proof.
  intros W U Hc Hok Hpa Hfresh Hrg.
  destruct (kfree_runs cpu pa st Hok (U cpu Hc)) as (st' & Hrun & Hm & Hk).
  exists st'. split; [exact Hrun|].
  assert (Hfar : forall i a, (i < NCPU)%nat -> In a (ls i) ->
            a + 8 <= pa \/ pa + PGSIZE <= a).
  { intros i a Hi Ha.
    destruct (okaddr_apart a pa) as [H|H]; auto.
    - eapply wf_addr; eauto.
    - intros ->. eapply Hfresh; eauto.
    - unfold PGSIZE in *. lia. }
  pose proof (wf_len _ _ _ W cpu Hc) as Hlen.
  split.
  - apply wf_update_one with (st := st); auto.
    + rewrite Hm, Hk, freed_head. split; [reflexivity|]. split.
      * destruct Hpa. lia.
      * rewrite freed_next.
        2:{ eapply flist_head_range; [apply (wf_list _ _ _ W cpu Hc)|].
            intros a. apply (wf_addr _ _ _ W); auto. }
        apply lseg_ext with (m := mem st); [|apply (wf_list _ _ _ W cpu Hc)].
        intros a Ha. apply freed_load_other. eapply Hfar; eauto.
    + rewrite Hk. unfold freed. kst. rewrite Hlen, int32_small by lia.
      cbn [length]. lia.
    + cbn [length]. lia.
    + constructor; [apply Hfresh; auto | apply (wf_nodup _ _ _ W); auto].
    + intros a [<-|Ha]; [exact Hpa | eapply wf_addr; eauto].
    + intros a j [<-|Ha] Hj Hne; [apply Hfresh; auto|].
      eapply (wf_disj _ _ _ W cpu j); eauto.
    + intros j Hne. rewrite Hk. unfold freed. kst.
      destruct (Nat.eqb_spec j cpu); [congruence|]. auto.
    + intros j a Hj Hne Ha. rewrite Hm. apply freed_load_other. eapply Hfar; eauto.
  - intros i Hi. rewrite Hk. unfold freed. kst.
    destruct (Nat.eqb_spec i cpu); auto.
Qed.

(** *** kalloc *)

Lemma best_ext lens lens' id ids : forall maxid maxlen,
  (forall i, lens i = lens' i) ->
  best lens id ids maxid maxlen = best lens' id ids maxid maxlen.
Proof.
  induction ids as [|i rest IH]; intros maxid maxlen E; cbn [best]; [reflexivity|].
  rewrite E. destruct (Nat.eqb i id); [now apply IH|].
  destruct (lens' i >? maxlen); now apply IH.
Qed.

Lemma donor_ext st st' id :
  (forall i, freelen (kmem st' i) = freelen (kmem st i)) ->
  donor NCPU st' id = donor NCPU st id.
Proof. intros E. unfold donor. f_equal. now apply best_ext. Qed.

(** Writing junk over a page that is on no list leaves the lists alone. *)
Lemma wf_junk st ls r c :
  wf NCPU st ls -> okaddr r ->
  (forall i, (i < NCPU)%nat -> ~ In r (ls i)) ->
  wf NCPU (set_mem (memset_bytes (mem st) r c PGSIZE) st) ls.
Proof.
  intros W Hr Hfresh. apply wf_frame with (st := st); auto.
  intros j a Hj Ha. kst. apply load64_memset_other.
  destruct (okaddr_apart a r) as [H|H]; auto.
  - eapply wf_addr; eauto.
  - intros ->. eapply Hfresh; eauto.
  - unfold PGSIZE in *. lia.
Qed.

Lemma junk_page m r c x :
  r <= x < r + PGSIZE -> memset_bytes m r c PGSIZE x = c.
Proof. apply memset_bytes_in. Qed.

(** The local pool has a page: it is popped. *)
Lemma kalloc_local fuel cpu st ls a l :
  wf NCPU st ls -> unlocked NCPU st -> (cpu < NCPU)%nat ->
  ls cpu = a :: l ->
  exists st',
    kalloc NCPU fuel cpu st = Ret a st' /\
    wf NCPU st' (upd ls cpu l) /\ unlocked NCPU st'.
Proof.
  intros W U Hc Hls.
  pose proof (wf_list _ _ _ W cpu Hc) as Hfl. rewrite Hls in Hfl.
  destruct Hfl as (Hhd & Ha0 & Hfl).
  pose proof (wf_len _ _ _ W cpu Hc) as Hlen. rewrite Hls in Hlen. cbn [length] in Hlen.
  pose proof (wf_range _ _ _ W cpu Hc) as Hrg. rewrite Hls in Hrg. cbn [length] in Hrg.
  pose proof (wf_nodup _ _ _ W cpu Hc) as Hnd. rewrite Hls in Hnd.
  apply NoDup_cons_iff in Hnd. destruct Hnd as [Hni Hnd'].
  assert (Hoka : okaddr a) by (apply (wf_addr _ _ _ W cpu); auto; rewrite Hls; now left).
  eexists. split; [|split].
  - unfold kalloc. run. unfold acquire. rewrite (U cpu Hc). kst. rewrite Hhd.
    destruct (Z.eqb_spec a 0); [congruence|]. cbn [negb].
    unfold release. kst. rewrite holding_self.
    destruct (Z.eqb_spec a 0); [congruence|]. cbn [negb]. reflexivity.
  - apply wf_junk; auto.
    + apply wf_update_one with (st := st); auto.
      * kst. exact Hfl.
      * kst. rewrite Hlen, int32_small by lia. lia.
      * lia.
      * intros b Hb. apply (wf_addr _ _ _ W cpu); auto. rewrite Hls. now right.
      * intros b j Hb Hj Hne. apply (wf_disj _ _ _ W cpu j); auto. rewrite Hls. now right.
      * intros j Hne. kst. destruct (Nat.eqb_spec j cpu); [congruence|]. auto.
    + intros i Hi. unfold upd. destruct (Nat.eqb_spec i cpu) as [->|Ne]; [exact Hni|].
      apply (wf_disj _ _ _ W cpu i); auto. rewrite Hls. now left.
  - intros i Hi. kst. destruct (Nat.eqb_spec i cpu); auto.
Qed.

(** No page anywhere: the null pointer comes back, nothing changes. *)
Lemma kalloc_empty fuel cpu st ls :
  wf NCPU st ls -> unlocked NCPU st -> (cpu < NCPU)%nat ->
  ls cpu = [] -> donor NCPU st cpu = None ->
  exists st',
    kalloc NCPU fuel cpu st = Ret 0 st' /\
    mem st' = mem st /\ (forall i, kmem st' i = kmem st i).
Proof.
  intros W U Hc Hls Hd.
  pose proof (wf_list _ _ _ W cpu Hc) as Hfl. rewrite Hls in Hfl.
  destruct (reschedule_none fuel cpu cpu (set_lock cpu (Some cpu) st))
    as (st1 & Hrun & Hm & Hk).
  { kst. reflexivity. }
  { kst. exact Hfl. }
  { intros i Hi Hne. kst. destruct (Nat.eqb_spec i cpu); [congruence|]. auto. }
  { rewrite <- Hd. apply donor_ext. intros i. kst. reflexivity. }
  eexists. split; [|split].
  - unfold kalloc. run. unfold acquire. rewrite (U cpu Hc). kst. rewrite Hfl.
    cbn [negb Z.eqb]. rewrite Hrun. unfold release. rewrite Hk. kst.
    rewrite holding_self. cbn [negb Z.eqb]. reflexivity.
  - kst. exact Hm.
  - intros i. apply pool_eq; kst; rewrite ?Hk; kst;
      destruct (Nat.eqb_spec i cpu); subst; auto.
    symmetry. auto.
Qed.

(** The local pool is empty and pool [d] is the donor. *)
Lemma kalloc_steal fuel cpu st ls d :
  wf NCPU st ls -> unlocked NCPU st -> (cpu < NCPU)%nat ->
  ls cpu = [] -> donor NCPU st cpu = Some d ->
  (length (ls d) / 2 <= fuel)%nat ->
  exists r lr l2 st',
    kalloc NCPU fuel cpu st = Ret r st' /\
    ls d = r :: lr ++ l2 /\
    length lr = (length (ls d) / 2)%nat /\
    wf NCPU st' (upd (upd ls d l2) cpu lr) /\ unlocked NCPU st'.
Proof.
  intros W U Hc Hls Hd Hfuel.
  pose proof (wf_list _ _ _ W cpu Hc) as Hfl. rewrite Hls in Hfl.
  destruct (donor_some st cpu d Hd) as (Hdn & Hdc & _).
  destruct (reschedule_spec fuel cpu cpu (set_lock cpu (Some cpu) st) ls d)
    as (r & lr & l2 & st1 & Hrun & Hsplit & Hlr & W1 & Hlk & Hoth); auto.
  { apply wf_frame with (st := st); auto. intros j. kst. auto. }
  { kst. reflexivity. }
  { intros i Hi Hne. kst. destruct (Nat.eqb_spec i cpu); [congruence|]. auto. }
  { rewrite <- Hd. apply donor_ext. intros i. kst. reflexivity. }
  assert (Hokr : okaddr r).
  { apply (wf_addr _ _ _ W d); auto. rewrite Hsplit. now left. }
  assert (Hnd : NoDup (r :: lr ++ l2)).
  { rewrite <- Hsplit. apply (wf_nodup _ _ _ W); auto. }
  apply NoDup_cons_iff in Hnd. destruct Hnd as [Hni _].
  exists r, lr, l2. eexists. split; [|split; [|split; [|split]]]; auto.
  - unfold kalloc. run. unfold acquire. rewrite (U cpu Hc). kst. rewrite Hfl.
    cbn [negb Z.eqb]. rewrite Hrun. unfold release. rewrite Hlk. kst.
    rewrite holding_self. destruct Hokr as [Hr _].
    destruct (Z.eqb_spec r 0); [lia|]. cbn [negb]. reflexivity.
  - apply wf_junk; auto.
    + apply wf_frame with (st := st1); auto. intros j. kst. auto.
    + intros i Hi. unfold upd.
      destruct (Nat.eqb_spec i cpu) as [->|Ne].
      { intros C. apply Hni. apply in_or_app. now left. }
      destruct (Nat.eqb_spec i d) as [->|Ne'].
      { intros C. apply Hni. apply in_or_app. now right. }
      apply (wf_disj _ _ _ W d i); auto. rewrite Hsplit. now left.
  - intros i Hi. kst. destruct (Nat.eqb_spec i cpu); auto.
    rewrite Hlk. kst. destruct (Nat.eqb_spec i cpu); [congruence|]. auto.
Qed.

(** Whatever [kalloc] returns, a page that is returned is full of junk. *)
Lemma kalloc_junk fuel cpu st r st' :
  kalloc NCPU fuel cpu st = Ret r st' -> r <> 0 ->
  forall x, r <= x < r + PGSIZE -> mem st' x = 5.
Proof.
  unfold kalloc. run. intros H Hr x Hx.
  destruct (acquire cpu cpu st) as [[] s1| | | |]; try discriminate.
  destruct (negb (freelist (kmem s1 cpu) =? 0)) eqn:E.
  - destruct (release cpu cpu _) as [[] s2| | | |] eqn:R; try discriminate.
    rewrite E in H. inversion H; subst. kst. now apply junk_page.
  - destruct (reschedule NCPU fuel cpu cpu s1) as [r1 s2| | | |]; try discriminate.
    destruct (release cpu cpu s2) as [[] s3| | | |]; try discriminate.
    destruct (Z.eqb_spec r1 0); cbn [negb] in H.
    + inversion H; subst. congruence.
    + inversion H; subst. kst. now apply junk_page.
Qed.

(** *** Counting *)

Lemma sumf_ext f g n :
  (forall i, (i < n)%nat -> f i = g i) -> sumf f n = sumf g n.
Proof.
  induction n as [|n IH]; intros H; simpl; [reflexivity|].
  rewrite IH, H; auto.
Qed.

Lemma sumf_upd f n i v :
  (i < n)%nat -> sumf (upd f i v) n = sumf f n - f i + v.
Proof.
  induction n as [|n IH]; intros H; [lia|]. simpl.
  destruct (Nat.eq_dec i n) as [->|Ne].
  - rewrite upd_same. rewrite (sumf_ext (upd f n v) f).
    + lia.
    + intros j Hj. apply upd_other. lia.
  - rewrite IH by lia. rewrite upd_other by auto. lia.
Qed.

Lemma sumf_nonneg f n :
  (forall i, (i < n)%nat -> 0 <= f i) -> 0 <= sumf f n.
Proof.
  induction n as [|n IH]; intros H; simpl; [lia|].
  specialize (IH (fun i Hi => H i (Nat.lt_lt_succ_r _ _ Hi))).
  specialize (H n (Nat.lt_succ_diag_r n)). lia.
Qed.

Lemma sumf_bound f n i :
  (forall j, (j < n)%nat -> 0 <= f j) -> (i < n)%nat -> f i <= sumf f n.
Proof.
  induction n as [|n IH]; intros H Hi; [lia|]. simpl.
  destruct (Nat.eq_dec i n) as [->|Ne].
  - pose proof (sumf_nonneg f n (fun j Hj => H j (Nat.lt_lt_succ_r _ _ Hj))). lia.
  - specialize (IH (fun j Hj => H j (Nat.lt_lt_succ_r _ _ Hj))).
    specialize (H n (Nat.lt_succ_diag_r n)). lia.
Qed.


Lemma lens_upd ls i l n :
  (i < n)%nat ->
  sumf (lens (upd ls i l)) n = sumf (lens ls) n - lens ls i + Z.of_nat (length l).
Proof.
  intros H. rewrite <- sumf_upd by auto. apply sumf_ext.
  intros j _. unfold lens, upd. now destruct (Nat.eqb j i).
Qed.

Lemma wf_free_total st ls :
  wf NCPU st ls -> free_total NCPU st = sumf (lens ls) NCPU.
Proof.
  intros W. unfold free_total. apply sumf_ext. intros i Hi.
  apply (wf_len _ _ _ W); auto.
Qed.

(** *** Fuel

    A result obtained within some number of iterations is obtained within
    any larger number. *)

Lemma walk_mono m fuel : forall fuel' fp r x,
  walk fuel m fp r = Some x -> (fuel <= fuel')%nat -> walk fuel' m fp r = Some x.
Proof.
  induction fuel as [|f IH]; intros fuel' fp r x H Hle.
  - destruct fuel'; cbn [walk] in *;
      destruct (fp =? 0); auto; destruct (load64 m fp =? 0); auto; discriminate.
  - destruct fuel' as [|f']; [lia|]. cbn [walk] in *.
    destruct (fp =? 0); auto. destruct (load64 m fp =? 0); auto.
    apply IH; auto. lia.
Qed.

Lemma reschedule_mono fuel fuel' cpu id st r st' :
  reschedule NCPU fuel cpu id st = Ret r st' -> (fuel <= fuel')%nat ->
  reschedule NCPU fuel' cpu id st = Ret r st'.
Proof.
  unfold reschedule. run. intros H Hle.
  destruct (negb (holding cpu (lock (kmem st id)))); [exact H|].
  destruct (negb (freelist (kmem st id) =? 0)); [exact H|].
  destruct (scan cpu id (seq 0 NCPU) None 0 st) as [b s1| | | |]; try exact H.
  destruct (fst b) as [d|]; [|exact H].
  destruct (negb (holding cpu (lock (kmem s1 d)))); [exact H|].
  destruct (negb (freelist (kmem s1 d) =? 0)); [|exact H].
  destruct (walk fuel (mem s1) (freelist (kmem s1 d)) (freelist (kmem s1 d)))
    as [x|] eqn:Ew; [|discriminate].
  rewrite (walk_mono _ _ _ _ _ _ Ew Hle). exact H.
Qed.

Lemma kalloc_mono fuel fuel' cpu st r st' :
  kalloc NCPU fuel cpu st = Ret r st' -> (fuel <= fuel')%nat ->
  kalloc NCPU fuel' cpu st = Ret r st'.
Proof.
  unfold kalloc. run. intros H Hle.
  destruct (acquire cpu cpu st) as [[] s1| | | |]; try exact H.
  destruct (negb (freelist (kmem s1 cpu) =? 0)); [exact H|].
  destruct (reschedule NCPU fuel cpu cpu s1) as [r1 s2| | | |] eqn:E; try discriminate.
  rewrite (reschedule_mono _ _ _ _ _ _ _ E Hle). exact H.
Qed.

(** *** The invariant of the allocator *)

Lemma remove_length (a : Z) l :
  NoDup l -> In a l -> (length (remove Z.eq_dec a l) + 1 = length l)%nat.
Proof.
  induction l as [|b l IH]; intros Hnd Hin; [contradiction|].
  inversion Hnd as [|? ? Hb Hnd']; subst. cbn [remove].
  destruct (Z.eq_dec a b) as [->|Ne].
  - rewrite notin_remove by exact Hb. cbn [length]. lia.
  - destruct Hin as [->|Hin]; [congruence|]. cbn [length]. rewrite <- IH; auto.
Qed.

Lemma remove_NoDup (a : Z) l : NoDup l -> NoDup (remove Z.eq_dec a l).
Proof.
  induction l as [|b l IH]; intros Hnd; [constructor|].
  inversion Hnd as [|? ? Hb Hnd']; subst. cbn [remove].
  destruct (Z.eq_dec a b); auto.
  constructor; auto. intros C. apply in_remove in C. now destruct C.
Qed.

Hypothesis kend_pos : 0 < kend.
Hypothesis PHYSTOP_max : PHYSTOP <= 2 ^ 64.
Hypothesis npages_int : npages kend PHYSTOP < 2 ^ 31.

Lemma good_okaddr pa : ~ bad_address pa -> okaddr pa.
Proof.
  unfold bad_address, okaddr. intros H.
  destruct (Z.eq_dec (pa mod PGSIZE) 0); [|tauto].
  split; [lia|exact e].
Qed.


Lemma lens_nonneg ls i : 0 <= lens ls i.
Proof. unfold lens. lia. Qed.

Lemma kalloc_inv st out ls fuel cpu r st' :
  inv st out ls -> (cpu < NCPU)%nat ->
  kalloc NCPU fuel cpu st = Ret r st' ->
  exists ls', inv st' (if r =? 0 then out else r :: out) ls'.
Proof.
  intros [W U Hnd Hgood Hdisj Hfree Hcnt] Hc Hrun.
  destruct (ls cpu) as [|a l] eqn:Hls.
  - destruct (donor NCPU st cpu) as [d|] eqn:Hd.
    + destruct (donor_some st cpu d Hd) as (Hdn & Hdc & _).
      apply kalloc_mono with (fuel' := (fuel + length (ls d))%nat) in Hrun; [|lia].
      destruct (kalloc_steal (fuel + length (ls d)) cpu st ls d)
        as (r1 & lr & l2 & st1 & Hrun1 & Hsplit & Hlr & W1 & U1); auto.
      { apply Nat.Div0.div_le_upper_bound. lia. }
      rewrite Hrun1 in Hrun. inversion Hrun; subst r1 st1.
      assert (Hokr : okaddr r).
      { apply (wf_addr _ _ _ W d); auto. rewrite Hsplit. now left. }
      assert (Hnd' : NoDup (r :: lr ++ l2)).
      { rewrite <- Hsplit. apply (wf_nodup _ _ _ W); auto. }
      apply NoDup_cons_iff in Hnd'. destruct Hnd' as [Hni _].
      destruct (Z.eqb_spec r 0) as [E|E]; [destruct Hokr; lia|].
      exists (upd (upd ls d l2) cpu lr). constructor; auto.
      * constructor; auto. intros C. apply (Hdisj r d C Hdn). rewrite Hsplit. now left.
      * intros a [<-|Ha]; auto. apply (Hfree d); auto. rewrite Hsplit. now left.
      * intros a i Ha Hi. unfold upd.
        assert (Hsub : forall b, In b (lr ++ l2) -> ~ In a out \/ b <> a).
        { intros b Hb. destruct (Z.eq_dec b a) as [->|]; [left|right; auto].
          intros C. apply (Hdisj a d C Hdn). rewrite Hsplit. now right. }
        destruct Ha as [<-|Ha].
        -- destruct (Nat.eqb_spec i cpu).
           { intros C. apply Hni. apply in_or_app. now left. }
           destruct (Nat.eqb_spec i d).
           { intros C. apply Hni. apply in_or_app. now right. }
           apply (wf_disj _ _ _ W d i); auto. rewrite Hsplit. now left.
        -- destruct (Nat.eqb_spec i cpu).
           { intros C. destruct (Hsub a); auto. apply in_or_app. now left. }
           destruct (Nat.eqb_spec i d).
           { intros C. destruct (Hsub a); auto. apply in_or_app. now right. }
           apply Hdisj; auto.
      * intros i a Hi. unfold upd.
        destruct (Nat.eqb_spec i cpu).
        { intros Ha. apply (Hfree d); auto. rewrite Hsplit. right. apply in_or_app. now left. }
        destruct (Nat.eqb_spec i d).
        { intros Ha. apply (Hfree d); auto. rewrite Hsplit. right. apply in_or_app. now right. }
        apply Hfree; auto.
      * rewrite !lens_upd by auto. unfold lens at 2 3. unfold upd at 1.
        destruct (Nat.eqb_spec cpu d); [congruence|].
        rewrite Hls, Hsplit. cbn [length]. rewrite length_app. lia.
    + destruct (kalloc_empty fuel cpu st ls) as (st1 & Hrun1 & Hm & Hk); auto.
      rewrite Hrun1 in Hrun. inversion Hrun; subst r st1. cbn [Z.eqb].
      exists ls. constructor; auto.
      * apply wf_frame with (st := st); auto.
        -- intros j. now rewrite Hk.
        -- intros j a _ _. now rewrite Hm.
      * intros i Hi. rewrite Hk. auto.
  - destruct (kalloc_local fuel cpu st ls a l) as (st1 & Hrun1 & W1 & U1); auto.
    rewrite Hrun1 in Hrun. inversion Hrun; subst r st1.
    assert (Hoka : okaddr a).
    { apply (wf_addr _ _ _ W cpu); auto. rewrite Hls. now left. }
    pose proof (wf_nodup _ _ _ W cpu Hc) as Hnd'. rewrite Hls in Hnd'.
    apply NoDup_cons_iff in Hnd'. destruct Hnd' as [Hni _].
    destruct (Z.eqb_spec a 0) as [E|E]; [destruct Hoka; lia|].
    exists (upd ls cpu l). constructor; auto.
    + constructor; auto. intros C. apply (Hdisj a cpu C Hc). rewrite Hls. now left.
    + intros b [<-|Hb]; auto. apply (Hfree cpu); auto. rewrite Hls. now left.
    + intros b i Hb Hi. unfold upd. destruct Hb as [<-|Hb].
      * destruct (Nat.eqb_spec i cpu); [exact Hni|].
        apply (wf_disj _ _ _ W cpu i); auto. rewrite Hls. now left.
      * destruct (Nat.eqb_spec i cpu); [|apply Hdisj; auto].
        intros C. apply (Hdisj b cpu Hb Hc). rewrite Hls. now right.
    + intros i b Hi. unfold upd. destruct (Nat.eqb_spec i cpu); [|apply Hfree; auto].
      intros Hb. apply (Hfree cpu); auto. rewrite Hls. now right.
    + rewrite lens_upd by auto. unfold lens at 2. rewrite Hls. cbn [length]. lia.
Qed.

Lemma kfree_inv st out ls cpu pa st' :
  inv st out ls -> (cpu < NCPU)%nat -> In pa out ->
  kfree kend PHYSTOP cpu pa st = Ret tt st' ->
  inv st' (remove Z.eq_dec pa out) (upd ls cpu (pa :: ls cpu)).
Proof.
  intros [W U Hnd Hgood Hdisj Hfree Hcnt] Hc Hin Hrun.
  pose proof (remove_length pa out Hnd Hin) as Hrl.
  assert (Hb : lens ls cpu <= sumf (lens ls) NCPU).
  { apply sumf_bound; auto. intros; apply lens_nonneg. }
  assert (Hrg : Z.of_nat (length (ls cpu)) + 1 < 2 ^ 31) by (change (lens ls cpu) with (Z.of_nat (length (ls cpu))) in Hb; lia).
  destruct (kfree_wf cpu pa st ls W U Hc (Hgood pa Hin) (good_okaddr pa (Hgood pa Hin))
              (fun i Hi => Hdisj pa i Hin Hi) Hrg) as (st1 & Hrun1 & W1 & U1).
  rewrite Hrun1 in Hrun. inversion Hrun; subst st1.
  constructor; auto.
  - now apply remove_NoDup.
  - intros a Ha. apply in_remove in Ha. apply Hgood. tauto.
  - intros a i Ha Hi. apply in_remove in Ha. destruct Ha as [Ha Hne]. unfold upd.
    destruct (Nat.eqb_spec i cpu) as [->|]; [|apply Hdisj; auto].
    intros [C|C]; [congruence|]. eapply Hdisj; eauto.
  - intros i a Hi. unfold upd. destruct (Nat.eqb_spec i cpu); [|apply Hfree; auto].
    intros [<-|Ha]; [apply Hgood; auto | apply (Hfree cpu); auto].
  - rewrite lens_upd by auto. unfold lens at 2. cbn [length]. lia.
Qed.

(** *** kinit *)

Lemma uint64_small x : 0 <= x < 2 ^ 64 -> uint64 x = x.
Proof. intros H. unfold uint64. apply Z.mod_small. exact H. Qed.

Lemma uint64_range x : 0 <= uint64 x < 2 ^ 64.
Proof. unfold uint64. apply Z.mod_pos_bound. reflexivity. Qed.

Lemma uint64_le x : 0 <= x -> uint64 x <= x.
Proof. intros H. unfold uint64. apply Z.mod_le; [exact H | reflexivity]. Qed.

(** The mask [~(PGSIZE-1)] clears the 12 low bits. *)
Lemma page_mask x :
  0 <= x < 2 ^ 64 -> Z.land x (uint64 (Z.lnot (PGSIZE - 1))) = x / PGSIZE * PGSIZE.
Proof.
  intros H.
  change (uint64 (Z.lnot (PGSIZE - 1))) with (Z.ldiff (Z.ones 64) (Z.ones 12)).
  rewrite Z.ldiff_land, Z.land_assoc, Z.land_ones by lia.
  rewrite Z.mod_small by exact H.
  rewrite <- Z.ldiff_land, Z.ldiff_ones_r by lia.
  rewrite Z.shiftr_div_pow2, Z.shiftl_mul_pow2 by lia. reflexivity.
Qed.

Lemma PGROUNDUP_aligned a : PGROUNDUP a mod PGSIZE = 0.
Proof.
  unfold PGROUNDUP. rewrite page_mask by apply uint64_range.
  apply Z.mod_mul. unfold PGSIZE. lia.
Qed.

Lemma PGROUNDUP_range a : 0 <= PGROUNDUP a < 2 ^ 64.
Proof.
  unfold PGROUNDUP. rewrite page_mask by apply uint64_range.
  pose proof (uint64_range (a + PGSIZE - 1)) as R. unfold PGSIZE in *.
  pose proof (Z.div_mod (uint64 (a + 4096 - 1)) 4096).
  pose proof (Z.mod_pos_bound (uint64 (a + 4096 - 1)) 4096). lia.
Qed.

(** Away from the top of the address space nothing wraps. *)
Lemma PGROUNDUP_ge a :
  0 <= a -> a + PGSIZE <= 2 ^ 64 -> a <= PGROUNDUP a < a + PGSIZE.
Proof.
  intros H0 H1. unfold PGROUNDUP. rewrite page_mask by apply uint64_range.
  unfold PGSIZE in *. rewrite uint64_small by lia.
  pose proof (Z.div_mod (a + 4096 - 1) 4096).
  pose proof (Z.mod_pos_bound (a + 4096 - 1) 4096). lia.
Qed.

Lemma aligned_next p b :
  p mod PGSIZE = 0 -> b mod PGSIZE = 0 -> p < b -> p + PGSIZE <= b.
Proof.
  unfold PGSIZE. intros Hp Hb H.
  pose proof (Z.div_mod p 4096). pose proof (Z.div_mod b 4096). lia.
Qed.

Lemma aligned_step p : p mod PGSIZE = 0 -> (p + PGSIZE) mod PGSIZE = 0.
Proof.
  intros H. unfold PGSIZE in *. rewrite <- Zplus_mod_idemp_l, H. reflexivity.
Qed.

Lemma kinit_loop_boot ids : forall st,
  (forall i, kmem st i = mkpool None 0 0) ->
  exists st', kinit_loop ids st = Ret tt st' /\ mem st' = mem st /\
              (forall i, kmem st' i = mkpool None 0 0).
Proof.
  induction ids as [|i rest IH]; intros st H.
  - exists st. auto.
  - cbn [kinit_loop]. run.
    destruct (IH (set_freelen i 0 (set_lock i None st))) as (st' & H1 & H2 & H3).
    + intros j. apply pool_eq; kst; rewrite ?H; simpl;
        destruct (Nat.eqb j i); reflexivity.
    + exists st'. auto.
Qed.


Lemma remaining_step p :
  p + PGSIZE <= PHYSTOP -> remaining p = 1 + remaining (p + PGSIZE).
Proof.
  unfold remaining, PGSIZE. intros H.
  replace (PHYSTOP - p) with (1 * 4096 + (PHYSTOP - (p + 4096))) by lia.
  rewrite Z.div_add_l by lia.
  assert (0 <= (PHYSTOP - (p + 4096)) / 4096) by (apply Z.div_pos; lia).
  lia.
Qed.

Lemma remaining_done p : PHYSTOP < p + PGSIZE -> remaining p = 0.
Proof.
  unfold remaining, PGSIZE. intros H.
  destruct (Z.le_gt_cases p PHYSTOP).
  - rewrite Z.div_small by lia. reflexivity.
  - assert ((PHYSTOP - p) / 4096 < 0) by (apply Z.div_lt_upper_bound; lia). lia.
Qed.

(** Where the pointer of the loop of [freerange] wraps, or a page below
    [end] is in the range, the loop does not return: it goes on to a page
    [kfree] refuses. *)
Lemma freerange_loop_wraps cpu : forall fuel p st st',
  p mod PGSIZE = 0 -> 0 <= p < 2 ^ 64 ->
  uint64 (p + PGSIZE) <= PHYSTOP ->
  2 ^ 64 <= p + PGSIZE \/ 2 ^ 64 <= PHYSTOP + PGSIZE \/ p < kend ->
  freerange_loop kend PHYSTOP fuel cpu p PHYSTOP st <> Ret tt st'.
Proof.
  induction fuel as [|f IH]; intros p st st' Hal Hp Ht Hw; cbn [freerange_loop];
    (destruct (Z.leb_spec (uint64 (p + PGSIZE)) PHYSTOP) as [_|C]; [|lia]).
  - discriminate.
  - unfold bind.
    destruct (kfree kend PHYSTOP cpu p st) as [[] s1| | | |] eqn:E; try discriminate.
    assert (Hgood : ~ bad_address p).
    { intros B. rewrite (kfree_panics cpu p st B) in E. discriminate E. }
    unfold Kalloc.bad_address in Hgood.
    pose proof (aligned_next p (2 ^ 64) Hal eq_refl (proj2 Hp)) as Htop.
    destruct (Z_lt_le_dec (p + PGSIZE) (2 ^ 64)) as [L|L].
    + rewrite uint64_small by lia.
      pose proof (aligned_next (p + PGSIZE) (2 ^ 64) (aligned_step p Hal) eq_refl L)
        as Htop'.
      apply IH; [apply aligned_step; exact Hal | lia | | lia].
      destruct (Z_lt_le_dec (p + PGSIZE + PGSIZE) (2 ^ 64)) as [L'|L'].
      * rewrite uint64_small by lia.
        pose proof (aligned_next (p + PGSIZE + PGSIZE) (2 ^ 64)
                      (aligned_step _ (aligned_step p Hal)) eq_refl L').
        lia.
      * replace (p + PGSIZE + PGSIZE) with (2 ^ 64) by lia.
        change (uint64 (2 ^ 64)) with 0. unfold PGSIZE in *. lia.
    + replace (p + PGSIZE) with (2 ^ 64) by lia. change (uint64 (2 ^ 64)) with 0.
      apply IH; [reflexivity | lia | | lia].
      change (uint64 (0 + PGSIZE)) with 4096. unfold PGSIZE in *. lia.
Qed.

(** So a loop of [freerange] that returns has met no wrap. *)
Lemma freerange_loop_no_wrap cpu fuel p st st' :
  p mod PGSIZE = 0 -> 0 <= p < 2 ^ 64 ->
  freerange_loop kend PHYSTOP fuel cpu p PHYSTOP st = Ret tt st' ->
  uint64 (p + PGSIZE) <= PHYSTOP ->
  kend <= p /\ p + PGSIZE < 2 ^ 64 /\ PHYSTOP + PGSIZE < 2 ^ 64.
Proof.
  intros Hal Hp Hrun Ht.
  destruct (Z_lt_le_dec (p + PGSIZE) (2 ^ 64)) as [A|A];
    [destruct (Z_lt_le_dec (PHYSTOP + PGSIZE) (2 ^ 64)) as [B|B];
       [destruct (Z_lt_le_dec p kend) as [C|C]; [|lia]|]|];
    exfalso; apply (freerange_loop_wraps cpu fuel p st st' Hal Hp Ht); auto.
Qed.

Lemma freerange_loop_spec cpu : forall fuel p st ls,
  wf NCPU st ls -> unlocked NCPU st -> (cpu < NCPU)%nat ->
  p mod PGSIZE = 0 -> 0 <= p ->
  (uint64 (p + PGSIZE) <= PHYSTOP ->
   kend <= p /\ p + PGSIZE < 2 ^ 64 /\ PHYSTOP + PGSIZE < 2 ^ 64) ->
  (forall i a, (i < NCPU)%nat -> In a (ls i) -> a < p /\ ~ bad_address a) ->
  sumf (lens ls) NCPU + remaining p < 2 ^ 31 ->
  (Z.to_nat (remaining p) <= fuel)%nat ->
  exists st' ls',
    freerange_loop kend PHYSTOP fuel cpu p PHYSTOP st = Ret tt st' /\
    wf NCPU st' ls' /\ unlocked NCPU st' /\
    (forall i a, (i < NCPU)%nat -> In a (ls' i) -> ~ bad_address a) /\
    sumf (lens ls') NCPU = sumf (lens ls) NCPU + remaining p.
Proof.
  induction fuel as [|f IH]; intros p st ls W U Hc Hal Hp0 Hnw Hlow Hcnt Hfuel;
    cbn [freerange_loop];
    (destruct (Z.leb_spec (uint64 (p + PGSIZE)) PHYSTOP) as [Hle|Hgt];
     [destruct (Hnw Hle) as (Hge & Hp & He);
      rewrite (uint64_small (p + PGSIZE)) in Hle by (unfold PGSIZE in *; lia);
      rewrite ?(uint64_small (p + PGSIZE)) by (unfold PGSIZE in *; lia)
     |assert (Hgt' : PHYSTOP < p + PGSIZE)
        by (pose proof (uint64_le (p + PGSIZE)); unfold PGSIZE in *; lia)]).
  - rewrite remaining_step in Hfuel by auto.
    unfold remaining in Hfuel. lia.
  - exists st, ls. rewrite remaining_done by auto.
    split; [reflexivity|]. split; [exact W|]. split; [exact U|]. split; [|lia].
    intros i a Hi Ha. apply (Hlow i a Hi Ha).
  - rewrite remaining_step in Hcnt, Hfuel |- * by auto.
    assert (R0 : 0 <= remaining (p + PGSIZE)) by (unfold remaining; lia).
    assert (Hgood : ~ bad_address p).
    { unfold bad_address, PGSIZE in *. lia. }
    assert (Hb : lens ls cpu <= sumf (lens ls) NCPU).
    { apply sumf_bound; auto. intros; apply lens_nonneg. }
    assert (Hrg : Z.of_nat (length (ls cpu)) + 1 < 2 ^ 31).
    { change (lens ls cpu) with (Z.of_nat (length (ls cpu))) in Hb. lia. }
    assert (Hfresh : forall i, (i < NCPU)%nat -> ~ In p (ls i)).
    { intros i Hi C. destruct (Hlow i p Hi C). lia. }
    destruct (kfree_wf cpu p st ls W U Hc Hgood (good_okaddr p Hgood) Hfresh Hrg)
      as (st1 & Hrun1 & W1 & U1).
    assert (Hnw' : uint64 (p + PGSIZE + PGSIZE) <= PHYSTOP ->
                   kend <= p + PGSIZE /\ p + PGSIZE + PGSIZE < 2 ^ 64 /\
                   PHYSTOP + PGSIZE < 2 ^ 64)
      by (intros _; unfold PGSIZE in *; lia).
    assert (Hp1 : 0 <= p + PGSIZE) by (unfold PGSIZE; lia).
    assert (Hlow' : forall i a, (i < NCPU)%nat -> In a (upd ls cpu (p :: ls cpu) i) ->
                                a < p + PGSIZE /\ ~ bad_address a).
    { intros i a Hi. unfold upd. destruct (Nat.eqb_spec i cpu) as [->|].
      - intros [<-|Ha]; [split; [unfold PGSIZE; lia|auto]|].
        destruct (Hlow cpu a Hc Ha). split; [unfold PGSIZE; lia|auto].
      - intros Ha. destruct (Hlow i a Hi Ha). split; [unfold PGSIZE; lia|auto]. }
    assert (Hcnt' : sumf (lens (upd ls cpu (p :: ls cpu))) NCPU +
                    remaining (p + PGSIZE) < 2 ^ 31).
    { rewrite lens_upd by auto. unfold lens at 2. cbn [length]. lia. }
    assert (Hfuel' : (Z.to_nat (remaining (p + PGSIZE)) <= f)%nat) by lia.
    destruct (IH (p + PGSIZE) st1 (upd ls cpu (p :: ls cpu)) W1 U1 Hc
                 (aligned_step p Hal) Hp1 Hnw' Hlow' Hcnt' Hfuel')
      as (st' & ls' & H1 & H2 & H3 & H4 & H5).
    exists st', ls'. run. rewrite Hrun1.
    split; [exact H1|]. split; [exact H2|]. split; [exact H3|]. split; [exact H4|].
    rewrite H5, lens_upd by auto. unfold lens at 2. cbn [length]. lia.
  - exists st, ls. rewrite remaining_done by auto.
    split; [reflexivity|]. split; [exact W|]. split; [exact U|]. split; [|lia].
    intros i a Hi Ha. apply (Hlow i a Hi Ha).
Qed.

Lemma freerange_loop_mono cpu p_end : forall fuel fuel' p st st',
  freerange_loop kend PHYSTOP fuel cpu p p_end st = Ret tt st' ->
  (fuel <= fuel')%nat ->
  freerange_loop kend PHYSTOP fuel' cpu p p_end st = Ret tt st'.
Proof.
  induction fuel as [|f IH]; intros fuel' p st st' H Hle.
  - destruct fuel'; cbn [freerange_loop] in *;
      destruct (uint64 (p + PGSIZE) <=? p_end); auto; discriminate.
  - destruct fuel' as [|f']; [lia|]. cbn [freerange_loop] in *.
    destruct (uint64 (p + PGSIZE) <=? p_end); auto.
    revert H. run. destruct (kfree kend PHYSTOP cpu p st) as [[] s1| | | |]; auto.
    intros H. apply IH; auto. lia.
Qed.

Lemma sumf_zero n : sumf (lens (fun _ => [])) n = 0.
Proof. induction n; simpl; auto. rewrite IHn. reflexivity. Qed.

Lemma boot_wf st :
  (forall i, kmem st i = mkpool None 0 0) -> wf NCPU st (fun _ => []).
Proof.
  intros H. constructor; intros i; rewrite ?H; simpl; auto; try lia.
  - intros; reflexivity.
  - intros; constructor.
Qed.

Lemma kinit_inv m fuel cpu st :
  (cpu < NCPU)%nat ->
  kinit NCPU kend PHYSTOP fuel cpu (boot m) = Ret tt st ->
  exists ls, inv st [] ls.
Proof.
  intros Hc Hrun. unfold kinit, freerange in Hrun. revert Hrun. run.
  destruct (kinit_loop_boot (seq 0 NCPU) (boot m)) as (st0 & H0 & Hm0 & Hk0);
    [reflexivity|].
  rewrite H0. intros Hrun.
  assert (Hrem : remaining (PGROUNDUP kend) = npages kend PHYSTOP) by reflexivity.
  pose proof (PGROUNDUP_range kend) as Hrg.
  pose proof (freerange_loop_no_wrap cpu fuel (PGROUNDUP kend) st0 st
                (PGROUNDUP_aligned kend) Hrg Hrun) as Hnw.
  apply freerange_loop_mono
    with (fuel' := (fuel + Z.to_nat (remaining (PGROUNDUP kend)))%nat) in Hrun; [|lia].
  assert (U0 : unlocked NCPU st0) by (intros i _; now rewrite Hk0).
  assert (L0 : forall i a, (i < NCPU)%nat -> In a ((fun _ : nat => @nil Z) i) ->
                 a < PGROUNDUP kend /\ ~ bad_address a) by (intros i a _ []).
  assert (C0 : sumf (lens (fun _ => [])) NCPU + remaining (PGROUNDUP kend) < 2 ^ 31)
    by (rewrite sumf_zero, Hrem; lia).
  assert (F0 : (Z.to_nat (remaining (PGROUNDUP kend)) <=
                fuel + Z.to_nat (remaining (PGROUNDUP kend)))%nat) by lia.
  destruct (freerange_loop_spec cpu (fuel + Z.to_nat (remaining (PGROUNDUP kend)))
              (PGROUNDUP kend) st0 (fun _ => []) (boot_wf st0 Hk0) U0 Hc
              (PGROUNDUP_aligned kend) (proj1 Hrg) Hnw L0 C0 F0)
    as (st' & ls' & H1 & H2 & H3 & H4 & H5).
  rewrite H1 in Hrun. inversion Hrun; subst st'.
  exists ls'. constructor; auto.
  - constructor.
  - rewrite H5, sumf_zero, Hrem. cbn [length]. lia.
Qed.

(** Every state the allocator reaches satisfies the invariant. *)
Lemma reach_inv st out :
  reach NCPU kend PHYSTOP st out -> exists ls, inv st out ls.
Proof.
  induction 1 as [m fuel cpu st Hc Hrun
                 | st out fuel cpu r st' _ [ls IH] Hc Hrun
                 | st out cpu pa st' _ [ls IH] Hc Hin Hrun].
  - eapply kinit_inv; eauto.
  - eapply kalloc_inv; eauto.
  - eexists. eapply kfree_inv; eauto.
Qed.

(** *** checklen *)

Lemma list_len_spec m : forall fuel l r len,
  flist m r l -> (length l <= fuel)%nat ->
  0 <= len -> len + Z.of_nat (length l) < 2 ^ 31 ->
  list_len fuel m r len = Some (len + Z.of_nat (length l)).
Proof.
  induction fuel as [|f IH]; intros l r len Hl Hf H0 Hrg.
  - destruct l as [|a l]; [|simpl in Hf; lia].
    cbn in Hl. subst r. cbn. f_equal. lia.
  - destruct l as [|a l].
    + cbn in Hl. subst r. cbn. f_equal. lia.
    + destruct Hl as (-> & Ha & Hl). cbn [list_len length] in *.
      destruct (Z.eqb_spec a 0); [congruence|].
      rewrite int32_small by lia.
      rewrite (IH l) by (auto; lia). f_equal. lia.
Qed.

(** On well-formed pools the diagnostic finds nothing: it returns, and
    leaves the pools as they were. *)
Lemma checklen_passes fuel cpu id st ls :
  wf NCPU st ls ->
  (forall i, (i < NCPU)%nat -> i <> id -> lock (kmem st i) = None) ->
  (forall i, (i < NCPU)%nat -> (length (ls i) <= fuel)%nat) ->
  exists st',
    checklen NCPU fuel cpu id st = Ret tt st' /\
    mem st' = mem st /\ (forall i, kmem st' i = kmem st i).
Proof.
  intros W Hfree Hfuel. unfold checklen.
  assert (G : forall ids st1,
            (forall i, In i ids -> (i < NCPU)%nat) ->
            mem st1 = mem st -> (forall i, kmem st1 i = kmem st i) ->
            exists st',
              checklen_loop fuel cpu id ids st1 = Ret tt st' /\
              mem st' = mem st /\ (forall i, kmem st' i = kmem st i)).
  { induction ids as [|i rest IH]; intros st1 Hin Hm Hk.
    - exists st1. auto.
    - assert (Hi : (i < NCPU)%nat) by (apply Hin; now left).
      pose proof (wf_list _ _ _ W i Hi) as Fl.
      pose proof (wf_len _ _ _ W i Hi) as Ln.
      pose proof (wf_range _ _ _ W i Hi) as Rg.
      pose proof (list_len_spec (mem st) fuel (ls i) (freelist (kmem st i)) 0 Fl
                    (Hfuel i Hi) (Z.le_refl 0) Rg) as LL.
      cbn [checklen_loop]. run.
      destruct (Nat.eqb_spec i id) as [E|E]; cbn [negb].
      + rewrite Hm, Hk, LL. rewrite Hk, Ln, Z.add_0_l, Z.eqb_refl. cbn [negb].
        apply IH; auto. intros j Hj. apply Hin. now right.
      + unfold acquire. rewrite Hk, (Hfree i Hi E). kst. rewrite Hk, Hm, LL.
        kst. rewrite Hk, Ln, Z.add_0_l, Z.eqb_refl. cbn [negb].
        unfold release. kst. rewrite holding_self.
        apply IH.
        * intros j Hj. apply Hin. now right.
        * kst. exact Hm.
        * intros j. apply pool_eq; kst; rewrite ?Hk;
            destruct (Nat.eqb_spec j i); subst; auto.
          symmetry. auto. }
  apply G; auto. intros i Hi. apply in_seq in Hi. lia.
Qed.

(** *** The claims about the allocator *)

Lemma donor_largest st ls X Y :
  wf NCPU st ls -> (X < NCPU)%nat -> X <> Y ->
  ls X <> [] ->
  (forall i, (i < NCPU)%nat -> i <> X -> i <> Y ->
             (length (ls i) < length (ls X))%nat) ->
  donor NCPU st Y = Some X.
Proof.
  intros W HX HXY Hne Hlt.
  pose proof (wf_len _ _ _ W X HX) as LX.
  assert (0 < freelen (kmem st X)).
  { rewrite LX. destruct (ls X); [congruence | cbn [length]; lia]. }
  destruct (donor NCPU st Y) as [d|] eqn:Hd.
  - destruct (donor_some st Y d Hd) as (Hdn & HdY & Hpos & Hmax).
    destruct (Nat.eq_dec d X) as [->|Ne]; [reflexivity|].
    specialize (Hmax X HX HXY). specialize (Hlt d Hdn Ne HdY).
    rewrite LX, (wf_len _ _ _ W d Hdn) in Hmax. lia.
  - pose proof (donor_none st Y Hd X HX HXY). lia.
Qed.

(** C1, as the code has it.  Pool [X] holds 10 free pages, pool [Y] none
    and every other pool fewer than 10; core [Y] calls [kalloc].  The
    front of the list of [X] up to and including its sixth page moves to
    [Y], the first page of it is returned: [X] is left with a count of 4
    and [Y] with a count of 5, each count being the length of the list. *)
Theorem scenario_A_counts fuel X Y st ls :
  wf NCPU st ls -> unlocked NCPU st ->
  (X < NCPU)%nat -> (Y < NCPU)%nat -> X <> Y ->
  length (ls X) = 10%nat -> ls Y = [] ->
  (forall i, (i < NCPU)%nat -> i <> X -> i <> Y -> (length (ls i) < 10)%nat) ->
  (5 <= fuel)%nat ->
  exists r st' lr l2,
    kalloc NCPU fuel Y st = Ret r st' /\
    freelen (kmem st' X) = 4 /\ freelen (kmem st' Y) = 5 /\
    ls X = r :: lr ++ l2 /\
    length lr = 5%nat /\ length l2 = 4%nat /\
    flist (mem st') (freelist (kmem st' Y)) lr /\
    flist (mem st') (freelist (kmem st' X)) l2.
Proof.
  intros W U HX HY HXY Hlen Hemp Hoth Hfuel.
  assert (Hd : donor NCPU st Y = Some X).
  { apply (donor_largest st ls); auto.
    - intros C. rewrite C in Hlen. discriminate.
    - rewrite Hlen. exact Hoth. }
  destruct (kalloc_steal fuel Y st ls X W U HY Hemp Hd)
    as (r & lr & l2 & st' & Hrun & Hsplit & Hlr & W' & U').
  { rewrite Hlen. exact Hfuel. }
  rewrite Hlen in Hlr. change (10 / 2)%nat with 5%nat in Hlr.
  assert (Hl2 : length l2 = 4%nat).
  { apply (f_equal (@length Z)) in Hsplit. cbn [length] in Hsplit.
    rewrite length_app in Hsplit. lia. }
  exists r, st', lr, l2.
  pose proof (wf_len _ _ _ W' X HX) as LX.
  pose proof (wf_len _ _ _ W' Y HY) as LY.
  pose proof (wf_list _ _ _ W' X HX) as FX.
  pose proof (wf_list _ _ _ W' Y HY) as FY.
  unfold upd in LX, LY, FX, FY. rewrite Nat.eqb_refl in LY, FY.
  destruct (Nat.eqb_spec X Y); [congruence|]. rewrite Nat.eqb_refl in LX, FX.
  rewrite Hl2 in LX. rewrite Hlr in LY.
  repeat split; auto.
Qed.

(** C5.  A call of [reschedule] that finds a donor [d] with [n >= 1] free
    pages leaves the donor and the requester with counts that are the
    lengths of their lists and that add up to [n - 1], the pages of the
    two lists and the returned page being exactly the pages the donor
    had; and in every state the allocator reaches, the counts of all pools
    and the number of pages that are out add up to the number of managed
    pages. *)
Theorem rebalance_conservation :
  (forall fuel cpu id st ls d,
     wf NCPU st ls -> (id < NCPU)%nat ->
     lock (kmem st id) = Some cpu ->
     (forall i, (i < NCPU)%nat -> i <> id -> lock (kmem st i) = None) ->
     ls id = [] -> donor NCPU st id = Some d ->
     (length (ls d) / 2 <= fuel)%nat ->
     exists r st' lid ld,
       reschedule NCPU fuel cpu id st = Ret r st' /\
       (1 <= length (ls d))%nat /\
       ls d = r :: lid ++ ld /\
       flist (mem st') (freelist (kmem st' d)) ld /\
       freelen (kmem st' d) = Z.of_nat (length ld) /\
       flist (mem st') (freelist (kmem st' id)) lid /\
       freelen (kmem st' id) = Z.of_nat (length lid) /\
       freelen (kmem st' d) + freelen (kmem st' id) = Z.of_nat (length (ls d)) - 1 /\
       wf NCPU st' (upd (upd ls d ld) id lid)) /\
  (forall st out,
     reach NCPU kend PHYSTOP st out ->
     free_total NCPU st + Z.of_nat (length out) = npages kend PHYSTOP).
Proof.
  split.
  - intros fuel cpu id st ls d W Hid Hlk Hfree Hemp Hd Hfuel.
    destruct (donor_some st id d Hd) as (Hdn & Hdi & _).
    destruct (reschedule_spec fuel cpu id st ls d W Hid Hlk Hfree Hemp Hd Hfuel)
      as (r & lr & l2 & st' & Hrun & Hsplit & Hlr & W' & _).
    exists r, st', lr, l2.
    pose proof (wf_len _ _ _ W' d Hdn) as LX.
    pose proof (wf_len _ _ _ W' id Hid) as LY.
    pose proof (wf_list _ _ _ W' d Hdn) as FX.
    pose proof (wf_list _ _ _ W' id Hid) as FY.
    unfold upd in LX, LY, FX, FY. rewrite Nat.eqb_refl in LY, FY.
    destruct (Nat.eqb_spec d id); [congruence|]. rewrite Nat.eqb_refl in LX, FX.
    assert (Hn : length (ls d) = S (length lr + length l2)).
    { rewrite Hsplit at 1. cbn [length]. now rewrite length_app. }
    split; [exact Hrun|]. split; [lia|]. split; [exact Hsplit|].
    split; [exact FX|]. split; [exact LX|]. split; [exact FY|]. split; [exact LY|].
    split; [lia|exact W'].
  - intros st out R. destruct (reach_inv st out R) as [ls I].
    rewrite (wf_free_total st ls (inv_wf _ _ _ _ _ _ I)). apply (inv_count _ _ _ _ _ _ I).
Qed.

(** C8.  [kfree] panics exactly when the address is misaligned or outside
    [end, PHYSTOP).  On any other address, with the pool lock free, it
    returns; the page then holds the filler byte 1 everywhere but in its
    first word, which holds the old head of the list; the page is the new
    head of the list of the calling core, that is, pushed onto it; the count
    of that pool has grown by one; other pools and other memory are as
    before. *)
Theorem kfree_contract cpu pa st :
  lock (kmem st cpu) = None ->
  0 <= freelist (kmem st cpu) < 2 ^ 64 ->
  - 2 ^ 31 <= freelen (kmem st cpu) < 2 ^ 31 - 1 ->
  ((exists msg, kfree kend PHYSTOP cpu pa st = Panic msg) <-> bad_address pa) /\
  (~ bad_address pa ->
   exists st',
     kfree kend PHYSTOP cpu pa st = Ret tt st' /\
     (forall x, pa + 8 <= x < pa + PGSIZE -> mem st' x = 1) /\
     (forall x, pa <= x < pa + PGSIZE ->
        mem st' x = store64 (memset_bytes (mem st) pa 1 PGSIZE) pa
                            (freelist (kmem st cpu)) x) /\
     load64 (mem st') pa = freelist (kmem st cpu) /\
     freelist (kmem st' cpu) = pa /\
     (forall l, flist (mem st) (freelist (kmem st cpu)) l ->
                (forall a, In a l -> a + 8 <= pa \/ pa + PGSIZE <= a) ->
                flist (mem st') (freelist (kmem st' cpu)) (pa :: l)) /\
     freelen (kmem st' cpu) = freelen (kmem st cpu) + 1 /\
     lock (kmem st' cpu) = None /\
     (forall i, i <> cpu -> kmem st' i = kmem st i) /\
     (forall x, x < pa \/ pa + PGSIZE <= x -> mem st' x = mem st x)).
Proof.
  intros Hlk Hhead Hlen. split.
  - split.
    + intros [msg H]. destruct (Z.eq_dec (pa mod PGSIZE) 0) as [E|E].
      * destruct (Z_lt_dec pa kend); [unfold bad_address; tauto|].
        destruct (Z_le_dec PHYSTOP pa); [unfold bad_address; tauto|].
        exfalso. destruct (kfree_runs cpu pa st) as (st' & Hrun & _); auto.
        { unfold bad_address. lia. }
        congruence.
      * left. exact E.
    + intros H. exists "kfree"%string. now apply kfree_panics.
  - intros Hok. destruct (kfree_runs cpu pa st Hok Hlk) as (st' & Hrun & Hm & Hk).
    assert (Hpa0 : pa <> 0).
    { pose proof kend_pos. unfold bad_address in Hok. lia. }
    exists st'. split; [exact Hrun|].
    split; [intros x Hx; rewrite Hm; now apply freed_mem_page|].
    split; [intros x Hx; rewrite Hm; unfold freed; kst; reflexivity|].
    split; [rewrite Hm; now apply freed_next|].
    split; [rewrite Hk; apply freed_head|].
    split.
    { intros l Hl Hfar. rewrite Hm, Hk, freed_head.
      split; [reflexivity|]. split; [exact Hpa0|].
      rewrite freed_next by exact Hhead.
      apply lseg_ext with (m := mem st); [|exact Hl].
      intros a Ha. apply freed_load_other. auto. }
    split.
    { rewrite Hk. unfold freed. kst. apply int32_small. lia. }
    split; [rewrite Hk; unfold freed; kst; reflexivity|].
    split.
    { intros i Hne. rewrite Hk. unfold freed. apply pool_eq; kst;
        destruct (Nat.eqb_spec i cpu); congruence. }
    intros x Hx. rewrite Hm. now apply freed_mem_out.
Qed.

(** Between calls, with no core inside the allocator (every pool lock
    free): if every free list is empty,
    [kalloc] returns the null pointer and changes nothing; if some pool has
    a free page, [kalloc] returns a non-null page that was on a free list
    and is on none afterwards, and the pools hold one page fewer. *)
Theorem kalloc_exhaustion fuel cpu st ls :
  wf NCPU st ls -> unlocked NCPU st -> (cpu < NCPU)%nat ->
  (forall i, (i < NCPU)%nat -> (length (ls i) <= fuel)%nat) ->
  ((forall i, (i < NCPU)%nat -> ls i = []) ->
   exists st', kalloc NCPU fuel cpu st = Ret 0 st' /\
               mem st' = mem st /\ (forall i, kmem st' i = kmem st i)) /\
  ((exists i, (i < NCPU)%nat /\ ls i <> []) ->
   exists r st' ls',
     kalloc NCPU fuel cpu st = Ret r st' /\ r <> 0 /\
     (exists i, (i < NCPU)%nat /\ In r (ls i)) /\
     wf NCPU st' ls' /\ unlocked NCPU st' /\
     (forall i, (i < NCPU)%nat -> ~ In r (ls' i)) /\
     (forall i a, (i < NCPU)%nat -> In a (ls' i) -> exists j, (j < NCPU)%nat /\ In a (ls j)) /\
     sumf (lens ls') NCPU = sumf (lens ls) NCPU - 1 /\
     free_total NCPU st' = free_total NCPU st - 1).
Proof.
  intros W U Hc Hfuel. split.
  - intros Hall. apply (kalloc_empty fuel cpu st ls); auto.
    destruct (donor NCPU st cpu) as [d|] eqn:Hd; [|reflexivity].
    destruct (donor_some st cpu d Hd) as (Hdn & _ & Hpos & _).
    rewrite (wf_len _ _ _ W d Hdn), (Hall d Hdn) in Hpos. simpl in Hpos. lia.
  - intros (i0 & Hi0 & Hne).
    destruct (ls cpu) as [|a l] eqn:Hls.
    + (* the local pool is empty: some other pool is the donor *)
      assert (Hi0c : i0 <> cpu) by (intros ->; congruence).
      destruct (donor NCPU st cpu) as [d|] eqn:Hd.
      2:{ pose proof (donor_none st cpu Hd i0 Hi0 Hi0c) as C.
          rewrite (wf_len _ _ _ W i0 Hi0) in C.
          destruct (ls i0); [congruence | cbn [length] in C; lia]. }
      destruct (donor_some st cpu d Hd) as (Hdn & Hdc & _).
      destruct (kalloc_steal fuel cpu st ls d W U Hc Hls Hd)
        as (r & lr & l2 & st' & Hrun & Hsplit & Hlr & W' & U').
      { specialize (Hfuel d Hdn).
        pose proof (Nat.Div0.div_le_upper_bound (length (ls d)) 2 (length (ls d))). lia. }
      assert (Hnd : NoDup (r :: lr ++ l2)).
      { rewrite <- Hsplit. apply (wf_nodup _ _ _ W); auto. }
      apply NoDup_cons_iff in Hnd. destruct Hnd as [Hni _].
      assert (Hcnt : sumf (lens (upd (upd ls d l2) cpu lr)) NCPU = sumf (lens ls) NCPU - 1).
      { rewrite !lens_upd by auto. unfold lens at 2 3. unfold upd at 1.
        destruct (Nat.eqb_spec cpu d); [congruence|].
        rewrite Hls, Hsplit. cbn [length]. rewrite length_app. lia. }
      exists r, st', (upd (upd ls d l2) cpu lr).
      split; [exact Hrun|]. split.
      { assert (okaddr r) as [? _]; [|lia].
        apply (wf_addr _ _ _ W d); auto. rewrite Hsplit. now left. }
      split; [exists d; split; auto; rewrite Hsplit; now left|].
      split; [exact W'|]. split; [exact U'|]. split; [|split; [|split]].
      * intros i Hi. unfold upd. destruct (Nat.eqb_spec i cpu).
        { intros C. apply Hni. apply in_or_app. now left. }
        destruct (Nat.eqb_spec i d).
        { intros C. apply Hni. apply in_or_app. now right. }
        apply (wf_disj _ _ _ W d i); auto. rewrite Hsplit. now left.
      * intros i a Hi. unfold upd. destruct (Nat.eqb_spec i cpu).
        { intros Ha. exists d. split; auto. rewrite Hsplit. right. apply in_or_app. now left. }
        destruct (Nat.eqb_spec i d).
        { intros Ha. exists d. split; auto. rewrite Hsplit. right. apply in_or_app. now right. }
        intros Ha. exists i. auto.
      * exact Hcnt.
      * rewrite (wf_free_total _ _ W'), (wf_free_total _ _ W). exact Hcnt.
    + destruct (kalloc_local fuel cpu st ls a l W U Hc Hls) as (st' & Hrun & W' & U').
      pose proof (wf_nodup _ _ _ W cpu Hc) as Hnd. rewrite Hls in Hnd.
      apply NoDup_cons_iff in Hnd. destruct Hnd as [Hni _].
      assert (Hcnt : sumf (lens (upd ls cpu l)) NCPU = sumf (lens ls) NCPU - 1).
      { rewrite lens_upd by auto. unfold lens at 2. rewrite Hls. cbn [length]. lia. }
      exists a, st', (upd ls cpu l).
      split; [exact Hrun|]. split.
      { assert (okaddr a) as [? _]; [|lia].
        apply (wf_addr _ _ _ W cpu); auto. rewrite Hls. now left. }
      split; [exists cpu; split; auto; rewrite Hls; now left|].
      split; [exact W'|]. split; [exact U'|]. split; [|split; [|split]].
      * intros i Hi. unfold upd. destruct (Nat.eqb_spec i cpu); [exact Hni|].
        apply (wf_disj _ _ _ W cpu i); auto. rewrite Hls. now left.
      * intros i b Hi. unfold upd. destruct (Nat.eqb_spec i cpu).
        { intros Hb. exists cpu. split; auto. rewrite Hls. now right. }
        intros Hb. exists i. auto.
      * exact Hcnt.
      * rewrite (wf_free_total _ _ W'), (wf_free_total _ _ W). exact Hcnt.
Qed.

(** C10.  A page that [kalloc] returns holds the junk byte 5 in each of its
    4096 bytes; in particular its first word, where the free-list link was,
    reads 0x0505050505050505. *)
Theorem kalloc_fills_page fuel cpu st r st' :
  kalloc NCPU fuel cpu st = Ret r st' -> r <> 0 ->
  (forall x, r <= x < r + PGSIZE -> mem st' x = 5) /\
  load64 (mem st') r = 361700864190383365.
Proof.
  intros H Hr.
  pose proof (kalloc_junk fuel cpu st r st' H Hr) as J.
  split; [exact J|].
  unfold load64. cbn [load_le].
  rewrite !J by (unfold PGSIZE; lia). reflexivity.
Qed.

End Facts.

(** *** Further facts about the allocator *)

Section Further.

Variable NCPU : nat.
Variable kend : Z.
Variable PHYSTOP : Z.

Local Abbreviation bad_address := (bad_address kend PHYSTOP).

Hypothesis kend_pos : 0 < kend.
Hypothesis PHYSTOP_max : PHYSTOP <= 2 ^ 64.

(** *** The pages of a range *)

Lemma pages_in p n a :
  In a (pages p n) <-> exists k, (k < n)%nat /\ a = p + PGSIZE * Z.of_nat k.
Proof.
  revert p. induction n as [|n IH]; intros p; cbn [pages].
  - split; [intros [] | intros (k & Hk & _); lia].
  - split.
    + intros [<-|H].
      * exists 0%nat. split; lia.
      * apply IH in H. destruct H as (k & Hk & ->). exists (S k). split; lia.
    + intros (k & Hk & ->). destruct k as [|k].
      * left. lia.
      * right. apply IH. exists k. split; lia.
Qed.

Lemma pages_length p n : length (pages p n) = n.
Proof. revert p. induction n; intros p; cbn [pages length]; auto. Qed.

Lemma remaining_nonneg e p : 0 <= remaining e p.
Proof. unfold remaining. lia. Qed.

Lemma remaining_next e p :
  p + PGSIZE <= e -> remaining e p = 1 + remaining e (p + PGSIZE).
Proof.
  intros H. unfold remaining, PGSIZE in *.
  replace (e - p) with (1 * 4096 + (e - (p + 4096))) by lia.
  rewrite Z.div_add_l by lia.
  assert (0 <= (e - (p + 4096)) / 4096) by (apply Z.div_pos; lia). lia.
Qed.

Lemma remaining_zero e p : e < p + PGSIZE -> remaining e p = 0.
Proof.
  intros H. unfold remaining, PGSIZE in *.
  assert ((e - p) / 4096 <= 0); [|lia].
  destruct (Z_lt_le_dec (e - p) 0).
  - assert ((e - p) / 4096 < 0) by (apply Z.div_lt_upper_bound; lia). lia.
  - rewrite Z.div_small; lia.
Qed.

(** The loop of [freerange] started at the page boundary [p]: the whole
    pages below [pa_end] go onto the list of the calling core, the last
    one first. *)
Lemma freerange_loop_exact cpu pa_end : forall fuel p st ls,
  wf NCPU st ls -> unlocked NCPU st -> (cpu < NCPU)%nat ->
  p mod PGSIZE = 0 -> 0 <= p -> pa_end <= PHYSTOP ->
  (uint64 (p + PGSIZE) <= pa_end ->
   kend <= p /\ p + PGSIZE < 2 ^ 64 /\ pa_end + PGSIZE < 2 ^ 64) ->
  (forall i a, (i < NCPU)%nat -> In a (ls i) -> a < p \/ pa_end <= a) ->
  Z.of_nat (length (ls cpu)) + remaining pa_end p < 2 ^ 31 ->
  (Z.to_nat (remaining pa_end p) <= fuel)%nat ->
  exists st',
    freerange_loop kend PHYSTOP fuel cpu p pa_end st = Ret tt st' /\
    wf NCPU st' (upd ls cpu (rev (pages p (Z.to_nat (remaining pa_end p))) ++ ls cpu)) /\
    unlocked NCPU st' /\
    (forall i, i <> cpu -> kmem st' i = kmem st i) /\
    (forall x, x < p \/ p + PGSIZE * remaining pa_end p <= x -> mem st' x = mem st x).
Proof.
  induction fuel as [|f IH]; intros p st ls W U Hc Hal Hp0 Hend Hnw Hbelow Hsum Hfuel.
  - pose proof (remaining_nonneg pa_end p) as Hr.
    assert (E : remaining pa_end p = 0) by lia.
    exists st. cbn [freerange_loop].
    destruct (Z.leb_spec (uint64 (p + PGSIZE)) pa_end) as [L|L].
    { destruct (Hnw L) as (Hge & Hp & He).
      rewrite uint64_small in L by (unfold PGSIZE in *; lia).
      rewrite remaining_next in E by lia.
      pose proof (remaining_nonneg pa_end (p + PGSIZE)). lia. }
    rewrite E. cbn [Z.to_nat pages rev app].
    split; [reflexivity|]. split; [|split; [exact U|split; auto]].
    eapply wf_ext_ls; [|exact W]. intros i. unfold upd.
    destruct (Nat.eqb_spec i cpu); subst; reflexivity.
  - cbn [freerange_loop].
    destruct (Z.leb_spec (uint64 (p + PGSIZE)) pa_end) as [L|L].
    + destruct (Hnw L) as (Hge & Hp & He).
      rewrite uint64_small in L |- * by (unfold PGSIZE in *; lia).
      assert (Hgood : ~ bad_address p).
      { unfold Kalloc.bad_address, PGSIZE in *. lia. }
      pose proof (remaining_next pa_end p L) as Hstep.
      pose proof (remaining_nonneg pa_end (p + PGSIZE)) as Hr.
      destruct (kfree_wf NCPU kend PHYSTOP cpu p st ls) as (st1 & Hrun & W1 & U1); auto.
      { apply (good_okaddr kend PHYSTOP kend_pos PHYSTOP_max). exact Hgood. }
      { intros i Hi C. destruct (Hbelow i p Hi C); unfold PGSIZE in *; lia. }
      { lia. }
      destruct (kfree_runs kend PHYSTOP cpu p st Hgood (U cpu Hc)) as (st1' & Hrun' & Hm1 & Hk1).
      rewrite Hrun in Hrun'. inversion Hrun'; subst st1'. clear Hrun'.
      destruct (IH (p + PGSIZE) st1 (upd ls cpu (p :: ls cpu))) as (st2 & Hrun2 & W2 & U2 & Hk2 & Hm2); auto.
      * unfold PGSIZE in *. rewrite <- Zplus_mod_idemp_l, Hal. reflexivity.
      * unfold PGSIZE in *. lia.
      * intros _. unfold PGSIZE in *. lia.
      * intros i a Hi. unfold upd. destruct (Nat.eqb_spec i cpu) as [->|Ne].
        -- intros [<-|Ha]; [unfold PGSIZE; lia|].
           destruct (Hbelow cpu a Hc Ha); unfold PGSIZE; lia.
        -- intros Ha. destruct (Hbelow i a Hi Ha); unfold PGSIZE; lia.
      * rewrite upd_same. cbn [length]. lia.
      * lia.
      * exists st2. unfold bind. rewrite Hrun. split; [exact Hrun2|].
        split; [|split; [exact U2|split]].
        -- eapply wf_ext_ls; [|exact W2]. intros i. unfold upd.
           destruct (Nat.eqb_spec i cpu) as [->|Ne]; [|reflexivity].
           rewrite Nat.eqb_refl. rewrite Hstep.
           replace (Z.to_nat (1 + remaining pa_end (p + PGSIZE)))
             with (S (Z.to_nat (remaining pa_end (p + PGSIZE)))) by lia.
           cbn [pages rev]. rewrite <- app_assoc. reflexivity.
        -- intros i Hi. rewrite Hk2 by auto. rewrite Hk1. unfold freed.
           apply pool_eq; autorewrite with kst;
             destruct (Nat.eqb_spec i cpu); try congruence; reflexivity.
        -- intros x Hx. rewrite Hm2 by (unfold PGSIZE in *; lia).
           rewrite Hm1. apply freed_mem_out. unfold PGSIZE in *. lia.
    + assert (L' : pa_end < p + PGSIZE)
        by (pose proof (uint64_le (p + PGSIZE)); unfold PGSIZE in *; lia).
      rewrite remaining_zero by lia. cbn [Z.to_nat pages rev app].
      exists st. split; [reflexivity|]. split; [|split; [exact U|split; auto]].
      eapply wf_ext_ls; [|exact W]. intros i. unfold upd.
      destruct (Nat.eqb_spec i cpu); subst; reflexivity.
Qed.

(** X1.  [freerange(pa_start, pa_end)] inside the managed range, and clear
    of the top of the address space (so that neither [PGROUNDUP] nor
    [p + PGSIZE] wraps at 2^64), frees the whole pages between
    [PGROUNDUP(pa_start)] and [pa_end], and nothing else: they go onto the
    list of the calling core, the highest first, its count grows by their
    number, the other pools are untouched, and no byte below the first or
    from the end of the last of these pages changes: not the bytes up to the
    first page boundary, not a partial page at the end. *)
Theorem freerange_whole_pages fuel cpu pa_start pa_end st ls :
  wf NCPU st ls -> unlocked NCPU st -> (cpu < NCPU)%nat ->
  kend <= pa_start -> pa_end <= PHYSTOP ->
  pa_start + 2 * PGSIZE <= 2 ^ 64 -> pa_end + PGSIZE < 2 ^ 64 ->
  (forall i a, (i < NCPU)%nat -> In a (ls i) -> a < pa_start \/ pa_end <= a) ->
  Z.of_nat (length (ls cpu)) + remaining pa_end (PGROUNDUP pa_start) < 2 ^ 31 ->
  (Z.to_nat (remaining pa_end (PGROUNDUP pa_start)) <= fuel)%nat ->
  exists st',
    freerange kend PHYSTOP fuel cpu pa_start pa_end st = Ret tt st' /\
    wf NCPU st'
       (upd ls cpu
            (rev (pages (PGROUNDUP pa_start)
                        (Z.to_nat (remaining pa_end (PGROUNDUP pa_start))))
             ++ ls cpu)) /\
    unlocked NCPU st' /\
    freelen (kmem st' cpu) =
      freelen (kmem st cpu) + remaining pa_end (PGROUNDUP pa_start) /\
    (forall i, i <> cpu -> kmem st' i = kmem st i) /\
    (forall x, x < PGROUNDUP pa_start \/
               PGROUNDUP pa_start + PGSIZE * remaining pa_end (PGROUNDUP pa_start) <= x ->
               mem st' x = mem st x).
Proof.
  intros W U Hc Hs He Hs64 He64 Hout Hsum Hfuel.
  assert (Hup : pa_start <= PGROUNDUP pa_start < pa_start + PGSIZE)
    by (apply PGROUNDUP_ge; unfold PGSIZE in *; lia).
  assert (Hbelow : forall i a, (i < NCPU)%nat -> In a (ls i) ->
                               a < PGROUNDUP pa_start \/ pa_end <= a).
  { intros i a Hi Ha. destruct (Hout i a Hi Ha); lia. }
  assert (Hp0 : 0 <= PGROUNDUP pa_start) by lia.
  assert (Hnw : uint64 (PGROUNDUP pa_start + PGSIZE) <= pa_end ->
                kend <= PGROUNDUP pa_start /\
                PGROUNDUP pa_start + PGSIZE < 2 ^ 64 /\ pa_end + PGSIZE < 2 ^ 64)
    by (intros _; unfold PGSIZE in *; lia).
  destruct (freerange_loop_exact cpu pa_end fuel (PGROUNDUP pa_start) st ls
              W U Hc (PGROUNDUP_aligned pa_start) Hp0 He Hnw Hbelow Hsum Hfuel)
    as (st' & Hrun & W' & U' & Hk & Hm).
  exists st'. split; [exact Hrun|]. split; [exact W'|]. split; [exact U'|].
  split; [|split; assumption].
  rewrite (wf_len _ _ _ W' cpu Hc), (wf_len _ _ _ W cpu Hc), upd_same.
  rewrite length_app, length_rev, pages_length.
  pose proof (remaining_nonneg pa_end (PGROUNDUP pa_start)). lia.
Qed.

(** *** kinit *)

Hypothesis npages_int : npages kend PHYSTOP < 2 ^ 31.

(** The loop of [kinit] meets no wrap: if it frees a page at all, the first
    page is not below [end], and neither its end nor [PHYSTOP + PGSIZE]
    reaches 2^64. *)
Local Abbreviation clear_of_top :=
  (uint64 (PGROUNDUP kend + PGSIZE) <= PHYSTOP ->
   kend <= PGROUNDUP kend /\ PGROUNDUP kend + PGSIZE < 2 ^ 64 /\
   PHYSTOP + PGSIZE < 2 ^ 64).

(** A [kinit] that returns has met no wrap. *)
Lemma kinit_no_wrap fuel cpu st st' :
  kinit NCPU kend PHYSTOP fuel cpu st = Ret tt st' -> clear_of_top.
Proof.
  unfold kinit, bind, freerange. intros H.
  destruct (kinit_loop (seq 0 NCPU) st) as [[] s1| | | |]; try discriminate.
  exact (freerange_loop_no_wrap kend PHYSTOP kend_pos PHYSTOP_max cpu fuel (PGROUNDUP kend) s1 st'
           (PGROUNDUP_aligned kend) (PGROUNDUP_range kend) H).
Qed.

Lemma away_from_top :
  kend + 2 * PGSIZE <= 2 ^ 64 -> PHYSTOP + PGSIZE < 2 ^ 64 -> clear_of_top.
Proof.
  intros Hk Hp _.
  assert (Hup : kend <= PGROUNDUP kend < kend + PGSIZE)
    by (apply PGROUNDUP_ge; unfold PGSIZE in *; lia).
  unfold PGSIZE in *. lia.
Qed.

Lemma kinit_lists m fuel cpu :
  (cpu < NCPU)%nat -> (Z.to_nat (npages kend PHYSTOP) <= fuel)%nat ->
  clear_of_top ->
  exists st,
    kinit NCPU kend PHYSTOP fuel cpu (boot m) = Ret tt st /\
    wf NCPU st (upd (fun _ => []) cpu (rev (managed kend PHYSTOP))) /\
    unlocked NCPU st /\
    (forall i, i <> cpu -> kmem st i = mkpool None 0 0) /\
    (forall x, x < PGROUNDUP kend \/
               PGROUNDUP kend + PGSIZE * npages kend PHYSTOP <= x ->
               mem st x = m x).
Proof.
  intros Hc Hfuel Hnw. unfold managed.
  destruct (kinit_loop_boot (seq 0 NCPU) (boot m)) as (st1 & Hrun1 & Hm1 & Hk1).
  { intros i. reflexivity. }
  assert (W1 : wf NCPU st1 (fun _ => [])) by (now apply boot_wf).
  assert (U1 : unlocked NCPU st1) by (intros i _; now rewrite Hk1).
  change (npages kend PHYSTOP) with (remaining PHYSTOP (PGROUNDUP kend)) in *.
  assert (Hsum : Z.of_nat (length (@nil Z)) + remaining PHYSTOP (PGROUNDUP kend) < 2 ^ 31)
    by (cbn [length]; lia).
  destruct (freerange_loop_exact cpu PHYSTOP fuel (PGROUNDUP kend) st1 (fun _ => [])
              W1 U1 Hc (PGROUNDUP_aligned kend) (proj1 (PGROUNDUP_range kend))
              (Z.le_refl PHYSTOP) Hnw
              (fun i a _ (H : In a []) => match H with end) Hsum Hfuel)
    as (st' & Hrun & W' & U' & Hk & Hm).
  exists st'. split; [|split; [|split; [exact U'|split]]].
  - unfold kinit, bind. rewrite Hrun1. exact Hrun.
  - eapply wf_ext_ls; [|exact W']. intros i. unfold upd.
    destruct (Nat.eqb i cpu); [|reflexivity]. now rewrite app_nil_r.
  - intros i Hi. rewrite Hk by auto. apply Hk1.
  - intros x Hx. rewrite Hm by auto. now rewrite Hm1.
Qed.

Lemma managed_length :
  Z.of_nat (length (managed kend PHYSTOP)) = npages kend PHYSTOP.
Proof.
  unfold managed. rewrite pages_length. unfold npages. lia.
Qed.

(** A managed page lies, whole, between [end] and [PHYSTOP], on a page
    boundary. *)
Lemma managed_range a :
  clear_of_top ->
  In a (managed kend PHYSTOP) ->
  a mod PGSIZE = 0 /\ kend <= a /\ a + PGSIZE <= PHYSTOP.
Proof.
  unfold managed. intros Hnw H. apply pages_in in H. destruct H as (k & Hk & ->).
  pose proof (PGROUNDUP_aligned kend) as Hal.
  assert (Hn : 0 < npages kend PHYSTOP) by lia.
  unfold npages in *.
  assert (Hge : kend <= PGROUNDUP kend).
  { apply Hnw. pose proof (PGROUNDUP_range kend) as Hrg.
    pose proof (uint64_le (PGROUNDUP kend + PGSIZE)) as Hu.
    assert (1 <= (PHYSTOP - PGROUNDUP kend) / PGSIZE) by lia.
    assert (PGSIZE * 1 <= PHYSTOP - PGROUNDUP kend).
    { etransitivity; [|apply (Z.mul_div_le _ PGSIZE); reflexivity].
      apply Z.mul_le_mono_nonneg_l; [unfold PGSIZE; lia | assumption]. }
    unfold PGSIZE in *. lia. }
  assert (Hd : PGSIZE * ((PHYSTOP - PGROUNDUP kend) / PGSIZE) <= PHYSTOP - PGROUNDUP kend).
  { apply Z.mul_div_le. unfold PGSIZE. lia. }
  unfold PGSIZE in *. split; [|split].
  - rewrite (Z.mul_comm 4096), Z.mod_add by lia. exact Hal.
  - lia.
  - nia.
Qed.

(** X2.  With [end] and [PHYSTOP] clear of the top of the address space (so
    that the pointer of [freerange] does not wrap at 2^64), [kinit] run on
    core [cpu] at boot returns, and gives every managed
    page, the whole pages between [PGROUNDUP(end)] and [PHYSTOP], to the
    pool of that core: its list holds them from the highest down and its
    count is their number; every other pool is empty with a count of 0; all
    locks are free; and memory outside these pages is as it was. *)
Theorem kinit_gives_all_pages_to_caller m fuel cpu :
  (cpu < NCPU)%nat -> (Z.to_nat (npages kend PHYSTOP) <= fuel)%nat ->
  kend + 2 * PGSIZE <= 2 ^ 64 -> PHYSTOP + PGSIZE < 2 ^ 64 ->
  exists st,
    kinit NCPU kend PHYSTOP fuel cpu (boot m) = Ret tt st /\
    flist (mem st) (freelist (kmem st cpu)) (rev (managed kend PHYSTOP)) /\
    freelen (kmem st cpu) = npages kend PHYSTOP /\
    (forall i, i <> cpu -> kmem st i = mkpool None 0 0) /\
    lock (kmem st cpu) = None /\
    (forall a, In a (managed kend PHYSTOP) ->
               a mod PGSIZE = 0 /\ kend <= a /\ a + PGSIZE <= PHYSTOP) /\
    (forall x, x < PGROUNDUP kend \/
               PGROUNDUP kend + PGSIZE * npages kend PHYSTOP <= x ->
               mem st x = m x).
Proof.
  intros Hc Hfuel Hk64 Hp64.
  pose proof (away_from_top Hk64 Hp64) as Hnw.
  destruct (kinit_lists m fuel cpu Hc Hfuel Hnw) as (st & Hrun & W & U & Hk & Hm).
  exists st. split; [exact Hrun|].
  pose proof (wf_list _ _ _ W cpu Hc) as Fl. rewrite upd_same in Fl.
  pose proof (wf_len _ _ _ W cpu Hc) as Ln. rewrite upd_same, length_rev in Ln.
  split; [exact Fl|]. split; [rewrite Ln; apply managed_length|].
  split; [exact Hk|]. split; [apply U; exact Hc|].
  split; [exact (fun a => managed_range a Hnw) | exact Hm].
Qed.

(** *** checklen *)

(** One round of the loop of [checklen], on a pool whose list is [l]. *)
Lemma checklen_round fuel cpu id i rest st l :
  flist (mem st) (freelist (kmem st i)) l ->
  Z.of_nat (length l) < 2 ^ 31 -> (length l <= fuel)%nat ->
  (i <> id -> lock (kmem st i) = None) ->
  checklen_loop fuel cpu id (i :: rest) st =
  if freelen (kmem st i) =? Z.of_nat (length l)
  then checklen_loop fuel cpu id rest
         (if Nat.eqb i id then st else set_lock i None (set_lock i (Some cpu) st))
  else Panic checklen_msg.
Proof.
  intros Fl Rg Hf Hfree.
  pose proof (list_len_spec (mem st) fuel l (freelist (kmem st i)) 0 Fl Hf
                (Z.le_refl 0) Rg) as LL.
  rewrite Z.add_0_l in LL.
  cbn [checklen_loop]. run.
  destruct (Nat.eqb_spec i id) as [E|E]; cbn [negb].
  - rewrite LL, Z.eqb_sym.
    destruct (freelen (kmem st i) =? Z.of_nat (length l)); reflexivity.
  - unfold acquire. rewrite (Hfree E). autorewrite with kst. rewrite LL, Z.eqb_sym.
    autorewrite with kst.
    destruct (freelen (kmem st i) =? Z.of_nat (length l)); cbn [negb]; [|reflexivity].
    unfold release. autorewrite with kst. rewrite holding_self. reflexivity.
Qed.

(** X3.  [checklen] compares the count of each pool with the length of its
    list.  On pools whose lists are proper (null-terminated, shorter than
    2^31): if every count is the length of its list, [checklen] returns and
    leaves pools and memory as they were; if some count differs, it panics
    with "checklen not match". *)
Theorem checklen_verdict fuel cpu id st ls :
  (forall i, (i < NCPU)%nat -> flist (mem st) (freelist (kmem st i)) (ls i)) ->
  (forall i, (i < NCPU)%nat -> Z.of_nat (length (ls i)) < 2 ^ 31) ->
  (forall i, (i < NCPU)%nat -> (length (ls i) <= fuel)%nat) ->
  (forall i, (i < NCPU)%nat -> i <> id -> lock (kmem st i) = None) ->
  ((forall i, (i < NCPU)%nat -> freelen (kmem st i) = Z.of_nat (length (ls i))) ->
   exists st',
     checklen NCPU fuel cpu id st = Ret tt st' /\
     mem st' = mem st /\ (forall i, kmem st' i = kmem st i)) /\
  ((exists i, (i < NCPU)%nat /\ freelen (kmem st i) <> Z.of_nat (length (ls i))) ->
   checklen NCPU fuel cpu id st = Panic checklen_msg).
Proof.
  intros Fl Rg Hfuel Hfree. unfold checklen.
  assert (G : forall ids st1,
            (forall i, In i ids -> (i < NCPU)%nat) ->
            mem st1 = mem st -> (forall i, kmem st1 i = kmem st i) ->
            ((forall i, In i ids -> freelen (kmem st i) = Z.of_nat (length (ls i))) ->
             exists st',
               checklen_loop fuel cpu id ids st1 = Ret tt st' /\
               mem st' = mem st /\ (forall i, kmem st' i = kmem st i)) /\
            ((exists i, In i ids /\ freelen (kmem st i) <> Z.of_nat (length (ls i))) ->
             checklen_loop fuel cpu id ids st1 = Panic checklen_msg)).
  { induction ids as [|i rest IH]; intros st1 Hin Hm Hk.
    - split.
      + intros _. exists st1. auto.
      + intros (i & [] & _).
    - assert (Hi : (i < NCPU)%nat) by (apply Hin; now left).
      assert (Hin' : forall j, In j rest -> (j < NCPU)%nat)
        by (intros j Hj; apply Hin; now right).
      assert (R : checklen_loop fuel cpu id (i :: rest) st1 =
                  if freelen (kmem st i) =? Z.of_nat (length (ls i))
                  then checklen_loop fuel cpu id rest
                         (if Nat.eqb i id then st1
                          else set_lock i None (set_lock i (Some cpu) st1))
                  else Panic checklen_msg).
      { rewrite <- (Hk i). apply checklen_round; auto.
        - rewrite Hm, Hk. auto.
        - intros E. rewrite Hk. auto. }
      assert (Hm2 : mem (if Nat.eqb i id then st1
                         else set_lock i None (set_lock i (Some cpu) st1)) = mem st).
      { destruct (Nat.eqb i id); [exact Hm|]. autorewrite with kst. exact Hm. }
      assert (Hk2 : forall j, kmem (if Nat.eqb i id then st1
                                    else set_lock i None (set_lock i (Some cpu) st1)) j
                              = kmem st j).
      { intros j. destruct (Nat.eqb_spec i id) as [E|E]; [apply Hk|].
        apply pool_eq; autorewrite with kst; rewrite ?Hk;
          destruct (Nat.eqb_spec j i); subst; auto.
        symmetry. auto. }
      destruct (IH _ Hin' Hm2 Hk2) as [IHok IHbad].
      rewrite R. split.
      + intros Hall. rewrite (Hall i) by (now left). rewrite Z.eqb_refl.
        apply IHok. intros j Hj. apply Hall. now right.
      + intros (j & Hj & Hne).
        destruct (Z.eqb_spec (freelen (kmem st i)) (Z.of_nat (length (ls i)))) as [E|E];
          [|reflexivity].
        apply IHbad. exists j. split; [|exact Hne].
        destruct Hj as [<-|Hj]; [contradiction|exact Hj]. }
  assert (Hseq : forall i, In i (seq 0 NCPU) -> (i < NCPU)%nat).
  { intros i Hi. apply in_seq in Hi. lia. }
  destruct (G (seq 0 NCPU) st Hseq eq_refl (fun i => eq_refl)) as [Gok Gbad].
  split.
  - intros Hall. apply Gok. intros i Hi. apply Hall. auto.
  - intros (i & Hi & Hne). apply Gbad. exists i. split; [|exact Hne].
    apply in_seq. lia.
Qed.

(** *** kalloc on a pool that has a page *)

Lemma kalloc_local_run fuel cpu st a :
  lock (kmem st cpu) = None -> freelist (kmem st cpu) = a -> a <> 0 ->
  exists st',
    kalloc NCPU fuel cpu st = Ret a st' /\
    mem st' = memset_bytes (mem st) a 5 PGSIZE /\
    freelist (kmem st' cpu) = load64 (mem st) a /\
    freelen (kmem st' cpu) = int32 (freelen (kmem st cpu) - 1) /\
    lock (kmem st' cpu) = None /\
    (forall i, i <> cpu -> kmem st' i = kmem st i).
Proof.
  intros Hlk Hhd Ha.
  eexists. split; [|split; [|split; [|split; [|split]]]].
  - unfold kalloc. run. unfold acquire. rewrite Hlk. autorewrite with kst. rewrite Hhd.
    destruct (Z.eqb_spec a 0); [congruence|]. cbn [negb].
    unfold release. autorewrite with kst. rewrite holding_self.
    destruct (Z.eqb_spec a 0); [congruence|]. cbn [negb]. reflexivity.
  - autorewrite with kst. reflexivity.
  - autorewrite with kst. reflexivity.
  - autorewrite with kst. reflexivity.
  - autorewrite with kst. reflexivity.
  - intros i Hi. apply pool_eq; autorewrite with kst;
      destruct (Nat.eqb_spec i cpu); try congruence; reflexivity.
Qed.

(** X4.  A pool that has a page serves [kalloc] from its own list: the page
    returned is the head of the list of the calling core, the one freed
    last; the count of that pool drops by one; no other pool is looked at
    or changed, whatever it holds; and memory changes in the returned page
    only. *)
Theorem kalloc_pops_local_head fuel cpu st ls a l :
  wf NCPU st ls -> unlocked NCPU st -> (cpu < NCPU)%nat ->
  ls cpu = a :: l ->
  exists st',
    kalloc NCPU fuel cpu st = Ret a st' /\
    wf NCPU st' (upd ls cpu l) /\ unlocked NCPU st' /\
    freelen (kmem st' cpu) = freelen (kmem st cpu) - 1 /\
    (forall i, i <> cpu -> kmem st' i = kmem st i) /\
    (forall x, x < a \/ a + PGSIZE <= x -> mem st' x = mem st x).
Proof.
  intros W U Hc Hls.
  destruct (kalloc_local NCPU fuel cpu st ls a l W U Hc Hls) as (st' & Hrun & W' & U').
  pose proof (wf_list _ _ _ W cpu Hc) as Fl. rewrite Hls in Fl.
  destruct Fl as (Hhd & Ha & _).
  destruct (kalloc_local_run fuel cpu st a (U cpu Hc) Hhd Ha)
    as (st2 & Hrun2 & Hm & _ & _ & _ & Hk).
  rewrite Hrun in Hrun2. inversion Hrun2; subst st2. clear Hrun2.
  exists st'. split; [exact Hrun|]. split; [exact W'|]. split; [exact U'|].
  split; [|split; [exact Hk|]].
  - rewrite (wf_len _ _ _ W' cpu Hc), (wf_len _ _ _ W cpu Hc), upd_same, Hls.
    cbn [length]. lia.
  - intros x Hx. rewrite Hm. apply memset_bytes_out. exact Hx.
Qed.

(** X5.  Free, then allocate on the same core: [kalloc] returns the page
    [kfree] has just taken, filled with the byte 5, and the pools are back
    as they were before the [kfree]: same lists, same counts, locks free.
    Memory outside the page is unchanged. *)
Theorem kfree_then_kalloc_returns_page fuel cpu pa st ls :
  wf NCPU st ls -> unlocked NCPU st -> (cpu < NCPU)%nat ->
  ~ bad_address pa -> (forall i, (i < NCPU)%nat -> ~ In pa (ls i)) ->
  Z.of_nat (length (ls cpu)) + 1 < 2 ^ 31 ->
  exists st1 st2,
    kfree kend PHYSTOP cpu pa st = Ret tt st1 /\
    kalloc NCPU fuel cpu st1 = Ret pa st2 /\
    wf NCPU st2 ls /\
    (forall i, kmem st2 i = kmem st i) /\
    (forall x, x < pa \/ pa + PGSIZE <= x -> mem st2 x = mem st x) /\
    (forall x, pa <= x < pa + PGSIZE -> mem st2 x = 5).
Proof.
  intros W U Hc Hgood Hfresh Hlen.
  pose proof (good_okaddr kend PHYSTOP kend_pos PHYSTOP_max pa Hgood) as Hok.
  destruct (kfree_wf NCPU kend PHYSTOP cpu pa st ls W U Hc Hgood Hok Hfresh Hlen)
    as (st1 & Hrun1 & W1 & U1).
  destruct (kfree_runs kend PHYSTOP cpu pa st Hgood (U cpu Hc)) as (st1' & Hrun1' & Hm1 & Hk1).
  rewrite Hrun1 in Hrun1'. inversion Hrun1'; subst st1'. clear Hrun1'.
  assert (Hls1 : upd ls cpu (pa :: ls cpu) cpu = pa :: ls cpu) by apply upd_same.
  destruct (kalloc_local NCPU fuel cpu st1 _ pa (ls cpu) W1 U1 Hc Hls1)
    as (st2 & Hrun2 & W2 & U2).
  assert (Hpa0 : pa <> 0) by (destruct Hok; lia).
  assert (Hhd1 : freelist (kmem st1 cpu) = pa) by (rewrite Hk1; apply freed_head).
  destruct (kalloc_local_run fuel cpu st1 pa (U1 cpu Hc) Hhd1 Hpa0)
    as (st2' & Hrun2' & Hm2 & Hfl2 & Hln2 & Hlk2 & Hk2).
  rewrite Hrun2 in Hrun2'. inversion Hrun2'; subst st2'. clear Hrun2'.
  pose proof (wf_len _ _ _ W cpu Hc) as Ln.
  assert (Hrange : 0 <= freelist (kmem st cpu) < 2 ^ 64).
  { eapply flist_head_range; [apply (wf_list _ _ _ W cpu Hc)|].
    intros a. apply (wf_addr _ _ _ W); auto. }
  exists st1, st2. split; [exact Hrun1|]. split; [exact Hrun2|].
  split; [|split; [|split]].
  - eapply wf_ext_ls; [|exact W2]. intros i. unfold upd.
    destruct (Nat.eqb_spec i cpu); subst; reflexivity.
  - intros i. destruct (Nat.eq_dec i cpu) as [->|Ne].
    + apply pool_eq.
      * rewrite Hlk2. symmetry. apply U; auto.
      * rewrite Hfl2, Hm1. apply freed_next. exact Hrange.
      * rewrite Hln2, Hk1. unfold freed. autorewrite with kst.
        rewrite Ln. rewrite (int32_small (_ + 1)) by lia.
        rewrite int32_small by lia. lia.
    + rewrite Hk2 by auto. rewrite Hk1. unfold freed.
      apply pool_eq; autorewrite with kst;
        destruct (Nat.eqb_spec i cpu); try congruence; reflexivity.
  - intros x Hx. rewrite Hm2, memset_bytes_out by exact Hx.
    rewrite Hm1. apply freed_mem_out. exact Hx.
  - intros x Hx. rewrite Hm2. apply memset_bytes_in. exact Hx.
Qed.

(** X6.  [kfree] does not notice a page that is freed twice.  Both calls
    return; the page then heads the list and is its own successor, and the
    count has grown by two.  The next two calls of [kalloc] on that core
    both return the page, and they leave the junk word 0x0505050505050505,
    read from the page handed out, as the head of the free list. *)
Theorem double_free_hands_out_page_twice fuel cpu pa st :
  lock (kmem st cpu) = None -> ~ bad_address pa ->
  - 2 ^ 31 <= freelen (kmem st cpu) < 2 ^ 31 - 2 ->
  exists st1 st2 st3 st4,
    kfree kend PHYSTOP cpu pa st = Ret tt st1 /\
    kfree kend PHYSTOP cpu pa st1 = Ret tt st2 /\
    freelist (kmem st2 cpu) = pa /\ load64 (mem st2) pa = pa /\
    freelen (kmem st2 cpu) = freelen (kmem st cpu) + 2 /\
    kalloc NCPU fuel cpu st2 = Ret pa st3 /\
    kalloc NCPU fuel cpu st3 = Ret pa st4 /\
    freelist (kmem st4 cpu) = 361700864190383365 /\
    freelen (kmem st4 cpu) = freelen (kmem st cpu).
Proof.
  intros Hlk Hgood Hlen.
  pose proof (good_okaddr kend PHYSTOP kend_pos PHYSTOP_max pa Hgood) as Hok.
  assert (Hpa0 : pa <> 0) by (destruct Hok; lia).
  assert (Hrg : 0 <= pa < 2 ^ 64) by (destruct Hok; lia).
  destruct (kfree_runs kend PHYSTOP cpu pa st Hgood Hlk) as (st1 & Hrun1 & Hm1 & Hk1).
  assert (Hlk1 : lock (kmem st1 cpu) = None).
  { rewrite Hk1. unfold freed. autorewrite with kst. reflexivity. }
  assert (Hhd1 : freelist (kmem st1 cpu) = pa) by (rewrite Hk1; apply freed_head).
  assert (Hln1 : freelen (kmem st1 cpu) = freelen (kmem st cpu) + 1).
  { rewrite Hk1. unfold freed. autorewrite with kst. apply int32_small. lia. }
  destruct (kfree_runs kend PHYSTOP cpu pa st1 Hgood Hlk1) as (st2 & Hrun2 & Hm2 & Hk2).
  assert (Hlk2 : lock (kmem st2 cpu) = None).
  { rewrite Hk2. unfold freed. autorewrite with kst. reflexivity. }
  assert (Hhd2 : freelist (kmem st2 cpu) = pa) by (rewrite Hk2; apply freed_head).
  assert (Hnx2 : load64 (mem st2) pa = pa).
  { rewrite Hm2, freed_next; rewrite Hhd1; auto. }
  assert (Hln2 : freelen (kmem st2 cpu) = freelen (kmem st cpu) + 2).
  { rewrite Hk2. unfold freed. autorewrite with kst. rewrite Hln1.
    rewrite int32_small by lia. lia. }
  destruct (kalloc_local_run fuel cpu st2 pa Hlk2 Hhd2 Hpa0)
    as (st3 & Hrun3 & Hm3 & Hfl3 & Hln3 & Hlk3 & _).
  rewrite Hnx2 in Hfl3.
  destruct (kalloc_local_run fuel cpu st3 pa Hlk3 Hfl3 Hpa0)
    as (st4 & Hrun4 & Hm4 & Hfl4 & Hln4 & Hlk4 & _).
  exists st1, st2, st3, st4.
  split; [exact Hrun1|]. split; [exact Hrun2|]. split; [exact Hhd2|].
  split; [exact Hnx2|]. split; [exact Hln2|]. split; [exact Hrun3|].
  split; [exact Hrun4|]. split.
  - rewrite Hfl4, Hm3. unfold load64. cbn [load_le].
    rewrite !memset_bytes_in by (unfold PGSIZE; lia). reflexivity.
  - rewrite Hln4, Hln3, Hln2.
    rewrite (int32_small (freelen (kmem st cpu) + 2 - 1)) by lia.
    rewrite int32_small by lia. lia.
Qed.

(** *** The choice of the donor *)

Lemma best_stays lens id ids : forall maxid maxlen,
  (forall i, In i ids -> i <> id -> lens i <= maxlen) ->
  best lens id ids maxid maxlen = (maxid, maxlen).
Proof.
  induction ids as [|i rest IH]; intros maxid maxlen H; cbn [best]; [reflexivity|].
  destruct (Nat.eqb_spec i id) as [E|E].
  - apply IH. intros j Hj. apply H. now right.
  - destruct (Z.gtb_spec (lens i) maxlen) as [G|G].
    + specialize (H i (or_introl eq_refl) E). lia.
    + apply IH. intros j Hj. apply H. now right.
Qed.

Lemma best_first_max lens id d l2 : forall l1 maxid maxlen,
  d <> id -> maxlen < lens d ->
  (forall i, In i l1 -> i <> id -> lens i < lens d) ->
  (forall i, In i l2 -> i <> id -> lens i <= lens d) ->
  best lens id (l1 ++ d :: l2) maxid maxlen = (Some d, lens d).
Proof.
  induction l1 as [|i l1 IH]; intros maxid maxlen Hd Hlt H1 H2.
  - cbn [app best]. destruct (Nat.eqb_spec d id); [congruence|].
    destruct (Z.gtb_spec (lens d) maxlen); [|lia].
    now apply best_stays.
  - cbn [app best]. destruct (Nat.eqb_spec i id) as [E|E].
    + apply IH; auto. intros j Hj. apply H1. now right.
    + destruct (Z.gtb_spec (lens i) maxlen) as [G|G].
      * apply IH; auto.
        -- apply H1; auto. now left.
        -- intros j Hj. apply H1. now right.
      * apply IH; auto. intros j Hj. apply H1. now right.
Qed.

(** The scan settles on the pool with the largest count, the first of
    them if several have it. *)
Lemma donor_first_max st id d :
  (d < NCPU)%nat -> d <> id -> 0 < freelen (kmem st d) ->
  (forall i, (i < NCPU)%nat -> i <> id -> freelen (kmem st i) <= freelen (kmem st d)) ->
  (forall i, (i < d)%nat -> i <> id -> freelen (kmem st i) < freelen (kmem st d)) ->
  donor NCPU st id = Some d.
Proof.
  intros Hd Hne Hpos Hmax Hfirst. unfold donor.
  assert (E : seq 0 NCPU = seq 0 d ++ d :: seq (S d) (NCPU - S d)).
  { replace NCPU with (d + S (NCPU - S d))%nat at 1 by lia.
    rewrite seq_app. reflexivity. }
  rewrite E.
  rewrite (best_first_max (fun i => freelen (kmem st i)) id d); auto.
  - intros i Hi. apply in_seq in Hi. apply Hfirst. lia.
  - intros i Hi. apply in_seq in Hi. apply Hmax. lia.
Qed.

(** X7.  A core whose own list is empty takes pages from the pool with the
    most free pages; among pools that have equally many, from the one with
    the lowest index.  Of the [n] pages of that pool the first is returned,
    the next [n / 2] become the list of the caller and the rest stay with
    the donor; every other pool is left as it was and no lock stays
    held. *)
Theorem kalloc_steals_from_fullest fuel cpu st ls d :
  wf NCPU st ls -> unlocked NCPU st ->
  (cpu < NCPU)%nat -> (d < NCPU)%nat -> d <> cpu ->
  ls cpu = [] -> ls d <> [] ->
  (forall i, (i < NCPU)%nat -> i <> cpu -> (length (ls i) <= length (ls d))%nat) ->
  (forall i, (i < d)%nat -> i <> cpu -> (length (ls i) < length (ls d))%nat) ->
  (length (ls d) / 2 <= fuel)%nat ->
  exists r lr l2 st',
    kalloc NCPU fuel cpu st = Ret r st' /\
    ls d = r :: lr ++ l2 /\ length lr = (length (ls d) / 2)%nat /\
    wf NCPU st' (upd (upd ls d l2) cpu lr) /\ unlocked NCPU st' /\
    freelen (kmem st' cpu) = Z.of_nat (length (ls d) / 2) /\
    freelen (kmem st' d) = Z.of_nat (length (ls d) - 1 - length (ls d) / 2) /\
    (forall i, (i < NCPU)%nat -> i <> d -> i <> cpu -> kmem st' i = kmem st i).
Proof.
  intros W U Hc Hd Hne Hemp Hfull Hmax Hfirst Hfuel.
  assert (Hdonor : donor NCPU st cpu = Some d).
  { apply donor_first_max; auto.
    - rewrite (wf_len _ _ _ W d Hd). destruct (ls d); [congruence|cbn [length]; lia].
    - intros i Hi Hic. rewrite (wf_len _ _ _ W i Hi), (wf_len _ _ _ W d Hd).
      specialize (Hmax i Hi Hic). lia.
    - intros i Hi Hic. assert (Hi' : (i < NCPU)%nat) by lia.
      rewrite (wf_len _ _ _ W i Hi'), (wf_len _ _ _ W d Hd).
      specialize (Hfirst i Hi Hic). lia. }
  destruct (kalloc_steal NCPU fuel cpu st ls d W U Hc Hemp Hdonor Hfuel)
    as (r & lr & l2 & st' & Hrun & Hsplit & Hlr & W' & U').
  exists r, lr, l2, st'.
  split; [exact Hrun|]. split; [exact Hsplit|]. split; [exact Hlr|].
  split; [exact W'|]. split; [exact U'|].
  assert (Hcd : Nat.eqb cpu d = false) by (apply Nat.eqb_neq; congruence).
  assert (Hdc : Nat.eqb d cpu = false) by (now apply Nat.eqb_neq).
  split; [|split].
  - rewrite (wf_len _ _ _ W' cpu Hc), upd_same, Hlr. reflexivity.
  - rewrite (wf_len _ _ _ W' d Hd). unfold upd at 1. rewrite Hdc, upd_same.
    f_equal. rewrite Hsplit at 1. cbn [length]. rewrite length_app. lia.
  - intros i Hi Hid Hic. apply pool_eq.
    + rewrite (U' i Hi), (U i Hi). reflexivity.
    + pose proof (wf_list _ _ _ W' i Hi) as F'. pose proof (wf_list _ _ _ W i Hi) as F.
      unfold upd in F'.
      destruct (Nat.eqb_spec i cpu); [congruence|].
      destruct (Nat.eqb_spec i d); [congruence|].
      apply flist_hd in F. apply flist_hd in F'. congruence.
    + pose proof (wf_len _ _ _ W' i Hi) as L'. pose proof (wf_len _ _ _ W i Hi) as L.
      unfold upd in L'.
      destruct (Nat.eqb_spec i cpu); [congruence|].
      destruct (Nat.eqb_spec i d); [congruence|]. congruence.
Qed.

(** *** What a call writes *)

(** [release] leaves memory alone. *)
Lemma release_mem cpu i s u s' : release cpu i s = Ret u s' -> mem s' = mem s.
Proof.
  unfold release. destruct (holding cpu (lock (kmem s i))); [|discriminate].
  intros H. inversion H. reflexivity.
Qed.

(** The only word [reschedule] writes is the link of the node its walk
    stops on. *)
Lemma reschedule_footprint fuel cpu id st r st' d :
  (forall i, (i < NCPU)%nat -> i <> id -> lock (kmem st i) = None) ->
  donor NCPU st id = Some d ->
  reschedule NCPU fuel cpu id st = Ret r st' ->
  mem st' = mem st \/
  exists a, walk fuel (mem st) (freelist (kmem st d)) (freelist (kmem st d)) = Some a /\
            mem st' = store64 (mem st) a 0.
Proof.
  intros Hfree Hd.
  destruct (donor_scan NCPU cpu id st Hfree) as (st1 & H1 & H2 & H3 & H4 & H5).
  unfold reschedule. run.
  destruct (negb (holding cpu (lock (kmem st id)))); [discriminate|].
  destruct (negb (freelist (kmem st id) =? 0)).
  { intros H. inversion H. now left. }
  rewrite H1. fold (donor NCPU st id). rewrite Hd. cbn [fst].
  destruct (negb (holding cpu (lock (kmem st1 d)))); [discriminate|].
  rewrite H3.
  destruct (negb (freelist (kmem st d) =? 0)); cbv beta.
  - rewrite H2.
    destruct (walk fuel (mem st) (freelist (kmem st d)) (freelist (kmem st d)))
      as [a|] eqn:Ew; [|discriminate].
    destruct (a =? freelist (kmem st d)); cbv beta.
    + intros H. left.
      destruct (release cpu d _) as [[] s2| | | |] eqn:R; try discriminate.
      inversion H; subst. apply release_mem in R. rewrite R.
      autorewrite with kst. exact H2.
    + intros H. right. exists a. split; [reflexivity|].
      match type of H with
      | context [if ?c then _ else _] => destruct c
      end; cbv beta in H.
      all: destruct (release cpu d _) as [[] s2| | | |] eqn:R; try discriminate.
      all: inversion H; subst; autorewrite with kst.
      all: apply release_mem in R; rewrite R; autorewrite with kst.
      all: now rewrite H2.
  - intros H.
    destruct (release cpu d st1) as [[] s2| | | |] eqn:R; try discriminate.
    inversion H; subst. left. apply release_mem in R. congruence.
Qed.

(** *** One step of the allocator, seen from the invariant *)

Local Abbreviation inv := (inv NCPU kend PHYSTOP).

Lemma walk_in_list m fuel l p a :
  flist m p l -> l <> [] -> walk fuel m p p = Some a -> In a l.
Proof.
  intros Fl Hne Hw.
  apply walk_mono with (fuel' := (fuel + length l / 2)%nat) in Hw; [|lia].
  rewrite (walk_spec m _ l l p p Fl Fl) in Hw by lia.
  destruct (half_split l Hne) as (l1 & x & l2 & Hsplit & Hk).
  rewrite <- Hk, Hsplit, hd_skipn_app in Hw. inversion Hw; subst a.
  rewrite Hsplit. apply in_or_app. right. now left.
Qed.

(** What [kalloc] writes when it goes to another pool. *)
Lemma kalloc_steal_mem fuel cpu st r st' d :
  unlocked NCPU st -> (cpu < NCPU)%nat ->
  freelist (kmem st cpu) = 0 -> donor NCPU st cpu = Some d ->
  kalloc NCPU fuel cpu st = Ret r st' ->
  exists m1,
    (m1 = mem st \/
     exists a, walk fuel (mem st) (freelist (kmem st d)) (freelist (kmem st d)) = Some a /\
               m1 = store64 (mem st) a 0) /\
    mem st' = if r =? 0 then m1 else memset_bytes m1 r 5 PGSIZE.
Proof.
  intros U Hc Hnull Hd. unfold kalloc. run. unfold acquire. rewrite (U cpu Hc).
  autorewrite with kst. rewrite Hnull. cbn [Z.eqb negb].
  destruct (reschedule NCPU fuel cpu cpu (set_lock cpu (Some cpu) st))
    as [r1 s2| | | |] eqn:E; try discriminate.
  destruct (release cpu cpu s2) as [[] s3| | | |] eqn:R; try discriminate.
  intros H. exists (mem s2). split.
  - apply reschedule_footprint with (d := d) in E.
    + autorewrite with kst in E. exact E.
    + intros i Hi Hne. autorewrite with kst.
      destruct (Nat.eqb_spec i cpu); [congruence|]. apply U; auto.
    + rewrite <- Hd. apply donor_ext. intros i. now autorewrite with kst.
  - apply release_mem in R.
    destruct (r1 =? 0) eqn:E0; cbn [negb] in H; inversion H; subst;
      rewrite E0; autorewrite with kst; congruence.
Qed.

(** A call of [kalloc] in a state of the invariant: the invariant holds
    afterwards; the pages on the lists were there before; the page returned
    was on a list; null comes back only if all lists are empty; and a byte
    outside every free page is not written. *)
Lemma kalloc_step st out ls fuel cpu r st' :
  inv st out ls -> (cpu < NCPU)%nat ->
  kalloc NCPU fuel cpu st = Ret r st' ->
  exists ls',
    inv st' (if r =? 0 then out else r :: out) ls' /\
    (forall i a, (i < NCPU)%nat -> In a (ls' i) -> exists j, (j < NCPU)%nat /\ In a (ls j)) /\
    (r <> 0 -> exists j, (j < NCPU)%nat /\ In r (ls j)) /\
    (r = 0 -> forall i, (i < NCPU)%nat -> ls i = []) /\
    (forall x, (forall j a, (j < NCPU)%nat -> In a (ls j) -> x < a \/ a + PGSIZE <= x) ->
               mem st' x = mem st x).
Proof.
  intros I Hc Hrun.
  destruct (kalloc_inv NCPU kend PHYSTOP st out ls fuel cpu r st' I Hc Hrun) as [ls' I'].
  pose proof (inv_wf _ _ _ _ _ _ I) as W. pose proof (inv_unlocked _ _ _ _ _ _ I) as U.
  pose proof (inv_wf _ _ _ _ _ _ I') as W'.
  assert (Same : forall ls2, wf NCPU st' ls2 -> forall i, (i < NCPU)%nat -> ls' i = ls2 i).
  { intros ls2 W2 i Hi. eapply flist_fun; [apply (wf_list _ _ _ W' i Hi)|apply (wf_list _ _ _ W2 i Hi)]. }
  exists ls'. split; [exact I'|].
  destruct (ls cpu) as [|a l] eqn:Hls.
  - destruct (donor NCPU st cpu) as [d|] eqn:Hd.
    + destruct (donor_some NCPU st cpu d Hd) as (Hdn & Hdc & _).
      pose proof Hrun as Hrun0.
      apply kalloc_mono with (fuel' := (fuel + length (ls d))%nat) in Hrun; [|lia].
      destruct (kalloc_steal NCPU (fuel + length (ls d)) cpu st ls d)
        as (r1 & lr & l2 & st1 & Hrun1 & Hsplit & Hlr & W1 & U1); auto.
      { apply Nat.Div0.div_le_upper_bound. lia. }
      rewrite Hrun1 in Hrun. inversion Hrun; subst r1 st1. clear Hrun.
      assert (Hokr : okaddr r).
      { apply (wf_addr _ _ _ W d); auto. rewrite Hsplit. now left. }
      assert (Hr0 : r <> 0) by (destruct Hokr; lia).
      split; [|split; [|split]].
      * intros i a Hi Ha. rewrite (Same _ W1 i Hi) in Ha. unfold upd in Ha.
        destruct (Nat.eqb_spec i cpu).
        { exists d. split; auto. rewrite Hsplit. right. apply in_or_app. now left. }
        destruct (Nat.eqb_spec i d).
        { exists d. split; auto. rewrite Hsplit. right. apply in_or_app. now right. }
        exists i. auto.
      * intros _. exists d. split; auto. rewrite Hsplit. now left.
      * intros C. contradiction.
      * intros x Hx.
        assert (Hnull : freelist (kmem st cpu) = 0).
        { pose proof (wf_list _ _ _ W cpu Hc) as F. rewrite Hls in F. exact F. }
        destruct (kalloc_steal_mem fuel cpu st r st' d U Hc Hnull Hd Hrun0)
          as (m1 & Hm1 & Hm').
        apply Z.eqb_neq in Hr0. rewrite Hr0 in Hm'. rewrite Hm'.
        rewrite memset_bytes_out.
        2:{ apply (Hx d r); auto. rewrite Hsplit. now left. }
        destruct Hm1 as [->|(a & Hw & ->)]; [reflexivity|].
        assert (Ha : In a (ls d)).
        { eapply walk_in_list; [apply (wf_list _ _ _ W d Hdn)| |exact Hw].
          rewrite Hsplit. discriminate. }
        unfold store64. apply store_le_out.
        destruct (Hx d a Hdn Ha); unfold PGSIZE in *; cbn; lia.
    + destruct (kalloc_empty NCPU fuel cpu st ls) as (st1 & Hrun1 & Hm & Hk); auto.
      rewrite Hrun1 in Hrun. inversion Hrun; subst r st1.
      split; [|split; [|split]].
      * intros i a Hi Ha. exists i. split; auto.
        rewrite (Same ls) in Ha; auto.
        apply wf_frame with (st := st); auto.
        -- intros j. now rewrite Hk.
        -- intros j b _ _. now rewrite Hm.
      * intros C. congruence.
      * intros _ i Hi. destruct (Nat.eq_dec i cpu) as [->|Ne]; [exact Hls|].
        pose proof (donor_none NCPU st cpu Hd i Hi Ne) as Hle.
        rewrite (wf_len _ _ _ W i Hi) in Hle.
        destruct (ls i); [reflexivity|cbn [length] in Hle; lia].
      * intros x _. now rewrite Hm.
  - destruct (kalloc_local NCPU fuel cpu st ls a l) as (st1 & Hrun1 & W1 & U1); auto.
    rewrite Hrun1 in Hrun. inversion Hrun; subst r st1.
    assert (Hoka : okaddr a).
    { apply (wf_addr _ _ _ W cpu); auto. rewrite Hls. now left. }
    assert (Ha0 : a <> 0) by (destruct Hoka; lia).
    split; [|split; [|split]].
    + intros i b Hi Hb. rewrite (Same _ W1 i Hi) in Hb. unfold upd in Hb.
      destruct (Nat.eqb_spec i cpu); [|exists i; auto].
      exists cpu. split; auto. rewrite Hls. now right.
    + intros _. exists cpu. split; auto. rewrite Hls. now left.
    + intros C. contradiction.
    + intros x Hx.
      pose proof (wf_list _ _ _ W cpu Hc) as F. rewrite Hls in F. destruct F as (Hhd & _).
      destruct (kalloc_local_run fuel cpu st a (U cpu Hc) Hhd Ha0)
        as (st2 & Hrun2 & Hm & _).
      rewrite Hrun1 in Hrun2. inversion Hrun2; subst st2.
      rewrite Hm. apply memset_bytes_out. apply (Hx cpu a); auto. rewrite Hls. now left.
Qed.

Lemma kinit_mono fuel fuel' cpu st st' :
  kinit NCPU kend PHYSTOP fuel cpu st = Ret tt st' -> (fuel <= fuel')%nat ->
  kinit NCPU kend PHYSTOP fuel' cpu st = Ret tt st'.
Proof.
  unfold kinit, bind, freerange. intros H Hle.
  destruct (kinit_loop (seq 0 NCPU) st) as [[] s1| | | |]; try discriminate.
  eapply freerange_loop_mono; eauto.
Qed.

(** In every state the allocator reaches, the pages on the lists and the
    pages that are out are managed pages. *)
Lemma reach_managed st out :
  reach NCPU kend PHYSTOP st out ->
  exists ls, inv st out ls /\
    (forall i a, (i < NCPU)%nat -> In a (ls i) -> In a (managed kend PHYSTOP)) /\
    (forall a, In a out -> In a (managed kend PHYSTOP)).
Proof.
  induction 1 as [m fuel cpu st Hc Hrun | st out fuel cpu r st' Hreach IH Hc Hrun
                 | st out cpu pa st' Hreach IH Hc Hin Hrun].
  - destruct (kinit_inv NCPU kend PHYSTOP kend_pos PHYSTOP_max npages_int m fuel cpu st Hc Hrun)
      as [ls I].
    exists ls. split; [exact I|]. split; [|intros a []].
    pose proof (kinit_no_wrap fuel cpu (boot m) st Hrun) as Hnw.
    apply kinit_mono with (fuel' := (fuel + Z.to_nat (npages kend PHYSTOP))%nat) in Hrun; [|lia].
    destruct (kinit_lists m (fuel + Z.to_nat (npages kend PHYSTOP)) cpu Hc)
      as (st1 & Hrun1 & W1 & _); [lia|exact Hnw|].
    rewrite Hrun1 in Hrun. inversion Hrun; subst st1.
    intros i a Hi Ha.
    assert (E : ls i = upd (fun _ => []) cpu (rev (managed kend PHYSTOP)) i).
    { eapply flist_fun; [apply (wf_list _ _ _ (inv_wf _ _ _ _ _ _ I) i Hi)
                        |apply (wf_list _ _ _ W1 i Hi)]. }
    rewrite E in Ha. unfold upd in Ha. destruct (Nat.eqb i cpu); [|destruct Ha].
    now apply in_rev.
  - destruct IH as (ls & I & Mls & Mout).
    destruct (kalloc_step st out ls fuel cpu r st' I Hc Hrun)
      as (ls' & I' & Hsub & Hr & _).
    exists ls'. split; [exact I'|]. split.
    + intros i a Hi Ha. destruct (Hsub i a Hi Ha) as (j & Hj & Haj). eauto.
    + destruct (Z.eqb_spec r 0) as [E|E]; [exact Mout|].
      intros a [<-|Ha]; [|auto]. destruct (Hr E) as (j & Hj & Hrj). eauto.
  - destruct IH as (ls & I & Mls & Mout).
    exists (upd ls cpu (pa :: ls cpu)). split; [|split].
    + apply (kfree_inv NCPU kend PHYSTOP kend_pos PHYSTOP_max npages_int st out ls); auto.
    + intros i a Hi. unfold upd. destruct (Nat.eqb_spec i cpu) as [->|Ne].
      * intros [<-|Ha]; eauto.
      * apply Mls. exact Hi.
    + intros a Ha. apply in_remove in Ha. destruct Ha. auto.
Qed.

(** Behind every state the allocator reaches is a [kinit] that returned. *)
Lemma reach_no_wrap st out : reach NCPU kend PHYSTOP st out -> clear_of_top.
Proof.
  induction 1 as [m fuel cpu st Hc Hrun | |]; [|assumption..].
  exact (kinit_no_wrap fuel cpu (boot m) st Hrun).
Qed.

(** X8.  [kalloc] never hands out a page that is already out, and never
    anything but a managed page: in every state the allocator reaches, a
    non-null result is a page-aligned address with the whole page between
    [end] and [PHYSTOP], one of the pages [kinit] freed, and not among the
    pages returned earlier and not yet given back. *)
Theorem kalloc_returns_unused_managed_page st out fuel cpu r st' :
  reach NCPU kend PHYSTOP st out -> (cpu < NCPU)%nat ->
  kalloc NCPU fuel cpu st = Ret r st' -> r <> 0 ->
  ~ In r out /\ In r (managed kend PHYSTOP) /\
  r mod PGSIZE = 0 /\ kend <= r /\ r + PGSIZE <= PHYSTOP.
Proof.
  intros Hreach Hc Hrun Hr.
  destruct (reach_managed st out Hreach) as (ls & I & Mls & _).
  destruct (kalloc_step st out ls fuel cpu r st' I Hc Hrun) as (ls' & _ & _ & Hin & _).
  destruct (Hin Hr) as (j & Hj & Hrj).
  assert (M : In r (managed kend PHYSTOP)) by eauto.
  split; [|split; [exact M | apply managed_range; [exact (reach_no_wrap st out Hreach) | exact M]]].
  intros C. apply (inv_out_disj _ _ _ _ _ _ I r j C Hj Hrj).
Qed.

(** X9.  In every state the allocator reaches, [kalloc] with enough fuel
    returns, and it returns the null pointer exactly when every managed
    page is out: an allocation fails only when nothing is left on any
    core. *)
Theorem kalloc_fails_iff_all_pages_out st out fuel cpu :
  reach NCPU kend PHYSTOP st out -> (cpu < NCPU)%nat ->
  (Z.to_nat (npages kend PHYSTOP) <= fuel)%nat ->
  exists r st',
    kalloc NCPU fuel cpu st = Ret r st' /\
    (r = 0 <-> Z.of_nat (length out) = npages kend PHYSTOP).
Proof.
  intros Hreach Hc Hfuel.
  destruct (reach_inv NCPU kend PHYSTOP kend_pos PHYSTOP_max npages_int st out Hreach)
    as [ls I].
  pose proof (inv_wf _ _ _ _ _ _ I) as W. pose proof (inv_unlocked _ _ _ _ _ _ I) as U.
  pose proof (inv_count _ _ _ _ _ _ I) as Hcnt.
  assert (Hnn : forall j, (j < NCPU)%nat -> 0 <= lens ls j) by (intros; apply lens_nonneg).
  assert (Hle : forall i, (i < NCPU)%nat -> (length (ls i) <= fuel)%nat).
  { intros i Hi. pose proof (sumf_bound (lens ls) NCPU i Hnn Hi) as B.
    unfold lens at 1 in B. lia. }
  assert (Hrun : exists r st', kalloc NCPU fuel cpu st = Ret r st').
  { destruct (ls cpu) as [|a l] eqn:Hls.
    - destruct (donor NCPU st cpu) as [d|] eqn:Hd.
      + destruct (donor_some NCPU st cpu d Hd) as (Hdn & _).
        destruct (kalloc_steal NCPU fuel cpu st ls d) as (r & _ & _ & st' & Hrun & _); eauto.
        apply Nat.Div0.div_le_upper_bound. specialize (Hle d Hdn). lia.
      + destruct (kalloc_empty NCPU fuel cpu st ls) as (st' & Hrun & _); eauto.
    - destruct (kalloc_local NCPU fuel cpu st ls a l) as (st' & Hrun & _); eauto. }
  destruct Hrun as (r & st' & Hrun). exists r, st'. split; [exact Hrun|].
  destruct (kalloc_step st out ls fuel cpu r st' I Hc Hrun) as (ls' & _ & _ & Hin & Hnone & _).
  split.
  - intros E. rewrite <- Hcnt.
    assert (Z0 : sumf (lens ls) NCPU = 0).
    { rewrite (sumf_ext (lens ls) (lens (fun _ => [])) NCPU); [apply sumf_zero|].
      intros i Hi. unfold lens. now rewrite (Hnone E i Hi). }
    lia.
  - intros E. destruct (Z.eq_dec r 0) as [|Ne]; [assumption|exfalso].
    destruct (Hin Ne) as (j & Hj & Hrj).
    pose proof (sumf_bound (lens ls) NCPU j Hnn Hj) as B. unfold lens at 1 in B.
    destruct (ls j); [destruct Hrj|cbn [length] in B; lia].
Qed.

(** X10.  A page that is out is not written by the allocator until it is
    given back: in every state the allocator reaches, a call of [kalloc] on
    any core, and a [kfree] of any other page, leave every byte of the page
    as it was. *)
Theorem allocated_pages_untouched st out a x :
  reach NCPU kend PHYSTOP st out -> In a out -> a <= x < a + PGSIZE ->
  (forall fuel cpu r st',
     (cpu < NCPU)%nat -> kalloc NCPU fuel cpu st = Ret r st' -> mem st' x = mem st x) /\
  (forall cpu pa st',
     (cpu < NCPU)%nat -> pa <> a -> kfree kend PHYSTOP cpu pa st = Ret tt st' ->
     mem st' x = mem st x).
Proof.
  intros Hreach Ha Hx.
  destruct (reach_inv NCPU kend PHYSTOP kend_pos PHYSTOP_max npages_int st out Hreach)
    as [ls I].
  pose proof (inv_wf _ _ _ _ _ _ I) as W. pose proof (inv_unlocked _ _ _ _ _ _ I) as U.
  assert (Hoka : okaddr a).
  { apply (good_okaddr kend PHYSTOP kend_pos PHYSTOP_max).
    apply (inv_out_good _ _ _ _ _ _ I). exact Ha. }
  split.
  - intros fuel cpu r st' Hc Hrun.
    destruct (kalloc_step st out ls fuel cpu r st' I Hc Hrun) as (ls' & _ & _ & _ & _ & Hm).
    apply Hm. intros j b Hj Hb.
    assert (Hokb : okaddr b) by (apply (wf_addr _ _ _ W j); auto).
    assert (Hne : a <> b).
    { intros ->. apply (inv_out_disj _ _ _ _ _ _ I b j Ha Hj Hb). }
    destruct (okaddr_apart a b Hoka Hokb Hne); lia.
  - intros cpu pa st' Hc Hne Hrun.
    assert (Hgood : ~ bad_address pa).
    { intros Hbad. rewrite (kfree_panics kend PHYSTOP cpu pa st Hbad) in Hrun.
      discriminate. }
    destruct (kfree_runs kend PHYSTOP cpu pa st Hgood (U cpu Hc)) as (st1 & Hrun1 & Hm & _).
    rewrite Hrun1 in Hrun. inversion Hrun; subst st1.
    rewrite Hm. apply freed_mem_out.
    pose proof (good_okaddr kend PHYSTOP kend_pos PHYSTOP_max pa Hgood) as Hokp.
    destruct (okaddr_apart a pa Hoka Hokp (not_eq_sym Hne)); lia.
Qed.

(** X11.  The diagnostic never fires on the allocator's own states: in
    every state the allocator reaches, [checklen], given enough fuel to
    walk the lists, returns without panicking and leaves pools and memory
    as they were. *)
Theorem checklen_passes_in_reachable_states st out fuel cpu id :
  reach NCPU kend PHYSTOP st out ->
  (Z.to_nat (npages kend PHYSTOP) <= fuel)%nat ->
  exists st',
    checklen NCPU fuel cpu id st = Ret tt st' /\
    mem st' = mem st /\ (forall i, kmem st' i = kmem st i).
Proof.
  intros Hreach Hfuel.
  destruct (reach_inv NCPU kend PHYSTOP kend_pos PHYSTOP_max npages_int st out Hreach)
    as [ls I].
  pose proof (inv_count _ _ _ _ _ _ I) as Hcnt.
  assert (Hnn : forall j, (j < NCPU)%nat -> 0 <= lens ls j) by (intros; apply lens_nonneg).
  apply (checklen_passes NCPU fuel cpu id st ls).
  - exact (inv_wf _ _ _ _ _ _ I).
  - intros i Hi _. apply (inv_unlocked _ _ _ _ _ _ I). exact Hi.
  - intros i Hi. pose proof (sumf_bound (lens ls) NCPU i Hnn Hi) as B.
    unfold lens at 1 in B. lia.
Qed.

(** *** Two cores in reschedule *)

(** The scan waits at the first pool whose lock is taken. *)
Lemma scan_spins cpu id Y c : forall ids maxid maxlen st,
  NoDup ids -> In Y ids -> Y <> id ->
  lock (kmem st Y) = Some c ->
  (forall i, In i ids -> i <> id -> i <> Y -> lock (kmem st i) = None) ->
  (forall m, maxid = Some m -> lock (kmem st m) = Some cpu /\ ~ In m ids) ->
  scan cpu id ids maxid maxlen st = Spin.
Proof.
  induction ids as [|i rest IH]; intros maxid maxlen st Hnd HY Hne Hlk Hfree Hmax;
    [destruct HY|].
  inversion Hnd as [|? ? Hni Hnd']; subst.
  cbn [scan]. destruct (Nat.eqb_spec i id) as [E|E].
  - destruct HY as [->|HY]; [congruence|].
    apply IH; auto.
    + intros j Hj. apply Hfree. now right.
    + intros m Hm. destruct (Hmax m Hm) as [H1 H2]. split; auto.
      intros C. apply H2. now right.
  - unfold bind at 1. unfold acquire.
    destruct (Nat.eq_dec i Y) as [->|HiY].
    { rewrite Hlk. reflexivity. }
    destruct HY as [->|HY]; [congruence|].
    rewrite (Hfree i) by (auto; now left).
    unfold bind at 1. unfold gets.
    assert (HYi : Nat.eqb Y i = false) by (apply Nat.eqb_neq; congruence).
    destruct (_ >? maxlen).
    + destruct maxid as [m|].
      * destruct (Hmax m eq_refl) as [Hm1 Hm2].
        assert (Hmi : m <> i) by (intros ->; apply Hm2; now left).
        assert (HmY : m <> Y) by (intros ->; apply Hm2; now right).
        unfold bind at 1. unfold release.
        autorewrite with kst. destruct (Nat.eqb_spec m i); [congruence|].
        rewrite Hm1, holding_self.
        apply IH; auto.
        -- autorewrite with kst. rewrite HYi.
           destruct (Nat.eqb_spec Y m); [congruence|]. exact Hlk.
        -- intros j Hj Hjid HjY. autorewrite with kst.
           destruct (Nat.eqb_spec j m); [reflexivity|].
           destruct (Nat.eqb_spec j i); [subst; contradiction|].
           apply Hfree; auto. now right.
        -- intros m' Hm'. inversion Hm'; subst m'. split; auto.
           autorewrite with kst. destruct (Nat.eqb_spec i m); [congruence|]. reflexivity.
      * unfold bind at 1. unfold ret.
        apply IH; auto.
        -- autorewrite with kst. rewrite HYi. exact Hlk.
        -- intros j Hj Hjid HjY. autorewrite with kst.
           destruct (Nat.eqb_spec j i); [subst; contradiction|].
           apply Hfree; auto. now right.
        -- intros m' Hm'. inversion Hm'; subst m'. split; auto.
           autorewrite with kst. reflexivity.
    + unfold bind at 1. unfold release. autorewrite with kst. rewrite holding_self.
      apply IH; auto.
      * autorewrite with kst. rewrite HYi. exact Hlk.
      * intros j Hj Hjid HjY. autorewrite with kst.
        destruct (Nat.eqb_spec j i); [reflexivity|].
        apply Hfree; auto. now right.
      * intros m Hm. destruct (Hmax m Hm) as [H1 H2].
        assert (Hmi : m <> i) by (intros ->; apply H2; now left).
        split; [|intros C; apply H2; now right].
        autorewrite with kst. destruct (Nat.eqb_spec m i); [congruence|]. exact H1.
Qed.

(** [reschedule] on a core [A] with an empty list, while the lock of
    another pool [B] is held by some core and not given up, waits for that
    lock. *)
Lemma reschedule_waits fuel A B c st :
  (A < NCPU)%nat -> (B < NCPU)%nat -> A <> B ->
  lock (kmem st A) = Some A -> lock (kmem st B) = Some c ->
  freelist (kmem st A) = 0 ->
  (forall i, (i < NCPU)%nat -> i <> A -> i <> B -> lock (kmem st i) = None) ->
  reschedule NCPU fuel A A st = Spin.
Proof.
  intros HA HB HAB HlA HlB HfA Hfr.
  unfold reschedule. run. rewrite HlA, holding_self. cbn [negb].
  rewrite HfA. cbn [Z.eqb negb].
  rewrite (scan_spins A A B c (seq 0 NCPU) None 0 st); auto.
  - apply seq_NoDup.
  - apply in_seq. lia.
  - intros i Hi HiA HiB. apply in_seq in Hi. apply Hfr; auto. lia.
  - intros m Hm. discriminate.
Qed.

(** C9.  [kalloc] does not always return.  It keeps the lock of the pool of
    its core (line 177) while [reschedule] takes the locks of the other
    pools one after the other (line 52).  From a state between calls in
    which the lists of the cores [X] and [Y] are empty, whatever the other
    pools hold: once [X] has taken its lock, a [kalloc] on [Y] waits for
    the lock of [X]; and once [Y] holds its own lock in turn, the
    [reschedule] of [X] waits for it as that of [Y] waits for the lock of
    [X].  Neither core gives its lock up before its [reschedule] is over:
    both calls wait for ever, and return neither a page nor the null
    pointer. *)
Theorem concurrent_kalloc_never_returns fuel X Y st :
  (X < NCPU)%nat -> (Y < NCPU)%nat -> X <> Y ->
  unlocked NCPU st ->
  freelist (kmem st X) = 0 -> freelist (kmem st Y) = 0 ->
  acquire X X st = Ret tt (set_lock X (Some X) st) /\
  kalloc NCPU fuel Y (set_lock X (Some X) st) = Spin /\
  acquire Y Y (set_lock X (Some X) st) =
    Ret tt (set_lock Y (Some Y) (set_lock X (Some X) st)) /\
  reschedule NCPU fuel X X (set_lock Y (Some Y) (set_lock X (Some X) st)) = Spin /\
  reschedule NCPU fuel Y Y (set_lock Y (Some Y) (set_lock X (Some X) st)) = Spin.
Proof.
  intros HX HY Hne U HfX HfY.
  assert (HYX : Nat.eqb Y X = false) by (apply Nat.eqb_neq; congruence).
  assert (HXY : Nat.eqb X Y = false) by (apply Nat.eqb_neq; congruence).
  assert (A1 : acquire Y Y (set_lock X (Some X) st) =
               Ret tt (set_lock Y (Some Y) (set_lock X (Some X) st))).
  { unfold acquire. autorewrite with kst. rewrite HYX, (U Y HY). reflexivity. }
  assert (Hfree : forall i, (i < NCPU)%nat -> i <> X -> i <> Y ->
            lock (kmem (set_lock Y (Some Y) (set_lock X (Some X) st)) i) = None).
  { intros i Hi HiX HiY. autorewrite with kst.
    destruct (Nat.eqb_spec i Y); [congruence|].
    destruct (Nat.eqb_spec i X); [congruence|]. apply U; exact Hi. }
  assert (LX : lock (kmem (set_lock Y (Some Y) (set_lock X (Some X) st)) X) = Some X).
  { autorewrite with kst. rewrite ?HXY, ?Nat.eqb_refl. reflexivity. }
  assert (LY : lock (kmem (set_lock Y (Some Y) (set_lock X (Some X) st)) Y) = Some Y).
  { autorewrite with kst. rewrite ?Nat.eqb_refl. reflexivity. }
  assert (FX : freelist (kmem (set_lock Y (Some Y) (set_lock X (Some X) st)) X) = 0).
  { autorewrite with kst. exact HfX. }
  assert (FY : freelist (kmem (set_lock Y (Some Y) (set_lock X (Some X) st)) Y) = 0).
  { autorewrite with kst. exact HfY. }
  assert (RY : reschedule NCPU fuel Y Y
                 (set_lock Y (Some Y) (set_lock X (Some X) st)) = Spin).
  { apply (reschedule_waits fuel Y X X); auto. }
  split; [|split; [|split; [exact A1|split; [|exact RY]]]].
  - unfold acquire. rewrite (U X HX). reflexivity.
  - unfold kalloc. unfold bind at 1. rewrite A1.
    unfold bind at 1. unfold gets. rewrite FY. cbn [Z.eqb negb].
    unfold bind at 1. rewrite RY. reflexivity.
  - apply (reschedule_waits fuel X Y Y); auto.
Qed.

(** X12.  Two cores that find their own lists empty at the same time block
    each other.  Each has taken the lock of its own pool in [kalloc] and
    keeps it while [reschedule] goes through the other pools; when it comes
    to the pool of the other core it waits for a lock that is not given up:
    from the state in which both hold their own lock, the [reschedule] of
    either core never returns. *)
Theorem two_empty_cores_block_each_other fuel X Y st :
  (X < NCPU)%nat -> (Y < NCPU)%nat -> X <> Y ->
  lock (kmem st X) = Some X -> lock (kmem st Y) = Some Y ->
  freelist (kmem st X) = 0 -> freelist (kmem st Y) = 0 ->
  (forall i, (i < NCPU)%nat -> i <> X -> i <> Y -> lock (kmem st i) = None) ->
  reschedule NCPU fuel X X st = Spin /\ reschedule NCPU fuel Y Y st = Spin.
Proof.
  intros HX HY Hne HlX HlY HfX HfY Hfree.
  assert (G : forall A B, (A < NCPU)%nat -> (B < NCPU)%nat -> A <> B ->
              lock (kmem st A) = Some A -> lock (kmem st B) = Some B ->
              freelist (kmem st A) = 0 ->
              (forall i, (i < NCPU)%nat -> i <> A -> i <> B -> lock (kmem st i) = None) ->
              reschedule NCPU fuel A A st = Spin).
  { intros A B HA HB HAB HlA HlB HfA Hfr.
    unfold reschedule. run. rewrite HlA, holding_self. cbn [negb].
    rewrite HfA. cbn [Z.eqb negb].
    rewrite (scan_spins A A B B (seq 0 NCPU) None 0 st); auto.
    - apply seq_NoDup.
    - apply in_seq. lia.
    - intros i Hi HiA HiB. apply in_seq in Hi. apply Hfr; auto. lia.
    - intros m Hm. discriminate. }
  split.
  - exact (G X Y HX HY Hne HlX HlY HfX Hfree).
  - apply (G Y X HY HX (not_eq_sym Hne) HlY HlX HfY).
    intros i Hi H1 H2. apply Hfree; auto.
Qed.

End Further.

(** *** The small machine *)

Lemma small_kend_pos : 0 < Small.kend.
Proof. reflexivity. Defined.

Lemma small_PHYSTOP_max : Small.PHYSTOP <= 2 ^ 64.
Proof. discriminate. Defined.

Lemma small_npages : npages Small.kend Small.PHYSTOP < 2 ^ 31.
Proof. reflexivity. Defined.

Lemma small_reach :
  reach Small.NCPU Small.kend Small.PHYSTOP Small.booted [].
Proof.
  apply reach_init with (m := fun _ => 0) (fuel := 10%nat) (cpu := 0%nat).
  - unfold Small.NCPU. lia.
  - unfold Small.booted.
    rewrite (returned_eq (kinit _ _ _ _ _ _) tt Small.st0) at 1 by (vm_compute; reflexivity).
    destruct (value_of _ _). reflexivity.
Defined.

Lemma small_inv :
  exists ls, inv Small.NCPU Small.kend Small.PHYSTOP Small.booted [] ls.
Proof.
  apply reach_inv.
  - exact small_kend_pos.
  - exact small_PHYSTOP_max.
  - exact small_npages.
  - exact small_reach.
Defined.

Lemma small_lists ls :
  wf Small.NCPU Small.booted ls ->
  length (ls 0%nat) = 10%nat /\ ls 1%nat = [].
Proof.
  intros W.
  pose proof (wf_len _ _ _ W 0%nat) as L0.
  pose proof (wf_len _ _ _ W 1%nat) as L1.
  unfold Small.NCPU in *.
  assert (E0 : freelen (kmem Small.booted 0) = 10) by (vm_compute; reflexivity).
  assert (E1 : freelen (kmem Small.booted 1) = 0) by (vm_compute; reflexivity).
  rewrite E0 in L0. rewrite E1 in L1.
  split; [lia|]. destruct (ls 1%nat); [reflexivity|].
  cbn [length] in L1. lia.
Defined.

Lemma small_alloc1 :
  kalloc Small.NCPU 10 1 Small.booted = Ret 2147655680 Small.after_alloc1.
Proof.
  unfold Small.after_alloc1, Small.alloc1.
  rewrite (returned_eq (kalloc _ _ _ _) 0 Small.st0) at 1 by (vm_compute; reflexivity).
  f_equal; vm_compute; reflexivity.
Defined.

(** C1 as the spec states it fails on the small machine: pool 0 holds 10
    pages and pool 1 none, core 1 allocates, and the counts afterwards are
    4 for pool 0 and 5 for pool 1, not 5 and 4. *)
Lemma scenario_A_as_stated_fails :
  freelen (kmem Small.booted 0) = 10 /\
  freelen (kmem Small.booted 1) = 0 /\
  exists r st',
    kalloc Small.NCPU 10 1 Small.booted = Ret r st' /\
    freelen (kmem st' 0) = 4 /\ freelen (kmem st' 1) = 5 /\
    ~ (freelen (kmem st' 0) = 5 /\ freelen (kmem st' 1) = 4).
Proof.
  split; [vm_compute; reflexivity|]. split; [vm_compute; reflexivity|].
  exists 2147655680, Small.after_alloc1.
  split; [exact small_alloc1|].
  split; [vm_compute; reflexivity|]. split; [vm_compute; reflexivity|].
  intros [C _]. vm_compute in C. discriminate.
Qed.

Lemma scenario_A_witness :
  exists ls,
    wf Small.NCPU Small.booted ls /\
    length (ls 0%nat) = 10%nat /\ ls 1%nat = [] /\
    exists r st' lr l2,
      kalloc Small.NCPU 10 1 Small.booted = Ret r st' /\
      freelen (kmem st' 0) = 4 /\ freelen (kmem st' 1) = 5 /\
      ls 0%nat = r :: lr ++ l2 /\
      length lr = 5%nat /\ length l2 = 4%nat /\
      flist (mem st') (freelist (kmem st' 1)) lr /\
      flist (mem st') (freelist (kmem st' 0)) l2.
Proof.
  destruct small_inv as [ls I].
  destruct (small_lists ls (inv_wf _ _ _ _ _ _ I)) as [L0 L1].
  exists ls. split; [exact (inv_wf _ _ _ _ _ _ I)|]. split; [exact L0|]. split; [exact L1|].
  apply (scenario_A_counts Small.NCPU 10 0 1 Small.booted ls).
  - exact (inv_wf _ _ _ _ _ _ I).
  - exact (inv_unlocked _ _ _ _ _ _ I).
  - unfold Small.NCPU. lia.
  - unfold Small.NCPU. lia.
  - lia.
  - exact L0.
  - exact L1.
  - unfold Small.NCPU. intros i Hi H0 H1. lia.
  - lia.
Defined.

Lemma rebalance_conservation_witness :
  (exists ls r st' lid ld,
     wf Small.NCPU Small.holding1 ls /\
     reschedule Small.NCPU 5 1 1 Small.holding1 = Ret r st' /\
     (1 <= length (ls 0%nat))%nat /\
     ls 0%nat = r :: lid ++ ld /\
     flist (mem st') (freelist (kmem st' 0)) ld /\
     freelen (kmem st' 0) = Z.of_nat (length ld) /\
     flist (mem st') (freelist (kmem st' 1)) lid /\
     freelen (kmem st' 1) = Z.of_nat (length lid) /\
     freelen (kmem st' 0) + freelen (kmem st' 1) = Z.of_nat (length (ls 0%nat)) - 1 /\
     wf Small.NCPU st' (upd (upd ls 0%nat ld) 1%nat lid)) /\
  free_total Small.NCPU Small.booted + Z.of_nat (length (@nil Z)) =
  npages Small.kend Small.PHYSTOP.
Proof.
  destruct (rebalance_conservation Small.NCPU Small.kend Small.PHYSTOP
              small_kend_pos small_PHYSTOP_max small_npages) as [Hres Hcons].
  split; [|exact (Hcons Small.booted [] small_reach)].
  destruct small_inv as [ls I].
  destruct (small_lists ls (inv_wf _ _ _ _ _ _ I)) as [L0 L1].
  assert (W : wf Small.NCPU Small.holding1 ls).
  { apply wf_frame with (st := Small.booted).
    - exact (inv_wf _ _ _ _ _ _ I).
    - intros j. unfold Small.holding1. split.
      + apply freelist_set_lock.
      + apply freelen_set_lock.
    - intros j a _ _. unfold Small.holding1. now rewrite mem_set_lock. }
  destruct (Hres 5%nat 1%nat 1%nat Small.holding1 ls 0%nat W)
    as (r & st' & lid & ld & H).
  - unfold Small.NCPU. lia.
  - vm_compute. reflexivity.
  - intros i Hi Hne. unfold Small.NCPU in Hi.
    assert (i = 0%nat) as -> by lia. vm_compute. reflexivity.
  - exact L1.
  - vm_compute. reflexivity.
  - rewrite L0. vm_compute. lia.
  - exists ls, r, st', lid, ld. split; [exact W|exact H].
Defined.

Lemma kfree_contract_witness :
  ((exists msg,
      kfree Small.kend Small.PHYSTOP 0 2147655680 Small.after_alloc1 = Panic msg) <->
   bad_address Small.kend Small.PHYSTOP 2147655680) /\
  (~ bad_address Small.kend Small.PHYSTOP 2147655680 ->
   exists st',
     kfree Small.kend Small.PHYSTOP 0 2147655680 Small.after_alloc1 = Ret tt st' /\
     (forall x, 2147655680 + 8 <= x < 2147655680 + PGSIZE -> mem st' x = 1) /\
     (forall x, 2147655680 <= x < 2147655680 + PGSIZE ->
        mem st' x = store64 (memset_bytes (mem Small.after_alloc1) 2147655680 1 PGSIZE)
                            2147655680 (freelist (kmem Small.after_alloc1 0)) x) /\
     load64 (mem st') 2147655680 = freelist (kmem Small.after_alloc1 0) /\
     freelist (kmem st' 0) = 2147655680 /\
     (forall l, flist (mem Small.after_alloc1) (freelist (kmem Small.after_alloc1 0)) l ->
                (forall a, In a l -> a + 8 <= 2147655680 \/ 2147655680 + PGSIZE <= a) ->
                flist (mem st') (freelist (kmem st' 0)) (2147655680 :: l)) /\
     freelen (kmem st' 0) = freelen (kmem Small.after_alloc1 0) + 1 /\
     lock (kmem st' 0) = None /\
     (forall i, i <> 0%nat -> kmem st' i = kmem Small.after_alloc1 i) /\
     (forall x, x < 2147655680 \/ 2147655680 + PGSIZE <= x ->
                mem st' x = mem Small.after_alloc1 x)).
Proof.
  apply (kfree_contract Small.kend Small.PHYSTOP small_kend_pos 0 2147655680
           Small.after_alloc1).
  - vm_compute. reflexivity.
  - vm_compute. split; [discriminate | reflexivity].
  - vm_compute. split; [discriminate | reflexivity].
Defined.

Lemma kalloc_exhaustion_witness :
  exists ls,
    wf Small.NCPU Small.booted ls /\
    ((forall i, (i < Small.NCPU)%nat -> ls i = []) ->
     exists st', kalloc Small.NCPU 10 1 Small.booted = Ret 0 st' /\
                 mem st' = mem Small.booted /\
                 (forall i, kmem st' i = kmem Small.booted i)) /\
    ((exists i, (i < Small.NCPU)%nat /\ ls i <> []) ->
     exists r st' ls',
       kalloc Small.NCPU 10 1 Small.booted = Ret r st' /\ r <> 0 /\
       (exists i, (i < Small.NCPU)%nat /\ In r (ls i)) /\
       wf Small.NCPU st' ls' /\ unlocked Small.NCPU st' /\
       (forall i, (i < Small.NCPU)%nat -> ~ In r (ls' i)) /\
       (forall i a, (i < Small.NCPU)%nat -> In a (ls' i) ->
                    exists j, (j < Small.NCPU)%nat /\ In a (ls j)) /\
       sumf (lens ls') Small.NCPU = sumf (lens ls) Small.NCPU - 1 /\
       free_total Small.NCPU st' = free_total Small.NCPU Small.booted - 1).
Proof.
  destruct small_inv as [ls I].
  destruct (small_lists ls (inv_wf _ _ _ _ _ _ I)) as [L0 L1].
  exists ls. split; [exact (inv_wf _ _ _ _ _ _ I)|].
  apply (kalloc_exhaustion Small.NCPU 10 1 Small.booted ls).
  - exact (inv_wf _ _ _ _ _ _ I).
  - exact (inv_unlocked _ _ _ _ _ _ I).
  - unfold Small.NCPU. lia.
  - unfold Small.NCPU. intros i Hi.
    assert (i = 0 \/ i = 1)%nat as [-> | ->] by lia.
    + rewrite L0. lia.
    + rewrite L1. cbn [length]. lia.
Defined.

Lemma kalloc_fills_page_witness :
  (forall x, 2147655680 <= x < 2147655680 + PGSIZE -> mem Small.after_alloc1 x = 5) /\
  load64 (mem Small.after_alloc1) 2147655680 = 361700864190383365.
Proof.
  apply (kalloc_fills_page Small.NCPU 10 1 Small.booted 2147655680 Small.after_alloc1).
  - exact small_alloc1.
  - discriminate.
Defined.

(** *** The further facts on the small machine *)

Lemma small_reach1 :
  reach Small.NCPU Small.kend Small.PHYSTOP Small.after_alloc1 [2147655680].
Proof.
  apply (reach_alloc Small.NCPU Small.kend Small.PHYSTOP Small.booted [] 10 1
           2147655680 Small.after_alloc1).
  - exact small_reach.
  - unfold Small.NCPU. lia.
  - exact small_alloc1.
Defined.

Lemma small_inv1 :
  exists ls, inv Small.NCPU Small.kend Small.PHYSTOP Small.after_alloc1 [2147655680] ls.
Proof.
  apply reach_inv.
  - exact small_kend_pos.
  - exact small_PHYSTOP_max.
  - exact small_npages.
  - exact small_reach1.
Defined.

Lemma small_st0_wf : wf Small.NCPU Small.st0 (fun _ => []).
Proof. apply boot_wf. intros i. reflexivity. Defined.

Lemma small_st0_unlocked : unlocked Small.NCPU Small.st0.
Proof. intros i _. reflexivity. Defined.

Lemma freerange_whole_pages_witness :
  exists st',
    freerange Small.kend Small.PHYSTOP 10 0 2147618817 2147659676 Small.st0 = Ret tt st' /\
    freelen (kmem st' 0) =
      freelen (kmem Small.st0 0) + remaining 2147659676 (PGROUNDUP 2147618817) /\
    (forall i, i <> 0%nat -> kmem st' i = kmem Small.st0 i).
Proof.
  destruct (freerange_whole_pages Small.NCPU Small.kend Small.PHYSTOP
              small_kend_pos small_PHYSTOP_max 10 0 2147618817 2147659676
              Small.st0 (fun _ => []) small_st0_wf small_st0_unlocked)
    as (st' & Hrun & _ & _ & Hlen & Hk & _).
  - unfold Small.NCPU. lia.
  - unfold Small.kend. lia.
  - unfold Small.PHYSTOP. lia.
  - unfold PGSIZE. lia.
  - unfold PGSIZE. lia.
  - intros i a _ [].
  - vm_compute. reflexivity.
  - apply Nat.leb_le. vm_compute. reflexivity.
  - exists st'. split; [exact Hrun|]. split; [exact Hlen|exact Hk].
Defined.

Lemma kinit_gives_all_pages_to_caller_witness :
  exists st,
    kinit Small.NCPU Small.kend Small.PHYSTOP 10 0 (boot (fun _ => 0)) = Ret tt st /\
    flist (mem st) (freelist (kmem st 0)) (rev (managed Small.kend Small.PHYSTOP)) /\
    freelen (kmem st 0) = npages Small.kend Small.PHYSTOP /\
    (forall i, i <> 0%nat -> kmem st i = mkpool None 0 0).
Proof.
  destruct (kinit_gives_all_pages_to_caller Small.NCPU Small.kend Small.PHYSTOP
              small_kend_pos small_PHYSTOP_max small_npages (fun _ => 0) 10 0)
    as (st & Hrun & Hfl & Hlen & Hk & _).
  - unfold Small.NCPU. lia.
  - apply Nat.leb_le. vm_compute. reflexivity.
  - unfold Small.kend, PGSIZE. lia.
  - unfold Small.PHYSTOP, PGSIZE. lia.
  - exists st. split; [exact Hrun|]. split; [exact Hfl|]. split; [exact Hlen|exact Hk].
Defined.

Lemma checklen_verdict_witness :
  exists ls,
    wf Small.NCPU Small.booted ls /\
    ((forall i, (i < Small.NCPU)%nat ->
        freelen (kmem Small.booted i) = Z.of_nat (length (ls i))) ->
     exists st',
       checklen Small.NCPU 10 0 0 Small.booted = Ret tt st' /\
       mem st' = mem Small.booted /\ (forall i, kmem st' i = kmem Small.booted i)) /\
    ((exists i, (i < Small.NCPU)%nat /\
                freelen (kmem Small.booted i) <> Z.of_nat (length (ls i))) ->
     checklen Small.NCPU 10 0 0 Small.booted = Panic checklen_msg).
Proof.
  destruct small_inv as [ls I].
  pose proof (inv_wf _ _ _ _ _ _ I) as W.
  destruct (small_lists ls W) as [L0 L1].
  exists ls. split; [exact W|].
  apply (checklen_verdict Small.NCPU 10 0 0 Small.booted ls).
  - intros i Hi. apply (wf_list _ _ _ W i Hi).
  - intros i Hi. apply (wf_range _ _ _ W i Hi).
  - unfold Small.NCPU. intros i Hi.
    assert (i = 0 \/ i = 1)%nat as [-> | ->] by lia.
    + rewrite L0. lia.
    + rewrite L1. cbn [length]. lia.
  - intros i Hi _. apply (inv_unlocked _ _ _ _ _ _ I i Hi).
Defined.

Lemma kalloc_pops_local_head_witness :
  exists ls a l st',
    wf Small.NCPU Small.booted ls /\ ls 0%nat = a :: l /\
    kalloc Small.NCPU 10 0 Small.booted = Ret a st' /\
    wf Small.NCPU st' (upd ls 0%nat l) /\
    freelen (kmem st' 0) = freelen (kmem Small.booted 0) - 1 /\
    (forall i, i <> 0%nat -> kmem st' i = kmem Small.booted i).
Proof.
  destruct small_inv as [ls I].
  pose proof (inv_wf _ _ _ _ _ _ I) as W.
  destruct (small_lists ls W) as [L0 L1].
  destruct (ls 0%nat) as [|a l] eqn:E; [cbn [length] in L0; lia|].
  destruct (kalloc_pops_local_head Small.NCPU 10 0 Small.booted ls a l W
              (inv_unlocked _ _ _ _ _ _ I))
    as (st' & Hrun & W' & _ & Hlen & Hk & _).
  - unfold Small.NCPU. lia.
  - exact E.
  - exists ls, a, l, st'. rewrite E.
    split; [exact W|]. split; [reflexivity|]. split; [exact Hrun|].
    split; [exact W'|]. split; [exact Hlen|exact Hk].
Defined.

Lemma kfree_then_kalloc_returns_page_witness :
  exists ls st1 st2,
    wf Small.NCPU Small.after_alloc1 ls /\
    kfree Small.kend Small.PHYSTOP 0 2147655680 Small.after_alloc1 = Ret tt st1 /\
    kalloc Small.NCPU 10 0 st1 = Ret 2147655680 st2 /\
    wf Small.NCPU st2 ls /\
    (forall i, kmem st2 i = kmem Small.after_alloc1 i).
Proof.
  destruct small_inv1 as [ls I].
  pose proof (inv_wf _ _ _ _ _ _ I) as W.
  destruct (kfree_then_kalloc_returns_page Small.NCPU Small.kend Small.PHYSTOP
              small_kend_pos small_PHYSTOP_max 10 0 2147655680 Small.after_alloc1 ls
              W (inv_unlocked _ _ _ _ _ _ I))
    as (st1 & st2 & H1 & H2 & W2 & Hk & _).
  - unfold Small.NCPU. lia.
  - apply (inv_out_good _ _ _ _ _ _ I). now left.
  - intros i Hi. apply (inv_out_disj _ _ _ _ _ _ I); [now left|exact Hi].
  - pose proof (wf_len _ _ _ W 0%nat) as L.
    assert (E : freelen (kmem Small.after_alloc1 0) = 4) by (vm_compute; reflexivity).
    rewrite E in L. unfold Small.NCPU in L. lia.
  - exists ls, st1, st2.
    split; [exact W|]. split; [exact H1|]. split; [exact H2|].
    split; [exact W2|exact Hk].
Defined.

Lemma double_free_hands_out_page_twice_witness :
  exists st1 st2 st3 st4,
    kfree Small.kend Small.PHYSTOP 0 2147655680 Small.after_alloc1 = Ret tt st1 /\
    kfree Small.kend Small.PHYSTOP 0 2147655680 st1 = Ret tt st2 /\
    freelist (kmem st2 0) = 2147655680 /\ load64 (mem st2) 2147655680 = 2147655680 /\
    freelen (kmem st2 0) = freelen (kmem Small.after_alloc1 0) + 2 /\
    kalloc Small.NCPU 10 0 st2 = Ret 2147655680 st3 /\
    kalloc Small.NCPU 10 0 st3 = Ret 2147655680 st4 /\
    freelist (kmem st4 0) = 361700864190383365 /\
    freelen (kmem st4 0) = freelen (kmem Small.after_alloc1 0).
Proof.
  apply (double_free_hands_out_page_twice Small.NCPU Small.kend Small.PHYSTOP
           small_kend_pos small_PHYSTOP_max 10 0 2147655680 Small.after_alloc1).
  - vm_compute. reflexivity.
  - unfold bad_address, Small.kend, Small.PHYSTOP, PGSIZE.
    intros [C|[C|C]]; [apply C; reflexivity|lia|lia].
  - vm_compute. split; [discriminate | reflexivity].
Defined.

Lemma kalloc_steals_from_fullest_witness :
  exists ls r lr l2 st',
    wf Small.NCPU Small.booted ls /\ ls 1%nat = [] /\
    kalloc Small.NCPU 10 1 Small.booted = Ret r st' /\
    ls 0%nat = r :: lr ++ l2 /\ length lr = (length (ls 0%nat) / 2)%nat /\
    freelen (kmem st' 1) = Z.of_nat (length (ls 0%nat) / 2) /\
    freelen (kmem st' 0) = Z.of_nat (length (ls 0%nat) - 1 - length (ls 0%nat) / 2).
Proof.
  destruct small_inv as [ls I].
  pose proof (inv_wf _ _ _ _ _ _ I) as W.
  destruct (small_lists ls W) as [L0 L1].
  destruct (kalloc_steals_from_fullest Small.NCPU 10 1 Small.booted ls 0 W
              (inv_unlocked _ _ _ _ _ _ I))
    as (r & lr & l2 & st' & Hrun & Hsplit & Hlr & _ & _ & Hc & Hd & _).
  - unfold Small.NCPU. lia.
  - unfold Small.NCPU. lia.
  - lia.
  - exact L1.
  - intros C. rewrite C in L0. cbn [length] in L0. lia.
  - unfold Small.NCPU. intros i Hi Hne. assert (i = 0%nat) as -> by lia. lia.
  - intros i Hi. lia.
  - rewrite L0. apply Nat.leb_le. vm_compute. reflexivity.
  - exists ls, r, lr, l2, st'.
    split; [exact W|]. split; [exact L1|]. split; [exact Hrun|].
    split; [exact Hsplit|]. split; [exact Hlr|]. split; [exact Hc|exact Hd].
Defined.

Lemma kalloc_returns_unused_managed_page_witness :
  ~ In 2147655680 (@nil Z) /\ In 2147655680 (managed Small.kend Small.PHYSTOP) /\
  2147655680 mod PGSIZE = 0 /\ Small.kend <= 2147655680 /\
  2147655680 + PGSIZE <= Small.PHYSTOP.
Proof.
  apply (kalloc_returns_unused_managed_page Small.NCPU Small.kend Small.PHYSTOP
           small_kend_pos small_PHYSTOP_max small_npages Small.booted [] 10 1
           2147655680 Small.after_alloc1).
  - exact small_reach.
  - unfold Small.NCPU. lia.
  - exact small_alloc1.
  - discriminate.
Defined.

Lemma kalloc_fails_iff_all_pages_out_witness :
  exists r st',
    kalloc Small.NCPU 10 1 Small.after_alloc1 = Ret r st' /\
    (r = 0 <-> Z.of_nat (length [2147655680]) = npages Small.kend Small.PHYSTOP).
Proof.
  apply (kalloc_fails_iff_all_pages_out Small.NCPU Small.kend Small.PHYSTOP
           small_kend_pos small_PHYSTOP_max small_npages Small.after_alloc1
           [2147655680] 10 1).
  - exact small_reach1.
  - unfold Small.NCPU. lia.
  - apply Nat.leb_le. vm_compute. reflexivity.
Defined.

Lemma allocated_pages_untouched_witness :
  (forall fuel cpu r st',
     (cpu < Small.NCPU)%nat -> kalloc Small.NCPU fuel cpu Small.after_alloc1 = Ret r st' ->
     mem st' 2147655700 = mem Small.after_alloc1 2147655700) /\
  (forall cpu pa st',
     (cpu < Small.NCPU)%nat -> pa <> 2147655680 ->
     kfree Small.kend Small.PHYSTOP cpu pa Small.after_alloc1 = Ret tt st' ->
     mem st' 2147655700 = mem Small.after_alloc1 2147655700).
Proof.
  apply (allocated_pages_untouched Small.NCPU Small.kend Small.PHYSTOP
           small_kend_pos small_PHYSTOP_max small_npages Small.after_alloc1
           [2147655680] 2147655680 2147655700).
  - exact small_reach1.
  - now left.
  - unfold PGSIZE. lia.
Defined.

Lemma checklen_passes_in_reachable_states_witness :
  exists st',
    checklen Small.NCPU 10 1 1 Small.after_alloc1 = Ret tt st' /\
    mem st' = mem Small.after_alloc1 /\
    (forall i, kmem st' i = kmem Small.after_alloc1 i).
Proof.
  apply (checklen_passes_in_reachable_states Small.NCPU Small.kend Small.PHYSTOP
           small_kend_pos small_PHYSTOP_max small_npages Small.after_alloc1
           [2147655680] 10 1 1).
  - exact small_reach1.
  - apply Nat.leb_le. vm_compute. reflexivity.
Defined.

Lemma two_empty_cores_block_each_other_witness :
  reschedule Small.NCPU 10 0 0
    (set_lock 0 (Some 0%nat) (set_lock 1 (Some 1%nat) (boot (fun _ => 0)))) = Spin /\
  reschedule Small.NCPU 10 1 1
    (set_lock 0 (Some 0%nat) (set_lock 1 (Some 1%nat) (boot (fun _ => 0)))) = Spin.
Proof.
  apply (two_empty_cores_block_each_other Small.NCPU 10 0 1).
  - unfold Small.NCPU. lia.
  - unfold Small.NCPU. lia.
  - lia.
  - reflexivity.
  - reflexivity.
  - reflexivity.
  - reflexivity.
  - unfold Small.NCPU. intros i Hi H0 H1. lia.
Defined.

Lemma trio_unlocked : unlocked Trio.NCPU Trio.booted.
Proof.
  intros i Hi. unfold Trio.NCPU in Hi.
  destruct i as [|[|[|i]]]; [vm_compute; reflexivity..|lia].
Defined.

(** After boot pool 0 holds the ten pages and the lists of cores 1 and 2 are
    empty; the two cores allocate at the same time. *)
Lemma concurrent_kalloc_never_returns_witness :
  freelen (kmem Trio.booted 0) = 10 /\
  kalloc Trio.NCPU 10 2 (set_lock 1 (Some 1%nat) Trio.booted) = Spin /\
  reschedule Trio.NCPU 10 1 1
    (set_lock 2 (Some 2%nat) (set_lock 1 (Some 1%nat) Trio.booted)) = Spin /\
  reschedule Trio.NCPU 10 2 2
    (set_lock 2 (Some 2%nat) (set_lock 1 (Some 1%nat) Trio.booted)) = Spin.
Proof.
  split; [vm_compute; reflexivity|].
  destruct (concurrent_kalloc_never_returns Trio.NCPU 10 1 2 Trio.booted)
    as (_ & H1 & _ & H2 & H3).
  - unfold Trio.NCPU. lia.
  - unfold Trio.NCPU. lia.
  - lia.
  - exact trio_unlocked.
  - vm_compute. reflexivity.
  - vm_compute. reflexivity.
  - split; [exact H1|split; [exact H2|exact H3]].
Defined.

End KallocFacts.

(* ===================================================================== *)
(** ** Facts about bio.c *)

Module BioFacts.
Import Common Bio.

Ltac run :=
  cbv beta iota delta [bind gets modify ret panic out_of_fuel spin undef].

Lemma ptr_eqb_spec p q : reflect (p = q) (ptr_eqb p q).
Proof.
  destruct p as [|i|j], q as [|i'|j']; simpl; try (constructor; congruence).
  - destruct (Nat.eqb_spec i i'); constructor; congruence.
  - destruct (Nat.eqb_spec j j'); constructor; congruence.
Qed.

Lemma ptr_eqb_refl p : ptr_eqb p p = true.
Proof. destruct (ptr_eqb_spec p p); congruence. Qed.

(** Field by field. *)

Lemma bufs_set_buf j b s k :
  bufs (set_buf j b s) k = if Nat.eqb k j then b else bufs s k.
Proof. reflexivity. Qed.
Lemma bufs_set_tlock i l s : bufs (set_tlock i l s) = bufs s.
Proof. reflexivity. Qed.
Lemma bufs_set_head i b s : bufs (set_head i b s) = bufs s.
Proof. reflexivity. Qed.
Lemma bufs_set_bcache_lock l s : bufs (set_bcache_lock l s) = bufs s.
Proof. reflexivity. Qed.
Lemma bufs_log_io e s : bufs (log_io e s) = bufs s.
Proof. reflexivity. Qed.
Lemma table_set_buf j b s : table (set_buf j b s) = table s.
Proof. reflexivity. Qed.
Lemma table_set_bcache_lock l s : table (set_bcache_lock l s) = table s.
Proof. reflexivity. Qed.
Lemma table_log_io e s : table (log_io e s) = table s.
Proof. reflexivity. Qed.
Lemma tlock_set_tlock i l s k :
  tlock (table (set_tlock i l s) k) = if Nat.eqb k i then l else tlock (table s k).
Proof. simpl. unfold upd. now destruct (Nat.eqb k i). Qed.
Lemma head_set_tlock i l s k :
  head (table (set_tlock i l s) k) = head (table s k).
Proof. simpl. unfold upd. destruct (Nat.eqb_spec k i); now subst. Qed.
Lemma tlock_set_head i b s k :
  tlock (table (set_head i b s) k) = tlock (table s k).
Proof. simpl. unfold upd. destruct (Nat.eqb_spec k i); now subst. Qed.
Lemma head_set_head i b s k :
  head (table (set_head i b s) k) = if Nat.eqb k i then b else head (table s k).
Proof. simpl. unfold upd. now destruct (Nat.eqb k i). Qed.
Lemma bcache_lock_set_buf j b s : bcache_lock (set_buf j b s) = bcache_lock s.
Proof. reflexivity. Qed.
Lemma bcache_lock_set_tlock i l s : bcache_lock (set_tlock i l s) = bcache_lock s.
Proof. reflexivity. Qed.
Lemma bcache_lock_set_head i b s : bcache_lock (set_head i b s) = bcache_lock s.
Proof. reflexivity. Qed.
Lemma bcache_lock_set_bcache_lock l s : bcache_lock (set_bcache_lock l s) = l.
Proof. reflexivity. Qed.
Lemma io_set_buf j b s : io (set_buf j b s) = io s.
Proof. reflexivity. Qed.
Lemma io_set_tlock i l s : io (set_tlock i l s) = io s.
Proof. reflexivity. Qed.
Lemma io_set_head i b s : io (set_head i b s) = io s.
Proof. reflexivity. Qed.
Lemma io_set_bcache_lock l s : io (set_bcache_lock l s) = io s.
Proof. reflexivity. Qed.
Lemma ticks_set_buf j b s : ticks (set_buf j b s) = ticks s.
Proof. reflexivity. Qed.
Lemma ticks_set_tlock i l s : ticks (set_tlock i l s) = ticks s.
Proof. reflexivity. Qed.
Lemma beyond_set_buf j b s : beyond (set_buf j b s) = beyond s.
Proof. reflexivity. Qed.
Lemma beyond_set_tlock i l s : beyond (set_tlock i l s) = beyond s.
Proof. reflexivity. Qed.
Lemma beyond_set_head i b s : beyond (set_head i b s) = beyond s.
Proof. reflexivity. Qed.
Lemma beyond_set_bcache_lock l s : beyond (set_bcache_lock l s) = beyond s.
Proof. reflexivity. Qed.

Create Rewrite HintDb bst.
#[local] Hint Rewrite bufs_set_buf bufs_set_tlock bufs_set_head bufs_set_bcache_lock
  bufs_log_io table_set_buf table_set_bcache_lock table_log_io
  tlock_set_tlock head_set_tlock tlock_set_head head_set_head
  bcache_lock_set_buf bcache_lock_set_tlock bcache_lock_set_head
  bcache_lock_set_bcache_lock io_set_buf io_set_tlock io_set_head
  io_set_bcache_lock ticks_set_buf ticks_set_tlock
  beyond_set_buf beyond_set_tlock beyond_set_head beyond_set_bcache_lock
  Nat.eqb_refl : bst.

Ltac bst := autorewrite with bst in *.

Lemma bucket_eq (x y : hashtable) : tlock x = tlock y -> head x = head y -> x = y.
Proof. destruct x, y; simpl; congruence. Qed.

Lemma sholding_self pid : holdingsleep pid (Some pid) = true.
Proof. simpl. apply Nat.eqb_refl. Qed.

Lemma bholding_self cpu : holding cpu (Some cpu) = true.
Proof. simpl. apply Nat.eqb_refl. Qed.

Section Facts.

Variable NBUF : nat.
Variable NBUCKET : nat.

Local Abbreviation deref := (deref NBUF NBUCKET).
Local Abbreviation rd := (rd NBUF NBUCKET).
Local Abbreviation wr := (wr NBUF NBUCKET).

(** *** Reading and writing through pointers *)

Lemma deref_buf s j : (j < NBUF)%nat -> deref s (Buf j) = Some (bufs s j).
Proof. intros H. simpl. apply Nat.ltb_lt in H. now rewrite H. Qed.

Lemma deref_head s i : (i < NBUCKET)%nat -> deref s (Head i) = Some (head (table s i)).
Proof. intros H. simpl. apply Nat.ltb_lt in H. now rewrite H. Qed.

Lemma rd_buf {A} s j (f : buf -> A) :
  (j < NBUF)%nat -> rd (Buf j) f s = Ret (f (bufs s j)) s.
Proof. intros H. unfold Bio.rd. now rewrite deref_buf. Qed.

Lemma rd_head {A} s i (f : buf -> A) :
  (i < NBUCKET)%nat -> rd (Head i) f s = Ret (f (head (table s i))) s.
Proof. intros H. unfold Bio.rd. now rewrite deref_head. Qed.

Lemma wr_buf s j f :
  (j < NBUF)%nat -> wr (Buf j) f s = Ret tt (set_buf j (f (bufs s j)) s).
Proof. intros H. unfold Bio.wr. now rewrite deref_buf. Qed.

Lemma wr_head s i f :
  (i < NBUCKET)%nat -> wr (Head i) f s = Ret tt (set_head i (f (head (table s i))) s).
Proof. intros H. unfold Bio.wr. now rewrite deref_head. Qed.

Lemma deref_assign s p b0 b :
  deref s p = Some b0 -> deref (assign p b s) p = Some b.
Proof.
  destruct p as [|i|j]; simpl; [discriminate| |].
  - destruct (i <? NBUCKET)%nat; [|discriminate]. intros _.
    unfold upd. now rewrite Nat.eqb_refl.
  - destruct (j <? NBUF)%nat; [|discriminate]. intros _.
    unfold upd. now rewrite Nat.eqb_refl.
Qed.

Lemma deref_set_tlock s i l p : deref (set_tlock i l s) p = deref s p.
Proof.
  destruct p as [|i'|j]; simpl; auto.
  destruct (i' <? NBUCKET)%nat; auto. unfold upd.
  destruct (Nat.eqb_spec i' i); subst; auto.
Qed.

Lemma deref_set_bcache_lock s l p : deref (set_bcache_lock l s) p = deref s p.
Proof. destruct p; reflexivity. Qed.

(** *** Chains *)

Lemma chain_ext s s' p l q :
  (forall j, In j l -> next (bufs s' j) = next (bufs s j)) ->
  chain NBUF s p l q -> chain NBUF s' p l q.
Proof.
  revert p. induction l as [|j l IH]; intros p E H; simpl in *; [exact H|].
  destruct H as (-> & Hj & H). repeat split; auto.
  rewrite E by auto. apply IH; auto.
Qed.

(** The search of lines 83-90 stops on the first slot of the list that is
    bound to the block. *)
Lemma lookup_hit idx d bn s : forall fuel l1 j l2 p q,
  chain NBUF s p (l1 ++ j :: l2) q ->
  (forall k, In k l1 -> ~ bound_to s d bn k) ->
  bound_to s d bn j ->
  (length l1 < fuel)%nat ->
  lookup NBUF NBUCKET fuel idx d bn p s = Ret (Some (Buf j)) s.
Proof.
  induction fuel as [|f IH]; intros l1 j l2 p q Hc Hno Hj Hf; [lia|].
  destruct l1 as [|k l1]; simpl in Hc; destruct Hc as (-> & Hk & Hc); cbn [lookup ptr_eqb].
  - run. rewrite !rd_buf by auto. destruct Hj as [-> ->].
    rewrite !Z.eqb_refl. reflexivity.
  - run. rewrite !rd_buf by auto.
    assert (Hn : (dev (bufs s k) =? d) && (blockno (bufs s k) =? bn) = false).
    { destruct (Z.eqb_spec (dev (bufs s k)) d); [|reflexivity].
      destruct (Z.eqb_spec (blockno (bufs s k)) bn); [|reflexivity].
      exfalso. apply (Hno k); [now left | split; auto]. }
    rewrite Hn. cbv beta iota. rewrite rd_buf by auto. eapply IH; eauto.
    + intros k' Hk'. apply Hno. now right.
    + simpl in Hf. lia.
Qed.

(** With no such slot in the list, the search ends at the head with
    nothing, or has not got there yet. *)
Lemma lookup_miss idx d bn s : forall fuel l p,
  chain NBUF s p l (Head idx) ->
  (forall k, In k l -> ~ bound_to s d bn k) ->
  lookup NBUF NBUCKET fuel idx d bn p s =
  if (length l <=? fuel)%nat then Ret None s else Fuel.
Proof.
  induction fuel as [|f IH]; intros l p Hc Hno.
  - destruct l as [|k l]; simpl in Hc.
    + subst p. cbn [lookup]. rewrite ptr_eqb_refl. reflexivity.
    + destruct Hc as (-> & _). reflexivity.
  - destruct l as [|k l]; simpl in Hc.
    + subst p. cbn [lookup]. rewrite ptr_eqb_refl. reflexivity.
    + destruct Hc as (-> & Hk & Hc). cbn [lookup ptr_eqb]. run.
      rewrite !rd_buf by auto.
      assert (Hn : (dev (bufs s k) =? d) && (blockno (bufs s k) =? bn) = false).
      { destruct (Z.eqb_spec (dev (bufs s k)) d); [|reflexivity].
        destruct (Z.eqb_spec (blockno (bufs s k)) bn); [|reflexivity].
        exfalso. apply (Hno k); [now left | split; auto]. }
      rewrite Hn. cbv beta iota. rewrite rd_buf by auto. rewrite IH with (l := l); auto.
      intros k' Hk'. apply Hno. now right.
Qed.

(** *** Binding a slot *)

Lemma wr_inv p f s u s' :
  wr p f s = Ret u s' ->
  exists b0, deref s p = Some b0 /\ s' = assign p (f b0) s.
Proof.
  unfold Bio.wr. destruct (deref s p) as [b0|]; [|discriminate].
  intros H. inversion H. eauto.
Qed.

Lemma release_bucket_inv cpu i s u s' :
  release_bucket NBUCKET cpu i s = Ret u s' -> s' = set_tlock i None s.
Proof.
  unfold release_bucket. destruct (i <? NBUCKET)%nat; [|discriminate].
  destruct (holding cpu (tlock (table s i))); [|discriminate].
  intros H. now inversion H.
Qed.

Lemma acquiresleep_inv pid p s u s' :
  acquiresleep NBUF NBUCKET pid p s = Ret u s' ->
  exists b0, deref s p = Some b0 /\ lock b0 = None /\
             s' = assign p (set_lock (Some pid) b0) s.
Proof.
  unfold acquiresleep. run. unfold Bio.rd.
  destruct (deref s p) as [b0|] eqn:E; [|discriminate].
  destruct (lock b0) eqn:L; [discriminate|].
  intros H. apply wr_inv in H. destruct H as (b1 & E1 & ->).
  rewrite E in E1. inversion E1; subst b1. eauto.
Qed.

(** What the label [find] leaves in the slot it returns. *)
Lemma find_binds cpu pid idx replbuf d bn s p s' :
  find NBUF NBUCKET cpu pid idx replbuf d bn s = Ret p s' ->
  p = replbuf /\
  exists b, deref s' p = Some b /\
            dev b = d /\ blockno b = bn /\ valid b = 0 /\ refcnt b = 1 /\
            lock b = Some pid.
Proof.
  unfold find. run. intros H.
  destruct (wr replbuf (set_dev d) s) as [[] s1| | | |] eqn:W1; try discriminate.
  destruct (wr replbuf (set_blockno bn) s1) as [[] s2| | | |] eqn:W2; try discriminate.
  destruct (wr replbuf (set_valid 0) s2) as [[] s3| | | |] eqn:W3; try discriminate.
  destruct (wr replbuf (set_refcnt 1) s3) as [[] s4| | | |] eqn:W4; try discriminate.
  destruct (release_bucket NBUCKET cpu idx s4) as [[] s5| | | |] eqn:R; try discriminate.
  destruct (acquiresleep NBUF NBUCKET pid replbuf s5) as [[] s6| | | |] eqn:A;
    try discriminate.
  inversion H; subst p s'. split; [reflexivity|].
  apply wr_inv in W1. destruct W1 as (b0 & E0 & ->).
  apply wr_inv in W2. destruct W2 as (b1 & E1 & ->).
  rewrite (deref_assign _ _ _ _ E0) in E1. inversion E1; subst b1.
  apply wr_inv in W3. destruct W3 as (b2 & E2 & ->).
  rewrite (deref_assign _ _ _ _ (deref_assign _ _ _ (set_dev d b0) E0)) in E2.
  inversion E2; subst b2.
  apply wr_inv in W4. destruct W4 as (b3 & E3 & ->).
  match type of E3 with deref ?s0 _ = _ =>
    assert (E3' : exists x, deref s0 replbuf = Some x) by eauto end.
  rewrite (deref_assign _ _ _ _
             (deref_assign _ _ _ (set_blockno bn (set_dev d b0))
                (deref_assign _ _ _ (set_dev d b0) E0))) in E3.
  inversion E3; subst b3.
  apply release_bucket_inv in R. subst s5.
  apply acquiresleep_inv in A. destruct A as (b4 & E4 & L4 & ->).
  rewrite deref_set_tlock in E4.
  destruct E3' as [x Ex].
  rewrite (deref_assign _ _ _ _ Ex) in E4. inversion E4; subst b4.
  eexists. split.
  - eapply deref_assign. rewrite deref_set_tlock. eapply deref_assign. exact Ex.
  - simpl. auto.
Qed.

(** C7.  When the search of the bucket finds no slot bound to the block and
    [bget] returns, the slot it returns is bound to the requested device
    and block number, is marked invalid and has a reference count of 1,
    whichever way it was found (in the bucket, unbound, or in another
    bucket) and whatever it held before. *)
Theorem bget_miss_binds fuel cpu pid d bn s s1 p s' :
  search NBUF NBUCKET fuel cpu (Z.to_nat (hash NBUCKET bn)) d bn s = Ret None s1 ->
  bget NBUF NBUCKET fuel cpu pid d bn s = Ret p s' ->
  exists b, deref s' p = Some b /\
            dev b = d /\ blockno b = bn /\ valid b = 0 /\ refcnt b = 1.
Proof.
  intros Hs H. unfold bget in H.
  destruct (hash NBUCKET bn <? 0); [discriminate|].
  cbv zeta in H. revert H. run. rewrite Hs.
  destruct (rd (Head (Z.to_nat (hash NBUCKET bn))) next s1) as [hn s2| | | |];
    try discriminate.
  destruct (lru_bucket NBUF NBUCKET fuel _ hn UINT_MAX Null s2) as [r s3| | | |];
    try discriminate.
  destruct (negb (ptr_eqb r Null)).
  - intros H. apply find_binds in H. destruct H as (_ & b & Hb & H1 & H2 & H3 & H4 & _).
    eauto 10.
  - destruct (acquire_bcache cpu s3) as [[] s4| | | |]; try discriminate.
    destruct (global_loop NBUF NBUCKET fuel cpu _ r s4) as [res s5| | | |];
      try discriminate.
    destruct (snd res) as [ridx|].
    + destruct (migrate NBUF NBUCKET cpu _ ridx (fst res) s5) as [[] s6| | | |];
        try discriminate.
      intros H. apply find_binds in H.
      destruct H as (_ & b & Hb & H1 & H2 & H3 & H4 & _). eauto 10.
    + intros H. apply find_binds in H.
      destruct H as (_ & b & Hb & H1 & H2 & H3 & H4 & _). eauto 10.
Qed.

(** *** The hit path *)

Lemma acquire_bucket_free cpu i s :
  (i < NBUCKET)%nat -> tlock (table s i) = None ->
  acquire_bucket NBUCKET cpu i s = Ret tt (set_tlock i (Some cpu) s).
Proof.
  intros Hi Hl. unfold acquire_bucket. apply Nat.ltb_lt in Hi. now rewrite Hi, Hl.
Qed.

Lemma release_bucket_held cpu i s :
  (i < NBUCKET)%nat -> tlock (table s i) = Some cpu ->
  release_bucket NBUCKET cpu i s = Ret tt (set_tlock i None s).
Proof.
  intros Hi Hl. unfold release_bucket. apply Nat.ltb_lt in Hi.
  now rewrite Hi, Hl, bholding_self.
Qed.

Lemma chain_in_range s p l q j : chain NBUF s p l q -> In j l -> (j < NBUF)%nat.
Proof.
  revert p. induction l as [|k l IH]; intros p H Hin; [contradiction|].
  destruct H as (_ & Hk & H). destruct Hin as [<-|Hin]; eauto.
Qed.

Lemma same_but_slot_chain j s s' p l q :
  same_but_slot j s s' -> next (bufs s' j) = next (bufs s j) ->
  chain NBUF s p l q -> chain NBUF s' p l q.
Proof.
  intros (Hb & _) Hn. apply chain_ext. intros k _.
  destruct (Nat.eq_dec k j) as [->|Ne]; [exact Hn | now rewrite Hb].
Qed.

Lemma bget_hit fuel cpu pid d bn s idx l1 j l2 :
  0 <= hash NBUCKET bn -> idx = Z.to_nat (hash NBUCKET bn) ->
  bucket_list NBUF NBUCKET s idx (l1 ++ j :: l2) ->
  tlock (table s idx) = None ->
  (forall k, In k l1 -> ~ bound_to s d bn k) ->
  bound_to s d bn j ->
  lock (bufs s j) = None ->
  (length l1 < fuel)%nat ->
  exists s',
    bget NBUF NBUCKET fuel cpu pid d bn s = Ret (Buf j) s' /\
    bufs s' j = set_lock (Some pid)
                  (set_refcnt (uint32 (refcnt (bufs s j) + 1)) (bufs s j)) /\
    same_but_slot j s s'.
Proof.
  intros Hh Hidx [Hi Hc] Hl Hno Hj Hlk Hf.
  assert (Hjn : (j < NBUF)%nat).
  { eapply chain_in_range; eauto. apply in_or_app. right. now left. }
  eexists. split; [|split].
  - unfold bget. destruct (Z.ltb_spec (hash NBUCKET bn) 0); [lia|].
    cbv zeta. rewrite <- Hidx. unfold search. run.
    rewrite acquire_bucket_free by auto.
    rewrite rd_head by auto. bst.
    rewrite (lookup_hit idx d bn _ fuel l1 j l2 _ (Head idx));
      [| apply chain_ext with (s := s); auto | exact Hno | exact Hj | exact Hf].
    rewrite rd_buf, wr_buf by auto.
    rewrite release_bucket_held by (auto; bst; reflexivity).
    unfold acquiresleep. run. rewrite rd_buf by auto. bst.
    cbn [lock set_refcnt]. rewrite Hlk. rewrite wr_buf by auto. reflexivity.
  - bst. reflexivity.
  - unfold same_but_slot. bst. repeat split; auto.
    + intros k Hk. bst. destruct (Nat.eqb_spec k j); [congruence|reflexivity].
    + intros i. apply bucket_eq; bst; auto.
      destruct (Nat.eqb_spec i idx); subst; auto.
Qed.

Lemma same_but_slot_trans j s1 s2 s3 :
  same_but_slot j s1 s2 -> same_but_slot j s2 s3 -> same_but_slot j s1 s3.
Proof.
  intros (A1 & A2 & A3 & A4 & A5 & A6 & A7) (B1 & B2 & B3 & B4 & B5 & B6 & B7).
  split; [intros k Hk; rewrite B1, A1; auto|].
  split; [intros i; rewrite B2, A2; auto|].
  repeat split; congruence.
Qed.

(** The premises of a hit carry over to a state that differs in the slot
    at most, and there only outside its key and link. *)
Lemma hit_carries j s s' d bn idx l1 l2 :
  same_but_slot j s s' ->
  dev (bufs s' j) = dev (bufs s j) ->
  blockno (bufs s' j) = blockno (bufs s j) ->
  next (bufs s' j) = next (bufs s j) ->
  bucket_list NBUF NBUCKET s idx (l1 ++ j :: l2) ->
  (forall k, In k l1 -> ~ bound_to s d bn k) ->
  bound_to s d bn j ->
  bucket_list NBUF NBUCKET s' idx (l1 ++ j :: l2) /\
  (forall k, In k l1 -> ~ bound_to s' d bn k) /\
  bound_to s' d bn j.
Proof.
  intros F Hd Hb Hn [Hi Hc] Hno Hj.
  pose proof F as (Fb & Ft & _).
  split; [|split].
  - split; [exact Hi|]. rewrite Ft. eapply same_but_slot_chain; eauto.
  - intros k Hk. destruct (Nat.eq_dec k j) as [->|Ne].
    + exfalso. apply (Hno j Hk Hj).
    + unfold bound_to. rewrite Fb by auto. apply Hno; auto.
  - unfold bound_to in *. now rewrite Hd, Hb.
Qed.

(** [brelse] of a slot the caller holds. *)
Lemma brelse_held cpu pid s j idx :
  (j < NBUF)%nat -> lock (bufs s j) = Some pid ->
  0 <= hash NBUCKET (blockno (bufs s j)) ->
  idx = Z.to_nat (hash NBUCKET (blockno (bufs s j))) ->
  (idx < NBUCKET)%nat -> tlock (table s idx) = None ->
  exists s',
    brelse NBUF NBUCKET cpu pid (Buf j) s = Ret tt s' /\
    bufs s' j =
      (let b1 := set_refcnt (uint32 (refcnt (bufs s j) - 1)) (set_lock None (bufs s j)) in
       if uint32 (refcnt (bufs s j) - 1) =? 0 then set_timestamp (ticks s) b1 else b1) /\
    same_but_slot j s s'.
Proof.
  intros Hj Hlk Hh Hidx Hi Hl.
  destruct (uint32 (refcnt (bufs s j) - 1) =? 0) eqn:Ez;
  (eexists; split; [|split];
   [ unfold brelse; run; rewrite rd_buf by auto; rewrite Hlk, sholding_self;
     cbn [negb]; unfold releasesleep; rewrite wr_buf by auto;
     rewrite rd_buf by auto; bst; cbn [blockno set_lock];
     destruct (Z.ltb_spec (hash NBUCKET (blockno (bufs s j))) 0); [lia|];
     cbv zeta; rewrite <- Hidx;
     rewrite acquire_bucket_free by (auto; bst; auto);
     rewrite rd_buf, wr_buf by auto; rewrite rd_buf by auto; bst;
     cbn [refcnt set_refcnt set_lock]; rewrite Ez;
     try (rewrite wr_buf by auto);
     rewrite release_bucket_held by (auto; bst; reflexivity); reflexivity
   | bst; reflexivity
   | unfold same_but_slot; bst; repeat split; auto;
     [ intros k Hk; bst; destruct (Nat.eqb_spec k j); [congruence|reflexivity]
     | intros i; apply bucket_eq; bst; auto;
       destruct (Nat.eqb_spec i idx); subst; auto ] ]).
Qed.

(** A hit on a valid slot: [bread] transfers nothing. *)
Lemma bread_hit fuel cpu pid d bn s idx l1 j l2 :
  0 <= hash NBUCKET bn -> idx = Z.to_nat (hash NBUCKET bn) ->
  bucket_list NBUF NBUCKET s idx (l1 ++ j :: l2) ->
  tlock (table s idx) = None ->
  (forall k, In k l1 -> ~ bound_to s d bn k) ->
  bound_to s d bn j ->
  lock (bufs s j) = None ->
  (length l1 < fuel)%nat ->
  valid (bufs s j) <> 0 ->
  exists s',
    bread NBUF NBUCKET fuel cpu pid d bn s = Ret (Buf j) s' /\
    bufs s' j = set_lock (Some pid)
                  (set_refcnt (uint32 (refcnt (bufs s j) + 1)) (bufs s j)) /\
    same_but_slot j s s'.
Proof.
  intros Hh Hidx Hbl Hl Hno Hj Hlk Hf Hv.
  destruct (bget_hit fuel cpu pid d bn s idx l1 j l2 Hh Hidx Hbl Hl Hno Hj Hlk Hf)
    as (s' & Hrun & Hb & F).
  assert (Hjn : (j < NBUF)%nat).
  { destruct Hbl as [_ Hc]. eapply chain_in_range; eauto. apply in_or_app. right. now left. }
  exists s'. split; [|split; auto].
  unfold bread. run. rewrite Hrun. rewrite rd_buf by auto. rewrite Hb.
  cbn [valid set_lock set_refcnt].
  destruct (Z.eqb_spec (valid (bufs s j)) 0); [congruence|]. reflexivity.
Qed.

(** C6.  A slot bound to the block is in the list of its bucket (the first
    such slot, were there several): [bget] returns that slot with its
    reference count raised by one, the caller holding its lock, and nothing
    else changed, no list and no other slot.  If the slot is valid and the
    caller releases it and reads the block again, [bread] returns the same
    slot and no transfer from the device takes place. *)
Theorem hit_path fuel cpu pid d bn s idx l1 j l2 :
  0 <= hash NBUCKET bn -> idx = Z.to_nat (hash NBUCKET bn) ->
  bucket_list NBUF NBUCKET s idx (l1 ++ j :: l2) ->
  tlock (table s idx) = None ->
  (forall k, In k l1 -> ~ bound_to s d bn k) ->
  bound_to s d bn j ->
  lock (bufs s j) = None ->
  0 <= refcnt (bufs s j) < UINT_MAX ->
  (length l1 < fuel)%nat ->
  exists s1,
    bget NBUF NBUCKET fuel cpu pid d bn s = Ret (Buf j) s1 /\
    refcnt (bufs s1 j) = refcnt (bufs s j) + 1 /\
    lock (bufs s1 j) = Some pid /\
    bound_to s1 d bn j /\
    valid (bufs s1 j) = valid (bufs s j) /\
    next (bufs s1 j) = next (bufs s j) /\
    data (bufs s1 j) = data (bufs s j) /\
    same_but_slot j s s1 /\
    (valid (bufs s j) <> 0 ->
     exists s2 s3,
       brelse NBUF NBUCKET cpu pid (Buf j) s1 = Ret tt s2 /\
       bread NBUF NBUCKET fuel cpu pid d bn s2 = Ret (Buf j) s3 /\
       io s3 = io s /\
       valid (bufs s3 j) = valid (bufs s j) /\
       data (bufs s3 j) = data (bufs s j)).
Proof.
  intros Hh Hidx Hbl Hl Hno Hj Hlk Hrc Hf.
  destruct (bget_hit fuel cpu pid d bn s idx l1 j l2 Hh Hidx Hbl Hl Hno Hj Hlk Hf)
    as (s1 & Hrun & Hb & F).
  assert (Hjn : (j < NBUF)%nat).
  { destruct Hbl as [_ Hc]. eapply chain_in_range; eauto. apply in_or_app. right. now left. }
  assert (Hu : uint32 (refcnt (bufs s j) + 1) = refcnt (bufs s j) + 1).
  { unfold uint32, UINT_MAX in *. apply Z.mod_small. lia. }
  exists s1. split; [exact Hrun|].
  split; [rewrite Hb; cbn [refcnt set_lock set_refcnt]; exact Hu|].
  split; [rewrite Hb; reflexivity|].
  split; [unfold bound_to in *; rewrite Hb; exact Hj|].
  split; [rewrite Hb; reflexivity|]. split; [rewrite Hb; reflexivity|].
  split; [rewrite Hb; reflexivity|]. split; [exact F|].
  intros Hv.
  destruct Hj as [Hjd Hjb].
  pose proof F as (_ & Ft & _).
  destruct (brelse_held cpu pid s1 j idx) as (s2 & Hrel & Hb2 & F2); auto.
  { rewrite Hb. reflexivity. }
  { rewrite Hb. cbn [blockno set_lock set_refcnt]. rewrite Hjb. exact Hh. }
  { rewrite Hb. cbn [blockno set_lock set_refcnt]. rewrite Hjb. exact Hidx. }
  { destruct Hbl. auto. }
  { rewrite Ft. exact Hl. }
  assert (F12 : same_but_slot j s s2) by (eapply same_but_slot_trans; eauto).
  assert (K2 : dev (bufs s2 j) = dev (bufs s j) /\
               blockno (bufs s2 j) = blockno (bufs s j) /\
               next (bufs s2 j) = next (bufs s j) /\
               valid (bufs s2 j) = valid (bufs s j) /\
               data (bufs s2 j) = data (bufs s j) /\
               lock (bufs s2 j) = None).
  { rewrite Hb2, Hb. cbv zeta.
    match goal with |- context [if ?c then _ else _] => destruct c end;
      cbn [dev blockno next valid data lock set_timestamp set_refcnt set_lock];
      repeat split; reflexivity. }
  destruct K2 as (Kd & Kb & Kn & Kv & Kda & Kl).
  destruct (hit_carries j s s2 d bn idx l1 l2 F12 Kd Kb Kn Hbl Hno (conj Hjd Hjb))
    as (Hbl2 & Hno2 & Hj2).
  pose proof F12 as (_ & Ft2 & _ & _ & _ & _ & Fio2).
  destruct (bread_hit fuel cpu pid d bn s2 idx l1 j l2) as (s3 & Hrd & Hb3 & F3); auto.
  { rewrite Ft2. exact Hl. }
  { rewrite Kv. exact Hv. }
  exists s2, s3. split; [exact Hrel|]. split; [exact Hrd|].
  destruct F3 as (_ & _ & _ & _ & _ & _ & Fio3).
  split; [congruence|].
  rewrite Hb3. cbn [valid data set_lock set_refcnt]. auto.
Qed.

(** *** No slot to evict *)

Lemma lru_bucket_none idx s : forall fuel l p mintime replbuf,
  chain NBUF s p l (Head idx) ->
  (forall k, In k l -> refcnt (bufs s k) <> 0) ->
  lru_bucket NBUF NBUCKET fuel idx p mintime replbuf s =
  if (length l <=? fuel)%nat then Ret replbuf s else Fuel.
Proof.
  induction fuel as [|f IH]; intros l p mintime replbuf Hc Hno.
  - destruct l as [|k l]; simpl in Hc.
    + subst p. cbn [lru_bucket]. rewrite ptr_eqb_refl. reflexivity.
    + destruct Hc as (-> & _). reflexivity.
  - destruct l as [|k l]; simpl in Hc.
    + subst p. cbn [lru_bucket]. rewrite ptr_eqb_refl. reflexivity.
    + destruct Hc as (-> & Hk & Hc). cbn [lru_bucket ptr_eqb]. run.
      repeat (rewrite rd_buf by auto; cbv beta iota).
      destruct (Z.eqb_spec (refcnt (bufs s k)) 0) as [E|E].
      { exfalso. apply (Hno k); auto. now left. }
      cbn [andb]. rewrite IH with (l := l); auto.
      intros k' Hk'. apply Hno. now right.
Qed.

Lemma lru_all_none s js : forall mintime replbuf,
  (forall j, In j js -> refcnt (bufs s j) <> 0) ->
  lru_all s js mintime replbuf = replbuf.
Proof.
  induction js as [|j js IH]; intros mintime replbuf H; cbn [lru_all]; [reflexivity|].
  destruct (Z.eqb_spec (refcnt (bufs s j)) 0) as [E|E].
  - exfalso. apply (H j); auto. now left.
  - cbn [andb]. apply IH. intros j' Hj'. apply H. now right.
Qed.

(** With every slot in use the loop of lines 108-132 goes round and
    round. *)
Lemma global_loop_spins cpu idx s : forall fuel,
  (forall j, (j < NBUF)%nat -> refcnt (bufs s j) <> 0) ->
  global_loop NBUF NBUCKET fuel cpu idx Null s = Fuel.
Proof.
  induction fuel as [|f IH]; intros H; [reflexivity|].
  cbn [global_loop]. run.
  rewrite lru_all_none.
  - cbn. apply IH. exact H.
  - intros j Hj. apply H. apply in_seq in Hj. lia.
Qed.

(** C4, as the code has it.  [bget] for a block that is not cached, when
    every slot is in use: whatever the number of rounds granted, the call
    has not returned and has not panicked; [panic("bget: no buffers")] is
    never reached. *)
Theorem bget_without_free_slot_never_ends fuel cpu pid d bn s idx l :
  0 <= hash NBUCKET bn -> idx = Z.to_nat (hash NBUCKET bn) ->
  bucket_list NBUF NBUCKET s idx l ->
  tlock (table s idx) = None -> bcache_lock s = None ->
  (forall k, In k l -> ~ bound_to s d bn k) ->
  (forall j, (j < NBUF)%nat -> refcnt (bufs s j) <> 0) ->
  bget NBUF NBUCKET fuel cpu pid d bn s = Fuel.
Proof.
  intros Hh Hidx [Hi Hc] Hl Hbl Hno Hbusy.
  unfold bget. destruct (Z.ltb_spec (hash NBUCKET bn) 0); [lia|].
  cbv zeta. rewrite <- Hidx. unfold search. run.
  rewrite acquire_bucket_free by auto.
  rewrite rd_head by auto. bst.
  rewrite (lookup_miss idx d bn _ fuel l); auto.
  2:{ apply chain_ext with (s := s); auto. }
  destruct (length l <=? fuel)%nat; [|reflexivity].
  rewrite rd_head by auto. bst.
  rewrite (lru_bucket_none idx _ fuel l); auto.
  2:{ apply chain_ext with (s := s); auto. }
  2:{ intros k Hk. bst. apply Hbusy. eapply chain_in_range; eauto. }
  destruct (length l <=? fuel)%nat; [|reflexivity].
  cbn [ptr_eqb negb]. unfold acquire_bcache. bst. rewrite Hbl.
  rewrite global_loop_spins; [reflexivity|].
  intros j Hj. bst. apply Hbusy; auto.
Qed.

(** *** The test before the move *)

(** For a slot that is bound, what lines 123-128 decide depends on the word
    behind the array and on nothing else: not on the reference count of
    the slot. *)
Lemma after_scan_bound cpu idx j s ridx :
  (j < NBUF)%nat -> blockno (bufs s j) <> UINT_MAX ->
  0 <= hash NBUCKET (blockno (bufs s j)) ->
  ridx = Z.to_nat (hash NBUCKET (blockno (bufs s j))) ->
  (ridx < NBUCKET)%nat -> tlock (table s ridx) = None ->
  after_scan NBUF NBUCKET cpu idx (Buf j) s =
  if refcnt (beyond s) =? 0
  then Ret (Break ridx) (set_tlock ridx (Some cpu) s)
  else Ret Again (set_tlock ridx None (set_tlock ridx (Some cpu) s)).
Proof.
  intros Hj Hb Hh Hr Hrn Hl. unfold after_scan. cbn [ptr_eqb]. run.
  rewrite rd_buf by auto.
  destruct (Z.eqb_spec (blockno (bufs s j)) UINT_MAX); [congruence|].
  destruct (Z.ltb_spec (hash NBUCKET (blockno (bufs s j))) 0); [lia|].
  rewrite <- Hr. rewrite acquire_bucket_free by auto. bst.
  destruct (refcnt (beyond s) =? 0); [reflexivity|].
  rewrite release_bucket_held by (auto; bst; reflexivity). reflexivity.
Qed.

(** *** Moving a slot to another bucket *)

Lemma release_bcache_held cpu s :
  bcache_lock s = Some cpu ->
  release_bcache cpu s = Ret tt (set_bcache_lock None s).
Proof. intros H. unfold release_bcache. now rewrite H, bholding_self. Qed.

(** When the slot is the first of the list of its old bucket, lines
    134-141 take it out of that list and put it in front of the list of
    the target bucket; no other slot changes. *)
Lemma migrate_first cpu idx ridx j s l l' :
  idx <> ridx ->
  bucket_list NBUF NBUCKET s ridx (j :: l) ->
  bucket_list NBUF NBUCKET s idx l' ->
  ~ In j l -> ~ In j l' ->
  tlock (table s ridx) = Some cpu -> bcache_lock s = Some cpu ->
  exists s',
    migrate NBUF NBUCKET cpu idx ridx (Buf j) s = Ret tt s' /\
    bucket_list NBUF NBUCKET s' ridx l /\
    bucket_list NBUF NBUCKET s' idx (j :: l') /\
    (forall k, k <> j -> bufs s' k = bufs s k) /\
    bufs s' j = set_next (next (head (table s idx))) (bufs s j) /\
    (forall i, i <> idx -> i <> ridx -> table s' i = table s i) /\
    tlock (table s' ridx) = None /\ bcache_lock s' = None.
Proof.
  intros Hne [Hr (Hhd & Hj & Hc)] [Hi Hc'] Hnl Hnl' Hlk Hbl.
  assert (E1 : Nat.eqb idx ridx = false) by (now apply Nat.eqb_neq).
  assert (E2 : Nat.eqb ridx idx = false) by (apply Nat.eqb_neq; congruence).
  eexists. split; [|split; [|split; [|split; [|split; [|split; [|split]]]]]].
  - unfold migrate. run. rewrite rd_head by auto. rewrite Hhd, ptr_eqb_refl.
    rewrite rd_buf, wr_head by auto.
    rewrite release_bucket_held by (auto; bst; auto).
    rewrite rd_head by auto. bst. rewrite E1.
    rewrite wr_buf, wr_head by auto.
    rewrite release_bcache_held by (bst; auto). reflexivity.
  - split; [exact Hr|]. bst. rewrite E2. bst. cbn [next set_next].
    apply chain_ext with (s := s); [|exact Hc].
    intros k Hk. bst. destruct (Nat.eqb_spec k j); [congruence|reflexivity].
  - split; [exact Hi|]. bst. cbn [next set_next chain].
    split; [reflexivity|]. split; [exact Hj|]. bst. cbn [next set_next].
    apply chain_ext with (s := s); [|exact Hc'].
    intros k Hk. bst. destruct (Nat.eqb_spec k j); [congruence|reflexivity].
  - intros k Hk. bst. destruct (Nat.eqb_spec k j); [congruence|reflexivity].
  - bst. reflexivity.
  - intros i Hi1 Hi2. apply bucket_eq; bst;
      destruct (Nat.eqb_spec i idx); destruct (Nat.eqb_spec i ridx); congruence.
  - bst. reflexivity.
  - bst. reflexivity.
Qed.

(** The walk of line 134 finds its slot only at the front of the list. *)
Lemma migrate_needs_first cpu idx ridx replbuf s :
  (ridx < NBUCKET)%nat ->
  next (head (table s ridx)) <> replbuf ->
  migrate NBUF NBUCKET cpu idx ridx replbuf s = Undef.
Proof.
  intros Hr Hne. unfold migrate. run. rewrite rd_head by auto.
  destruct (ptr_eqb_spec (next (head (table s ridx))) replbuf); [contradiction|].
  reflexivity.
Qed.

End Facts.

(** *** Further facts about the cache *)

Section Further.

Variable NBUF : nat.
Variable NBUCKET : nat.

Local Abbreviation deref := (deref NBUF NBUCKET).
Local Abbreviation rd := (rd NBUF NBUCKET).
Local Abbreviation wr := (wr NBUF NBUCKET).

(** *** binit *)

Lemma binit_bufs_spec : forall js s,
  (forall j, In j js -> (j < NBUF)%nat) -> NoDup js ->
  exists s',
    binit_bufs NBUF NBUCKET js s = Ret tt s' /\
    (forall j, In j js -> bufs s' j = set_blockno UINT_MAX (set_lock None (bufs s j))) /\
    (forall j, ~ In j js -> bufs s' j = bufs s j) /\
    table s' = table s /\ bcache_lock s' = bcache_lock s /\ beyond s' = beyond s /\
    ticks s' = ticks s /\ disk s' = disk s /\ io s' = io s.
Proof.
  induction js as [|j js IH]; intros s Hin Hnd.
  - exists s. cbn [binit_bufs]. unfold ret. repeat split; auto. intros j [].
  - inversion Hnd as [|? ? Hj Hnd']; subst.
    assert (Hjn : (j < NBUF)%nat) by (apply Hin; now left).
    cbn [binit_bufs]. run. rewrite wr_buf by auto. rewrite wr_buf by auto.
    destruct (IH (set_buf j (set_blockno UINT_MAX
                               (bufs (set_buf j (set_lock None (bufs s j)) s) j))
                    (set_buf j (set_lock None (bufs s j)) s)))
      as (s' & Hrun & Hin' & Hout & Ht & Hb & Hy & Htk & Hd & Hio).
    { intros k Hk. apply Hin. now right. }
    { exact Hnd'. }
    exists s'. split; [exact Hrun|]. split; [|split; [|repeat split; assumption]].
    + intros k [<-|Hk].
      * rewrite Hout by exact Hj. bst. reflexivity.
      * rewrite Hin' by exact Hk. bst.
        destruct (Nat.eqb_spec k j); [subst; contradiction|reflexivity].
    + intros k Hk. rewrite Hout by (intros C; apply Hk; now right). bst.
      destruct (Nat.eqb_spec k j); [subst; exfalso; apply Hk; now left|reflexivity].
Qed.

Lemma binit_table_spec : forall ids s,
  (forall i, In i ids -> (i < NBUCKET)%nat) -> NoDup ids ->
  exists s',
    binit_table NBUF NBUCKET ids s = Ret tt s' /\
    (forall i, In i ids ->
       table s' i = mkbucket None (set_next (Head i) (head (table s i)))) /\
    (forall i, ~ In i ids -> table s' i = table s i) /\
    bufs s' = bufs s /\ bcache_lock s' = bcache_lock s /\ beyond s' = beyond s /\
    ticks s' = ticks s /\ disk s' = disk s /\ io s' = io s.
Proof.
  induction ids as [|i ids IH]; intros s Hin Hnd.
  - exists s. cbn [binit_table]. unfold ret. repeat split; auto. intros i [].
  - inversion Hnd as [|? ? Hi Hnd']; subst.
    assert (Hin0 : (i < NBUCKET)%nat) by (apply Hin; now left).
    cbn [binit_table]. run. rewrite wr_head by auto.
    destruct (IH (set_head i (set_next (Head i) (head (table (set_tlock i None s) i)))
                    (set_tlock i None s)))
      as (s' & Hrun & Hin' & Hout & Hb & Hl & Hy & Htk & Hd & Hio).
    { intros k Hk. apply Hin. now right. }
    { exact Hnd'. }
    exists s'. split; [exact Hrun|]. split; [|split; [|repeat split; assumption]].
    + intros k [<-|Hk].
      * rewrite Hout by exact Hi. apply bucket_eq; bst; reflexivity.
      * rewrite Hin' by exact Hk. bst.
        destruct (Nat.eqb_spec k i); [subst; contradiction|reflexivity].
    + intros k Hk. rewrite Hout by (intros C; apply Hk; now right).
      apply bucket_eq; bst;
        (destruct (Nat.eqb_spec k i); [subst; exfalso; apply Hk; now left|reflexivity]).
Qed.

Lemma binit_fields s :
  exists s',
    binit NBUF NBUCKET s = Ret tt s' /\
    bcache_lock s' = None /\
    (forall i, (i < NBUCKET)%nat ->
       table s' i = mkbucket None (set_next (Head i) (head (table s i)))) /\
    (forall j, (j < NBUF)%nat ->
       bufs s' j = set_blockno UINT_MAX (set_lock None (bufs s j))) /\
    beyond s' = beyond s /\ ticks s' = ticks s /\ disk s' = disk s /\ io s' = io s.
Proof.
  assert (Hseq : forall n k, In k (seq 0 n) -> (k < n)%nat).
  { intros n k Hk. apply in_seq in Hk. lia. }
  destruct (binit_bufs_spec (seq 0 NBUF) (set_bcache_lock None s) (Hseq NBUF)
              (seq_NoDup NBUF 0))
    as (s1 & Hrun1 & Hin1 & _ & Ht1 & Hl1 & Hy1 & Hk1 & Hd1 & Hio1).
  destruct (binit_table_spec (seq 0 NBUCKET) s1 (Hseq NBUCKET) (seq_NoDup NBUCKET 0))
    as (s2 & Hrun2 & Hin2 & _ & Hb2 & Hl2 & Hy2 & Hk2 & Hd2 & Hio2).
  exists s2. split; [|split; [|split; [|split; [|split; [|split; [|split]]]]]].
  - unfold binit. run. rewrite Hrun1. exact Hrun2.
  - rewrite Hl2, Hl1. reflexivity.
  - intros i Hi. rewrite Hin2 by (apply in_seq; lia). rewrite Ht1. reflexivity.
  - intros j Hj. rewrite Hb2, Hin1 by (apply in_seq; lia). reflexivity.
  - rewrite Hy2, Hy1. reflexivity.
  - rewrite Hk2, Hk1. reflexivity.
  - rewrite Hd2, Hd1. reflexivity.
  - rewrite Hio2, Hio1. reflexivity.
Qed.

(** X13.  [binit] returns from any state and leaves an empty cache: the
    lock of the cache and of every bucket is free, the list of every bucket
    is empty (its head points to itself), no block is cached, and every
    slot has its sleep lock free and the block number 0xffffffff of a slot
    that was never bound.  The count, the timestamp and the other fields of
    the slots are not written: [binit] relies on what they hold. *)
Theorem binit_leaves_empty_cache s :
  exists s',
    binit NBUF NBUCKET s = Ret tt s' /\
    bcache_lock s' = None /\
    (forall i, (i < NBUCKET)%nat ->
       tlock (table s' i) = None /\ bucket_list NBUF NBUCKET s' i []) /\
    (forall j, (j < NBUF)%nat ->
       lock (bufs s' j) = None /\ blockno (bufs s' j) = UINT_MAX /\
       refcnt (bufs s' j) = refcnt (bufs s j) /\
       timestamp (bufs s' j) = timestamp (bufs s j) /\
       dev (bufs s' j) = dev (bufs s j) /\ valid (bufs s' j) = valid (bufs s j) /\
       next (bufs s' j) = next (bufs s j) /\ data (bufs s' j) = data (bufs s j)) /\
    ticks s' = ticks s /\ disk s' = disk s /\ io s' = io s.
Proof.
  destruct (binit_fields s) as (s' & Hrun & Hl & Ht & Hb & _ & Hk & Hd & Hio).
  exists s'. split; [exact Hrun|]. split; [exact Hl|].
  split; [|split; [|repeat split; assumption]].
  - intros i Hi. rewrite (Ht i Hi). cbn [tlock]. split; [reflexivity|].
    split; [exact Hi|]. rewrite (Ht i Hi). reflexivity.
  - intros j Hj. rewrite (Hb j Hj). repeat split.
Qed.

(** *** hash *)

(** X14.  [hash] takes its argument as an [int].  A block number below
    2^31 is mapped to its remainder modulo [NBUCKET], an index of [table];
    a block number from 2^31 on is negative as an [int] and gets the
    remainder of C, which is zero or negative: for such a block number the
    result is an index of [table] only if it is zero, and the block number
    0xffffffff of a slot that was never bound hashes to -1 as soon as there
    are two buckets. *)
Theorem hash_range bn :
  (0 < NBUCKET)%nat -> 0 <= bn < 2 ^ 32 ->
  (bn < 2 ^ 31 ->
     hash NBUCKET bn = bn mod Z.of_nat NBUCKET /\
     0 <= hash NBUCKET bn < Z.of_nat NBUCKET) /\
  (2 ^ 31 <= bn ->
     hash NBUCKET bn = - ((2 ^ 32 - bn) mod Z.of_nat NBUCKET) /\
     - Z.of_nat NBUCKET < hash NBUCKET bn <= 0) /\
  ((1 < NBUCKET)%nat -> hash NBUCKET UINT_MAX = -1).
Proof.
  intros Hn Hbn. unfold hash.
  assert (Hpos : 0 < Z.of_nat NBUCKET) by lia.
  split; [|split].
  - intros Hlt. rewrite int32_small by lia.
    rewrite Z.rem_mod_nonneg by lia.
    split; [reflexivity|]. apply Z.mod_pos_bound. lia.
  - intros Hge.
    assert (E : int32 bn = - (2 ^ 32 - bn)).
    { unfold int32.
      replace (bn + 2 ^ 31) with (bn - 2 ^ 31 + 1 * 2 ^ 32) by lia.
      rewrite Z.mod_add by lia. rewrite Z.mod_small by lia. lia. }
    rewrite E, Z.rem_opp_l by lia.
    rewrite Z.rem_mod_nonneg by lia.
    split; [reflexivity|].
    pose proof (Z.mod_pos_bound (2 ^ 32 - bn) (Z.of_nat NBUCKET) Hpos). lia.
  - intros H2.
    assert (E : int32 UINT_MAX = - 1) by reflexivity.
    rewrite E. change (-1) with (- (1)). rewrite Z.rem_opp_l by lia.
    rewrite Z.rem_small by lia. reflexivity.
Qed.

(** *** The choice of the slot to recycle *)

(** Nothing unused is older than [mintime]: the scan keeps what it has. *)
Lemma lru_all_keep s js : forall mintime replbuf,
  (forall j, In j js -> refcnt (bufs s j) = 0 -> mintime <= timestamp (bufs s j)) ->
  lru_all s js mintime replbuf = replbuf.
Proof.
  induction js as [|j js IH]; intros mintime replbuf H; cbn [lru_all]; [reflexivity|].
  destruct (Z.eqb_spec (refcnt (bufs s j)) 0) as [E|E]; cbn [andb].
  - destruct (Z.ltb_spec (timestamp (bufs s j)) mintime) as [L|L].
    + specialize (H j (or_introl eq_refl) E). lia.
    + apply IH. intros k Hk. apply H. now right.
  - apply IH. intros k Hk. apply H. now right.
Qed.

(** The scan settles on the unused slot with the smallest timestamp, the
    first of them in the order of the scan if several have it. *)
Lemma lru_all_pick s j l2 : forall l1 mintime replbuf,
  refcnt (bufs s j) = 0 -> timestamp (bufs s j) < mintime ->
  (forall k, In k l1 -> refcnt (bufs s k) = 0 ->
             timestamp (bufs s j) < timestamp (bufs s k)) ->
  (forall k, In k l2 -> refcnt (bufs s k) = 0 ->
             timestamp (bufs s j) <= timestamp (bufs s k)) ->
  lru_all s (l1 ++ j :: l2) mintime replbuf = Buf j.
Proof.
  induction l1 as [|k l1 IH]; intros mintime replbuf Hj Hlt H1 H2.
  - cbn [app lru_all]. rewrite Hj. cbn [Z.eqb andb].
    destruct (Z.ltb_spec (timestamp (bufs s j)) mintime); [|lia].
    now apply lru_all_keep.
  - cbn [app lru_all].
    destruct (Z.eqb_spec (refcnt (bufs s k)) 0) as [E|E]; cbn [andb].
    + destruct (Z.ltb_spec (timestamp (bufs s k)) mintime) as [L|L].
      * apply IH; auto.
        -- apply H1; auto. now left.
        -- intros k' Hk'. apply H1. now right.
      * apply IH; auto. intros k' Hk'. apply H1. now right.
    + apply IH; auto. intros k' Hk'. apply H1. now right.
Qed.

(** What the scan returns is what it started with or a slot that is
    unused. *)
Lemma lru_all_sound s js : forall mintime replbuf,
  lru_all s js mintime replbuf = replbuf \/
  exists j, lru_all s js mintime replbuf = Buf j /\ In j js /\
            refcnt (bufs s j) = 0 /\ timestamp (bufs s j) < mintime.
Proof.
  induction js as [|j js IH]; intros mintime replbuf; cbn [lru_all]; [now left|].
  destruct (Z.eqb_spec (refcnt (bufs s j)) 0) as [E|E]; cbn [andb].
  - destruct (Z.ltb_spec (timestamp (bufs s j)) mintime) as [L|L].
    + right. destruct (IH (timestamp (bufs s j)) (Buf j)) as [->|(k & -> & Hk & Hr & Ht)].
      * exists j. repeat split; auto. now left.
      * exists k. repeat split; auto; [now right | lia].
    + destruct (IH mintime replbuf) as [->|(k & -> & Hk & Hr & Ht)]; [now left|].
      right. exists k. repeat split; auto. now right.
  - destruct (IH mintime replbuf) as [->|(k & -> & Hk & Hr & Ht)]; [now left|].
    right. exists k. repeat split; auto. now right.
Qed.

(** Lines 96-101 on the list of a bucket are the scan of its slots. *)
Lemma lru_bucket_scan idx s : forall fuel l p mintime replbuf,
  chain NBUF s p l (Head idx) -> (length l <= fuel)%nat ->
  lru_bucket NBUF NBUCKET fuel idx p mintime replbuf s =
  Ret (lru_all s l mintime replbuf) s.
Proof.
  induction fuel as [|f IH]; intros l p mintime replbuf Hc Hf.
  - destruct l as [|k l]; [|cbn [length] in Hf; lia]. simpl in Hc. subst p.
    cbn [lru_bucket lru_all]. rewrite ptr_eqb_refl. reflexivity.
  - destruct l as [|k l]; simpl in Hc.
    + subst p. cbn [lru_bucket lru_all]. rewrite ptr_eqb_refl. reflexivity.
    + destruct Hc as (-> & Hk & Hc). cbn [lru_bucket ptr_eqb lru_all]. run.
      repeat (rewrite rd_buf by auto; cbv beta iota).
      cbn [length] in Hf.
      destruct ((refcnt (bufs s k) =? 0) && (timestamp (bufs s k) <? mintime));
        apply IH; auto; lia.
Qed.

(** *** Binding the slot *)

(** The label [find], on a slot whose sleep lock is free, with the lock of
    the bucket held. *)
Lemma find_run cpu pid idx j d bn s :
  (j < NBUF)%nat -> (idx < NBUCKET)%nat ->
  tlock (table s idx) = Some cpu -> lock (bufs s j) = None ->
  exists s',
    find NBUF NBUCKET cpu pid idx (Buf j) d bn s = Ret (Buf j) s' /\
    bufs s' j = mkbuf 0 d bn (Some pid) 1 (next (bufs s j)) (timestamp (bufs s j))
                      (data (bufs s j)) /\
    (forall k, k <> j -> bufs s' k = bufs s k) /\
    (forall i, i <> idx -> table s' i = table s i) /\
    tlock (table s' idx) = None /\ head (table s' idx) = head (table s idx) /\
    bcache_lock s' = bcache_lock s /\ beyond s' = beyond s /\
    ticks s' = ticks s /\ disk s' = disk s /\ io s' = io s.
Proof.
  intros Hj Hi Hl Hlk.
  eexists. split; [|split; [|split; [|split; [|split; [|split]]]]].
  - unfold find. run. rewrite !wr_buf by auto.
    rewrite release_bucket_held by (auto; bst; auto).
    unfold acquiresleep. run. rewrite rd_buf by auto. bst.
    cbn [lock set_refcnt set_valid set_blockno set_dev]. rewrite Hlk.
    rewrite wr_buf by auto. reflexivity.
  - bst. reflexivity.
  - intros k Hk. bst. destruct (Nat.eqb_spec k j); [congruence|reflexivity].
  - intros i Hne. apply bucket_eq; bst;
      destruct (Nat.eqb_spec i idx); try congruence; reflexivity.
  - bst. reflexivity.
  - bst. reflexivity.
  - repeat split; reflexivity.
Qed.

(** *** A miss served from the bucket itself *)

Lemma bget_local_evict fuel cpu pid d bn s idx l1 j l2 :
  0 <= hash NBUCKET bn -> idx = Z.to_nat (hash NBUCKET bn) ->
  bucket_list NBUF NBUCKET s idx (l1 ++ j :: l2) ->
  tlock (table s idx) = None ->
  (forall k, In k (l1 ++ j :: l2) -> ~ bound_to s d bn k) ->
  evictable s j ->
  (forall k, In k l1 -> refcnt (bufs s k) = 0 ->
             timestamp (bufs s j) < timestamp (bufs s k)) ->
  (forall k, In k l2 -> refcnt (bufs s k) = 0 ->
             timestamp (bufs s j) <= timestamp (bufs s k)) ->
  lock (bufs s j) = None ->
  (length (l1 ++ j :: l2) <= fuel)%nat ->
  exists s',
    bget NBUF NBUCKET fuel cpu pid d bn s = Ret (Buf j) s' /\
    bufs s' j = mkbuf 0 d bn (Some pid) 1 (next (bufs s j)) (timestamp (bufs s j))
                      (data (bufs s j)) /\
    same_but_slot j s s'.
Proof.
  intros Hh Hidx [Hi Hc] Hl Hno [Hrc Hts] H1 H2 Hlk Hf.
  assert (Hjn : (j < NBUF)%nat).
  { eapply chain_in_range; eauto. apply in_or_app. right. now left. }
  pose (s1 := set_tlock idx (Some cpu) s).
  assert (Hc1 : chain NBUF s1 (next (head (table s idx))) (l1 ++ j :: l2) (Head idx)).
  { apply chain_ext with (s := s); auto. }
  destruct (find_run cpu pid idx j d bn s1 Hjn Hi)
    as (s' & Hrun & Hbj & Hbk & Hti & Htl & Hhd & Hbl & Hby & Htk & Hd & Hio).
  { unfold s1. bst. reflexivity. }
  { exact Hlk. }
  exists s'. split; [|split].
  - unfold bget. destruct (Z.ltb_spec (hash NBUCKET bn) 0); [lia|].
    cbv zeta. rewrite <- Hidx. unfold search. run.
    rewrite acquire_bucket_free by auto. fold s1.
    rewrite rd_head by auto. unfold s1 at 1. bst.
    rewrite (lookup_miss NBUF NBUCKET idx d bn s1 fuel (l1 ++ j :: l2)); auto.
    apply Nat.leb_le in Hf. rewrite Hf.
    rewrite rd_head by auto. unfold s1 at 1. bst.
    rewrite (lru_bucket_scan idx s1 fuel (l1 ++ j :: l2)); auto.
    2:{ apply Nat.leb_le. exact Hf. }
    rewrite (lru_all_pick s1 j l2 l1 UINT_MAX Null Hrc Hts H1 H2).
    cbn [ptr_eqb negb]. exact Hrun.
  - exact Hbj.
  - unfold same_but_slot. split; [exact Hbk|]. split; [|repeat split; assumption].
    intros i. destruct (Nat.eq_dec i idx) as [->|Ne].
    + apply bucket_eq; [rewrite Htl; symmetry; exact Hl|].
      rewrite Hhd. unfold s1. bst. reflexivity.
    + rewrite Hti by auto. unfold s1. apply bucket_eq; bst;
        destruct (Nat.eqb_spec i idx); try congruence; reflexivity.
Qed.

(** X15.  A miss in a bucket that has an unused slot is served from the
    bucket itself, and the slot taken is the least recently used one: of
    the slots of the list with a reference count of 0, the one with the
    smallest timestamp, the one nearest the head among equals.  The slot is
    rebound to the block with a count of 1 and marked invalid, the caller
    holds its sleep lock; its place in the list, every other slot, every
    list and [bcache.lock] are as before, and nothing is read from the
    disk. *)
Theorem bget_recycles_lru_of_bucket fuel cpu pid d bn s idx l1 j l2 :
  0 <= hash NBUCKET bn -> idx = Z.to_nat (hash NBUCKET bn) ->
  bucket_list NBUF NBUCKET s idx (l1 ++ j :: l2) ->
  tlock (table s idx) = None ->
  (forall k, In k (l1 ++ j :: l2) -> ~ bound_to s d bn k) ->
  evictable s j ->
  (forall k, In k l1 -> refcnt (bufs s k) = 0 ->
             timestamp (bufs s j) < timestamp (bufs s k)) ->
  (forall k, In k l2 -> refcnt (bufs s k) = 0 ->
             timestamp (bufs s j) <= timestamp (bufs s k)) ->
  lock (bufs s j) = None ->
  (length (l1 ++ j :: l2) <= fuel)%nat ->
  exists s',
    bget NBUF NBUCKET fuel cpu pid d bn s = Ret (Buf j) s' /\
    bound_to s' d bn j /\ valid (bufs s' j) = 0 /\ refcnt (bufs s' j) = 1 /\
    lock (bufs s' j) = Some pid /\
    next (bufs s' j) = next (bufs s j) /\
    bucket_list NBUF NBUCKET s' idx (l1 ++ j :: l2) /\
    same_but_slot j s s' /\ io s' = io s.
Proof.
  intros Hh Hidx Hbl Hl Hno Hev H1 H2 Hlk Hf.
  destruct (bget_local_evict fuel cpu pid d bn s idx l1 j l2
              Hh Hidx Hbl Hl Hno Hev H1 H2 Hlk Hf) as (s' & Hrun & Hbj & Hsame).
  exists s'. split; [exact Hrun|]. unfold bound_to. rewrite !Hbj.
  cbn [dev blockno valid refcnt lock next].
  do 5 (split; [auto|]). split; [|split; [exact Hsame|]].
  - destruct Hbl as [Hi Hc]. split; [exact Hi|].
    destruct Hsame as (Hk & Ht & Hrest). rewrite Ht.
    apply chain_ext with (s := s); [|exact Hc].
    intros k _. destruct (Nat.eq_dec k j) as [->|Ne]; [|now rewrite Hk].
    rewrite Hbj. reflexivity.
  - destruct Hsame as (_ & _ & _ & _ & _ & _ & Hio). exact Hio.
Qed.

(** *** A miss served from the whole cache *)

Lemma seq_split n j :
  (j < n)%nat -> seq 0 n = seq 0 j ++ j :: seq (S j) (n - S j).
Proof.
  intros H. replace n with (j + S (n - S j))%nat at 1 by lia.
  rewrite seq_app. reflexivity.
Qed.

(** The scan of lines 109-115 settles on the unused slot with the smallest
    timestamp, the one with the lowest index among equals. *)
Lemma lru_all_min s j :
  (j < NBUF)%nat -> evictable s j ->
  (forall k, (k < j)%nat -> refcnt (bufs s k) = 0 ->
             timestamp (bufs s j) < timestamp (bufs s k)) ->
  (forall k, (j < k < NBUF)%nat -> refcnt (bufs s k) = 0 ->
             timestamp (bufs s j) <= timestamp (bufs s k)) ->
  lru_all s (seq 0 NBUF) UINT_MAX Null = Buf j.
Proof.
  intros Hj [Hrc Hts] H1 H2. rewrite (seq_split NBUF j Hj).
  apply lru_all_pick; auto.
  - intros k Hk. apply in_seq in Hk. apply H1. lia.
  - intros k Hk. apply in_seq in Hk. apply H2. lia.
Qed.

(** The bucket has no unused slot: the scan of lines 96-101 finds
    nothing. *)
Lemma lru_all_nothing s l :
  (forall k, In k l -> ~ evictable s k) -> lru_all s l UINT_MAX Null = Null.
Proof.
  intros H. apply lru_all_keep. intros k Hk Hrc.
  destruct (Z_lt_le_dec (timestamp (bufs s k)) UINT_MAX) as [L|L]; [|exact L].
  exfalso. apply (H k Hk). split; assumption.
Qed.

(** [bget] up to the loop of line 108, for a block that is not cached in a
    bucket with no unused slot. *)
Lemma bget_to_global fuel cpu pid d bn s idx l :
  0 <= hash NBUCKET bn -> idx = Z.to_nat (hash NBUCKET bn) ->
  bucket_list NBUF NBUCKET s idx l ->
  tlock (table s idx) = None -> bcache_lock s = None ->
  (forall k, In k l -> ~ bound_to s d bn k) ->
  (forall k, In k l -> ~ evictable s k) ->
  (length l <= fuel)%nat ->
  bget NBUF NBUCKET fuel cpu pid d bn s =
  (res <- global_loop NBUF NBUCKET fuel cpu idx Null ;;
   match snd res with
   | None => find NBUF NBUCKET cpu pid idx (fst res) d bn
   | Some ridx =>
       migrate NBUF NBUCKET cpu idx ridx (fst res) ;;
       find NBUF NBUCKET cpu pid idx (fst res) d bn
   end) (set_bcache_lock (Some cpu) (set_tlock idx (Some cpu) s)).
Proof.
  intros Hh Hidx [Hi Hc] Hl Hbl Hno Hnev Hf.
  pose (s1 := set_tlock idx (Some cpu) s).
  assert (Hc1 : chain NBUF s1 (next (head (table s idx))) l (Head idx)).
  { apply chain_ext with (s := s); auto. }
  unfold bget. destruct (Z.ltb_spec (hash NBUCKET bn) 0); [lia|].
  cbv zeta. rewrite <- Hidx. unfold search. run.
  rewrite acquire_bucket_free by auto. fold s1.
  rewrite rd_head by auto. unfold s1 at 1. bst.
  rewrite (lookup_miss NBUF NBUCKET idx d bn s1 fuel l); auto.
  apply Nat.leb_le in Hf. rewrite Hf. apply Nat.leb_le in Hf.
  rewrite rd_head by auto. unfold s1 at 1. bst.
  rewrite (lru_bucket_scan idx s1 fuel l _ _ _ Hc1 Hf).
  rewrite (lru_all_nothing s1 l Hnev).
  cbn [ptr_eqb negb]. unfold acquire_bcache. unfold s1 at 1. bst. rewrite Hbl.
  reflexivity.
Qed.

(** Lines 116-122: the slot chosen was never bound. *)
Lemma after_scan_unbound cpu idx j s :
  (j < NBUF)%nat -> (idx < NBUCKET)%nat ->
  blockno (bufs s j) = UINT_MAX -> bcache_lock s = Some cpu ->
  after_scan NBUF NBUCKET cpu idx (Buf j) s =
  Ret GoFind
      (set_bcache_lock None
         (set_head idx (set_next (Buf j) (head (table s idx)))
            (set_buf j (set_next (next (head (table s idx))) (bufs s j)) s))).
Proof.
  intros Hj Hi Hb Hl. unfold after_scan. cbn [ptr_eqb]. run.
  rewrite rd_buf by auto. rewrite Hb, Z.eqb_refl.
  rewrite rd_head, wr_buf, wr_head by auto. bst.
  rewrite release_bcache_held by (bst; auto). reflexivity.
Qed.

Lemma bget_unbound_run fuel cpu pid d bn s idx l j :
  0 <= hash NBUCKET bn -> idx = Z.to_nat (hash NBUCKET bn) ->
  bucket_list NBUF NBUCKET s idx l ->
  tlock (table s idx) = None -> bcache_lock s = None ->
  (forall k, In k l -> ~ bound_to s d bn k) ->
  (forall k, In k l -> ~ evictable s k) ->
  (j < NBUF)%nat -> evictable s j -> blockno (bufs s j) = UINT_MAX ->
  (forall k, (k < j)%nat -> refcnt (bufs s k) = 0 ->
             timestamp (bufs s j) < timestamp (bufs s k)) ->
  (forall k, (j < k < NBUF)%nat -> refcnt (bufs s k) = 0 ->
             timestamp (bufs s j) <= timestamp (bufs s k)) ->
  lock (bufs s j) = None -> (length l < fuel)%nat ->
  exists s',
    bget NBUF NBUCKET fuel cpu pid d bn s = Ret (Buf j) s' /\
    bufs s' j = mkbuf 0 d bn (Some pid) 1 (next (head (table s idx)))
                      (timestamp (bufs s j)) (data (bufs s j)) /\
    head (table s' idx) = set_next (Buf j) (head (table s idx)) /\
    (forall k, k <> j -> bufs s' k = bufs s k) /\
    (forall i, i <> idx -> table s' i = table s i) /\
    tlock (table s' idx) = None /\ bcache_lock s' = None /\ io s' = io s.
Proof.
  intros Hh Hidx Hbl Hl Hcl Hno Hnev Hj Hev Hub H1 H2 Hlk Hf.
  assert (Hi : (idx < NBUCKET)%nat) by (destruct Hbl; assumption).
  pose (s2 := set_bcache_lock (Some cpu) (set_tlock idx (Some cpu) s)).
  pose (s3 := set_bcache_lock None
                (set_head idx (set_next (Buf j) (head (table s2 idx)))
                   (set_buf j (set_next (next (head (table s2 idx))) (bufs s2 j)) s2))).
  destruct (find_run cpu pid idx j d bn s3 Hj Hi)
    as (s' & Hrun & Hbj & Hbk & Hti & Htl & Hhd & Hbc & Hby & Htk & Hd & Hio).
  { unfold s3, s2. bst. reflexivity. }
  { unfold s3, s2. bst. cbn [lock set_next]. exact Hlk. }
  exists s'. split; [|split; [|split; [|split; [|split; [|split; [|split]]]]]].
  - rewrite (bget_to_global fuel cpu pid d bn s idx l Hh Hidx Hbl Hl Hcl Hno Hnev) by lia.
    fold s2.
    destruct fuel as [|f]; [lia|]. cbn [global_loop]. run.
    rewrite (lru_all_min s2 j); auto.
    rewrite (after_scan_unbound cpu idx j s2 Hj Hi Hub eq_refl).
    fold s3. cbn [snd fst]. exact Hrun.
  - rewrite Hbj. unfold s3, s2. bst. reflexivity.
  - rewrite Hhd. unfold s3, s2. bst. reflexivity.
  - intros k Hk. rewrite Hbk by exact Hk. unfold s3, s2. bst.
    destruct (Nat.eqb_spec k j); [congruence|reflexivity].
  - intros i Hne. rewrite Hti by exact Hne. unfold s3, s2.
    apply bucket_eq; bst; destruct (Nat.eqb_spec i idx); try congruence; reflexivity.
  - exact Htl.
  - rewrite Hbc. unfold s3. bst. reflexivity.
  - rewrite Hio. reflexivity.
Qed.

(** X16.  A miss in a bucket with no unused slot goes to the whole cache
    under [bcache.lock].  When the least recently used unused slot of the
    array (smallest timestamp, lowest index among equals) was never bound,
    it is put at the head of the list of the bucket and bound to the block:
    [bget] returns it with a count of 1, invalid, the caller holding its
    sleep lock; the rest of that list, the other lists and the other slots
    are unchanged and both spin locks are free again. *)
Theorem bget_takes_unbound_slot fuel cpu pid d bn s idx l j :
  0 <= hash NBUCKET bn -> idx = Z.to_nat (hash NBUCKET bn) ->
  bucket_list NBUF NBUCKET s idx l ->
  tlock (table s idx) = None -> bcache_lock s = None ->
  (forall k, In k l -> ~ bound_to s d bn k) ->
  (forall k, In k l -> ~ evictable s k) ->
  (j < NBUF)%nat -> evictable s j -> blockno (bufs s j) = UINT_MAX ->
  (forall k, (k < j)%nat -> refcnt (bufs s k) = 0 ->
             timestamp (bufs s j) < timestamp (bufs s k)) ->
  (forall k, (j < k < NBUF)%nat -> refcnt (bufs s k) = 0 ->
             timestamp (bufs s j) <= timestamp (bufs s k)) ->
  lock (bufs s j) = None -> (length l < fuel)%nat ->
  exists s',
    bget NBUF NBUCKET fuel cpu pid d bn s = Ret (Buf j) s' /\
    bound_to s' d bn j /\ valid (bufs s' j) = 0 /\ refcnt (bufs s' j) = 1 /\
    lock (bufs s' j) = Some pid /\
    bucket_list NBUF NBUCKET s' idx (j :: l) /\
    (forall k, k <> j -> bufs s' k = bufs s k) /\
    (forall i, i <> idx -> table s' i = table s i) /\
    tlock (table s' idx) = None /\ bcache_lock s' = None /\ io s' = io s.
Proof.
  intros Hh Hidx Hbl Hl Hcl Hno Hnev Hj Hev Hub H1 H2 Hlk Hf.
  destruct (bget_unbound_run fuel cpu pid d bn s idx l j
              Hh Hidx Hbl Hl Hcl Hno Hnev Hj Hev Hub H1 H2 Hlk Hf)
    as (s' & Hrun & Hbj & Hhd & Hbk & Hti & Htl & Hbc & Hio).
  assert (Hjl : ~ In j l) by (intros C; apply (Hnev j C); exact Hev).
  exists s'. split; [exact Hrun|]. unfold bound_to. rewrite !Hbj.
  cbn [dev blockno valid refcnt lock].
  do 4 (split; [auto|]). split; [|repeat split; assumption].
  destruct Hbl as [Hi Hc]. split; [exact Hi|].
  rewrite Hhd. cbn [next set_next chain].
  split; [reflexivity|]. split; [exact Hj|].
  rewrite Hbj. cbn [next].
  apply chain_ext with (s := s); [|exact Hc].
  intros k Hk. rewrite Hbk; [reflexivity|]. intros ->. contradiction.
Qed.

(** X17.  The first request after boot.  [binit] writes neither the
    counts nor the timestamps of the slots; in the zero-initialised storage
    of the kernel they are 0, every slot is unused and equally old, and the
    first [bget] takes slot 0: it becomes the only slot of the list of the
    bucket of the block, bound to the block, and the other buckets stay
    empty. *)
Theorem first_bget_after_binit fuel cpu pid d bn stray t dsk idx :
  (0 < NBUF)%nat -> (0 < NBUCKET)%nat -> 0 <= bn < 2 ^ 31 ->
  idx = Z.to_nat (bn mod Z.of_nat NBUCKET) -> (0 < fuel)%nat ->
  exists s0 s',
    binit NBUF NBUCKET (boot stray t dsk) = Ret tt s0 /\
    bget NBUF NBUCKET fuel cpu pid d bn s0 = Ret (Buf 0) s' /\
    bufs s' 0%nat = mkbuf 0 d bn (Some pid) 1 (Head idx) 0 [] /\
    bucket_list NBUF NBUCKET s' idx [0%nat] /\
    (forall i, (i < NBUCKET)%nat -> i <> idx -> bucket_list NBUF NBUCKET s' i []) /\
    (forall i, (i < NBUCKET)%nat -> tlock (table s' i) = None) /\
    bcache_lock s' = None /\ io s' = [].
Proof.
  intros Hnb Hnk Hbn Hidx Hfuel.
  destruct (binit_fields (boot stray t dsk))
    as (s0 & Hrun0 & Hl0 & Ht0 & Hb0 & _ & _ & _ & Hio0).
  assert (Hhash : hash NBUCKET bn = bn mod Z.of_nat NBUCKET).
  { unfold hash. rewrite int32_small by lia. apply Z.rem_mod_nonneg; lia. }
  assert (Hmod : 0 <= bn mod Z.of_nat NBUCKET < Z.of_nat NBUCKET)
    by (apply Z.mod_pos_bound; lia).
  assert (Hi : (idx < NBUCKET)%nat) by lia.
  assert (Hbuf : forall j, (j < NBUF)%nat ->
            bufs s0 j = mkbuf 0 0 UINT_MAX None 0 Null 0 []).
  { intros j Hj. rewrite (Hb0 j Hj). reflexivity. }
  assert (Htab : forall i, (i < NBUCKET)%nat ->
            table s0 i = mkbucket None (set_next (Head i) zero_buf)).
  { intros i Hi'. rewrite (Ht0 i Hi'). reflexivity. }
  assert (P1 : 0 <= hash NBUCKET bn) by lia.
  assert (P2 : idx = Z.to_nat (hash NBUCKET bn)) by (rewrite Hhash; exact Hidx).
  assert (P3 : bucket_list NBUF NBUCKET s0 idx []).
  { split; [exact Hi|]. rewrite (Htab idx Hi). reflexivity. }
  assert (P4 : tlock (table s0 idx) = None) by (rewrite (Htab idx Hi); reflexivity).
  assert (P5 : forall k, In k [] -> ~ bound_to s0 d bn k) by (intros k []).
  assert (P6 : forall k, In k [] -> ~ evictable s0 k) by (intros k []).
  assert (P7 : evictable s0 0).
  { unfold evictable. rewrite (Hbuf 0%nat Hnb). split; reflexivity. }
  assert (P8 : blockno (bufs s0 0) = UINT_MAX) by (rewrite (Hbuf 0%nat Hnb); reflexivity).
  assert (P9 : forall k, (k < 0)%nat -> refcnt (bufs s0 k) = 0 ->
                         timestamp (bufs s0 0) < timestamp (bufs s0 k)) by (intros; lia).
  assert (P10 : forall k, (0 < k < NBUF)%nat -> refcnt (bufs s0 k) = 0 ->
                          timestamp (bufs s0 0) <= timestamp (bufs s0 k)).
  { intros k Hk _. rewrite (Hbuf 0%nat Hnb), (Hbuf k) by lia. cbn [timestamp]. lia. }
  assert (P11 : lock (bufs s0 0) = None) by (rewrite (Hbuf 0%nat Hnb); reflexivity).
  destruct (bget_unbound_run fuel cpu pid d bn s0 idx [] 0%nat
              P1 P2 P3 P4 Hl0 P5 P6 Hnb P7 P8 P9 P10 P11 Hfuel)
    as (s' & Hrun & Hbj & Hhd & Hbk & Hti & Htl & Hbc & Hio).
  exists s0, s'. split; [exact Hrun0|]. split; [exact Hrun|].
  split; [|split; [|split; [|split; [|split]]]].
  - rewrite Hbj, (Hbuf 0%nat Hnb), (Htab idx Hi). reflexivity.
  - split; [exact Hi|]. rewrite Hhd, (Htab idx Hi). cbn [next set_next chain].
    split; [reflexivity|]. split; [exact Hnb|].
    rewrite Hbj, (Htab idx Hi). reflexivity.
  - intros i Hi' Hne. split; [exact Hi'|]. rewrite (Hti i Hne), (Htab i Hi').
    reflexivity.
  - intros i Hi'. destruct (Nat.eq_dec i idx) as [->|Hne]; [exact Htl|].
    rewrite (Hti i Hne), (Htab i Hi'). reflexivity.
  - exact Hbc.
  - rewrite Hio, Hio0. reflexivity.
Qed.

Lemma release_bcache_inv cpu s u s' :
  release_bcache cpu s = Ret u s' -> s' = set_bcache_lock None s.
Proof.
  unfold release_bcache. destruct (holding cpu (bcache_lock s)); [|discriminate].
  intros H. now inversion H.
Qed.

Lemma rd_inv {A} p (f : buf -> A) s a s' :
  rd p f s = Ret a s' -> s' = s /\ exists b, deref s p = Some b /\ a = f b.
Proof.
  unfold Bio.rd. destruct (deref s p) as [b|]; [|discriminate].
  intros H. inversion H. eauto.
Qed.

(** Lines 134-141 leave the lock of the target bucket and the transfer
    log alone. *)
Lemma migrate_frame cpu idx ridx j s s' :
  migrate NBUF NBUCKET cpu idx ridx (Buf j) s = Ret tt s' -> idx <> ridx ->
  tlock (table s' idx) = tlock (table s idx) /\ io s' = io s.
Proof.
  unfold migrate. run. intros H Hne.
  assert (E : Nat.eqb idx ridx = false) by (now apply Nat.eqb_neq).
  destruct (rd (Head ridx) next s) as [hn s0| | | |] eqn:R0; try discriminate.
  apply rd_inv in R0. destruct R0 as (-> & _).
  destruct (ptr_eqb hn (Buf j)); [|discriminate].
  destruct (rd (Buf j) next s) as [rn s0| | | |] eqn:R1; try discriminate.
  apply rd_inv in R1. destruct R1 as (-> & _).
  destruct (wr (Head ridx) (set_next rn) s) as [[] s1| | | |] eqn:W1; try discriminate.
  apply wr_inv in W1. destruct W1 as (b1 & _ & ->).
  destruct (release_bucket NBUCKET cpu ridx _) as [[] s2| | | |] eqn:R2; try discriminate.
  apply release_bucket_inv in R2. subst s2.
  destruct (rd (Head idx) next _) as [hn' s3| | | |] eqn:R3; try discriminate.
  apply rd_inv in R3. destruct R3 as (-> & _).
  destruct (wr (Buf j) (set_next hn') _) as [[] s4| | | |] eqn:W4; try discriminate.
  apply wr_inv in W4. destruct W4 as (b4 & _ & ->).
  destruct (wr (Head idx) (set_next (Buf j)) _) as [[] s5| | | |] eqn:W5; try discriminate.
  apply wr_inv in W5. destruct W5 as (b5 & _ & ->).
  apply release_bcache_inv in H. subst s'.
  cbn [assign]. bst. rewrite E. split; reflexivity.
Qed.

(** X18.  When the slot chosen under [bcache.lock] is bound and is the
    first slot of the list of its bucket, and the word line 126 reads
    behind the array is 0, the slot moves: it leaves the list of its old
    bucket, whose other slots stay in order, and becomes the head of the
    list of the bucket of the requested block, bound to that block with a
    count of 1 and invalid; every other slot and bucket is unchanged and
    the three spin locks taken are free again. *)
Theorem bget_moves_first_slot_of_other_bucket fuel cpu pid d bn s idx l j ridx lr :
  0 <= hash NBUCKET bn -> idx = Z.to_nat (hash NBUCKET bn) ->
  bucket_list NBUF NBUCKET s idx l ->
  tlock (table s idx) = None -> bcache_lock s = None ->
  (forall k, In k l -> ~ bound_to s d bn k) ->
  (forall k, In k l -> ~ evictable s k) ->
  (j < NBUF)%nat -> evictable s j ->
  (forall k, (k < j)%nat -> refcnt (bufs s k) = 0 ->
             timestamp (bufs s j) < timestamp (bufs s k)) ->
  (forall k, (j < k < NBUF)%nat -> refcnt (bufs s k) = 0 ->
             timestamp (bufs s j) <= timestamp (bufs s k)) ->
  blockno (bufs s j) <> UINT_MAX ->
  0 <= hash NBUCKET (blockno (bufs s j)) ->
  ridx = Z.to_nat (hash NBUCKET (blockno (bufs s j))) -> ridx <> idx ->
  bucket_list NBUF NBUCKET s ridx (j :: lr) -> ~ In j lr ->
  tlock (table s ridx) = None ->
  refcnt (beyond s) = 0 ->
  lock (bufs s j) = None -> (length l < fuel)%nat ->
  exists s',
    bget NBUF NBUCKET fuel cpu pid d bn s = Ret (Buf j) s' /\
    bufs s' j = mkbuf 0 d bn (Some pid) 1 (next (head (table s idx)))
                      (timestamp (bufs s j)) (data (bufs s j)) /\
    bucket_list NBUF NBUCKET s' ridx lr /\
    bucket_list NBUF NBUCKET s' idx (j :: l) /\
    (forall k, k <> j -> bufs s' k = bufs s k) /\
    (forall i, i <> idx -> i <> ridx -> table s' i = table s i) /\
    tlock (table s' idx) = None /\ tlock (table s' ridx) = None /\
    bcache_lock s' = None /\ io s' = io s.
Proof.
  intros Hh Hidx Hbl Hl Hcl Hno Hnev Hj Hev H1 H2 Hb Hrh Hridx Hne Hrl Hjlr Hrlk Hby0
         Hlk Hf.
  assert (Hi : (idx < NBUCKET)%nat) by (destruct Hbl; assumption).
  assert (Hr : (ridx < NBUCKET)%nat) by (destruct Hrl; assumption).
  assert (Hjl : ~ In j l) by (intros C; apply (Hnev j C); exact Hev).
  assert (E1 : Nat.eqb ridx idx = false) by (now apply Nat.eqb_neq).
  assert (E2 : Nat.eqb idx ridx = false) by (apply Nat.eqb_neq; congruence).
  pose (s2 := set_bcache_lock (Some cpu) (set_tlock idx (Some cpu) s)).
  pose (s3 := set_tlock ridx (Some cpu) s2).
  assert (Hrl3 : bucket_list NBUF NBUCKET s3 ridx (j :: lr)).
  { destruct Hrl as [_ Hc]. split; [exact Hr|]. unfold s3, s2. bst. rewrite ?E1, ?E2. bst.
    apply chain_ext with (s := s); auto. }
  assert (Hbl3 : bucket_list NBUF NBUCKET s3 idx l).
  { destruct Hbl as [_ Hc]. split; [exact Hi|]. unfold s3, s2. bst. rewrite ?E1, ?E2. bst.
    apply chain_ext with (s := s); auto. }
  destruct (migrate_first NBUF NBUCKET cpu idx ridx j s3 lr l (not_eq_sym Hne) Hrl3 Hbl3
              Hjlr Hjl)
    as (s4 & Hmig & Hl4r & Hl4 & Hk4 & Hj4 & Ht4 & Htl4 & Hbc4).
  { unfold s3. bst. reflexivity. }
  { unfold s3, s2. bst. reflexivity. }
  destruct (migrate_frame cpu idx ridx j s3 s4 Hmig (not_eq_sym Hne)) as [Htl4i Hio4].
  assert (Htl3 : tlock (table s3 idx) = Some cpu).
  { unfold s3, s2. bst. rewrite ?E1, ?E2. bst. reflexivity. }
  rewrite Htl3 in Htl4i.
  destruct (find_run cpu pid idx j d bn s4 Hj Hi Htl4i)
    as (s' & Hrun & Hbj & Hbk & Hti & Htl & Hhd & Hbc & Hby & Htk & Hd & Hio).
  { rewrite Hj4. unfold s3, s2. bst. cbn [lock set_next]. exact Hlk. }
  exists s'.
  split; [|split; [|split; [|split; [|split; [|split; [|split; [|split; [|split]]]]]]]].
  - rewrite (bget_to_global fuel cpu pid d bn s idx l Hh Hidx Hbl Hl Hcl Hno Hnev) by lia.
    fold s2.
    destruct fuel as [|f]; [lia|]. cbn [global_loop]. run.
    rewrite (lru_all_min s2 j); auto.
    rewrite (after_scan_bound NBUF NBUCKET cpu idx j s2 ridx); auto.
    2:{ unfold s2. bst. rewrite ?E1, ?E2. exact Hrlk. }
    replace (refcnt (beyond s2)) with 0 by (symmetry; exact Hby0).
    cbn [Z.eqb snd fst]. fold s3. rewrite Hmig. exact Hrun.
  - rewrite Hbj, Hj4. cbn [next timestamp data set_next].
    unfold s3, s2. bst. rewrite ?E1, ?E2. bst. reflexivity.
  - destruct Hl4r as [_ Hc]. split; [exact Hr|].
    rewrite (Hti ridx Hne).
    apply chain_ext with (s := s4); [|exact Hc].
    intros k Hk. rewrite Hbk; [reflexivity|]. intros ->. contradiction.
  - destruct Hl4 as [_ Hc]. split; [exact Hi|]. rewrite Hhd.
    cbn [chain] in *. destruct Hc as (Hn & _ & Hc).
    split; [exact Hn|]. split; [exact Hj|].
    rewrite Hbj. cbn [next].
    apply chain_ext with (s := s4); [|exact Hc].
    intros k Hk. rewrite Hbk; [reflexivity|]. intros ->. contradiction.
  - intros k Hk. rewrite Hbk, Hk4 by exact Hk. reflexivity.
  - intros i Hi1 Hi2. rewrite Hti, Ht4 by auto. unfold s3, s2.
    apply bucket_eq; bst;
      destruct (Nat.eqb_spec i idx); destruct (Nat.eqb_spec i ridx); try congruence;
      reflexivity.
  - exact Htl.
  - rewrite (Hti ridx Hne). exact Htl4.
  - rewrite Hbc. exact Hbc4.
  - rewrite Hio. exact Hio4.
Qed.

(** *** bread, bwrite *)

(** X19.  [bread] of a block that is not cached, in a bucket with an
    unused slot: the slot [bget] recycles is filled from the disk by
    exactly one read transfer of that block and marked valid; the caller
    gets it locked, with a count of 1, holding the contents the disk has
    for the block.  The disk, the other slots and the lists are
    unchanged. *)
Theorem bread_miss_reads_block_once fuel cpu pid d bn s idx l1 j l2 :
  0 <= hash NBUCKET bn -> idx = Z.to_nat (hash NBUCKET bn) ->
  bucket_list NBUF NBUCKET s idx (l1 ++ j :: l2) ->
  tlock (table s idx) = None ->
  (forall k, In k (l1 ++ j :: l2) -> ~ bound_to s d bn k) ->
  evictable s j ->
  (forall k, In k l1 -> refcnt (bufs s k) = 0 ->
             timestamp (bufs s j) < timestamp (bufs s k)) ->
  (forall k, In k l2 -> refcnt (bufs s k) = 0 ->
             timestamp (bufs s j) <= timestamp (bufs s k)) ->
  lock (bufs s j) = None ->
  (length (l1 ++ j :: l2) <= fuel)%nat ->
  exists s',
    bread NBUF NBUCKET fuel cpu pid d bn s = Ret (Buf j) s' /\
    bufs s' j = mkbuf 1 d bn (Some pid) 1 (next (bufs s j)) (timestamp (bufs s j))
                      (disk s d bn) /\
    io s' = (false, d, bn) :: io s /\
    disk s' = disk s /\
    (forall k, k <> j -> bufs s' k = bufs s k) /\
    (forall i, table s' i = table s i).
Proof.
  intros Hh Hidx Hbl Hl Hno Hev H1 H2 Hlk Hf.
  assert (Hjn : (j < NBUF)%nat).
  { destruct Hbl as [_ Hc]. eapply chain_in_range; eauto.
    apply in_or_app. right. now left. }
  destruct (bget_local_evict fuel cpu pid d bn s idx l1 j l2
              Hh Hidx Hbl Hl Hno Hev H1 H2 Hlk Hf)
    as (s1 & Hrun & Hbj & Hk & Ht & Hbc & Hby & Htk & Hd & Hio).
  eexists. split; [|split; [|split; [|split; [|split]]]].
  - unfold bread. run. rewrite Hrun. rewrite rd_buf by auto.
    rewrite Hbj. cbn [valid Z.eqb]. unfold virtio_disk_rw. run.
    rewrite !rd_buf by auto. rewrite Hbj. cbn [dev blockno].
    rewrite wr_buf by auto. rewrite wr_buf by auto. reflexivity.
  - bst. rewrite Hbj, Hd. reflexivity.
  - cbn [io set_buf log_io]. rewrite Hio. reflexivity.
  - cbn [disk log_io set_buf]. exact Hd.
  - intros k Hne. bst. destruct (Nat.eqb_spec k j); [congruence|]. apply Hk. exact Hne.
  - intros i. bst. apply Ht.
Qed.

(** X20.  [bwrite] panics with "bwrite" unless the caller holds the sleep
    lock of the slot.  When the caller holds it, one write transfer puts
    the contents of the slot on the disk at the block the slot is bound to:
    the disk then holds these contents there and is unchanged at every
    other block, and the cache itself is not touched. *)
Theorem bwrite_contract pid j s :
  (j < NBUF)%nat ->
  (lock (bufs s j) <> Some pid -> bwrite NBUF NBUCKET pid (Buf j) s = Panic "bwrite") /\
  (lock (bufs s j) = Some pid ->
   exists s',
     bwrite NBUF NBUCKET pid (Buf j) s = Ret tt s' /\
     disk s' (dev (bufs s j)) (blockno (bufs s j)) = data (bufs s j) /\
     (forall d' bn', d' <> dev (bufs s j) \/ bn' <> blockno (bufs s j) ->
                     disk s' d' bn' = disk s d' bn') /\
     io s' = (true, dev (bufs s j), blockno (bufs s j)) :: io s /\
     bufs s' = bufs s /\ table s' = table s /\ bcache_lock s' = bcache_lock s).
Proof.
  intros Hj. split.
  - intros Hne. unfold bwrite. run. rewrite rd_buf by auto.
    destruct (lock (bufs s j)) as [p|]; cbn [holdingsleep negb]; [|reflexivity].
    destruct (Nat.eqb_spec p pid); [congruence|reflexivity].
  - intros Hlk. eexists. split; [|split; [|split; [|split]]].
    + unfold bwrite. run. rewrite rd_buf by auto. rewrite Hlk, sholding_self.
      cbn [negb]. unfold virtio_disk_rw. run. rewrite !rd_buf by auto. reflexivity.
    + cbn [disk log_io set_disk]. rewrite !Z.eqb_refl. reflexivity.
    + intros d' bn' Hne. cbn [disk log_io set_disk].
      destruct (Z.eqb_spec d' (dev (bufs s j))); destruct (Z.eqb_spec bn' (blockno (bufs s j)));
        cbn [andb]; try reflexivity.
      destruct Hne; contradiction.
    + reflexivity.
    + repeat split; reflexivity.
Qed.

(** *** brelse *)

(** X21.  [brelse] panics with "brelse" unless the caller holds the sleep
    lock of the slot.  When the caller holds it: the sleep lock is
    released, the count drops by one, and if it drops to 0 the slot gets
    the current value of [ticks] as its timestamp, which makes it the most
    recently used; the slot keeps its block, contents and place in its
    list, and nothing else changes.  A second [brelse] by the same caller
    panics. *)
Theorem brelse_contract cpu pid s j idx :
  (j < NBUF)%nat ->
  0 <= hash NBUCKET (blockno (bufs s j)) ->
  idx = Z.to_nat (hash NBUCKET (blockno (bufs s j))) ->
  (idx < NBUCKET)%nat -> tlock (table s idx) = None ->
  (lock (bufs s j) <> Some pid ->
   brelse NBUF NBUCKET cpu pid (Buf j) s = Panic "brelse") /\
  (lock (bufs s j) = Some pid -> 0 < refcnt (bufs s j) <= UINT_MAX ->
   exists s',
     brelse NBUF NBUCKET cpu pid (Buf j) s = Ret tt s' /\
     lock (bufs s' j) = None /\
     refcnt (bufs s' j) = refcnt (bufs s j) - 1 /\
     timestamp (bufs s' j) =
       (if refcnt (bufs s j) =? 1 then ticks s else timestamp (bufs s j)) /\
     dev (bufs s' j) = dev (bufs s j) /\ blockno (bufs s' j) = blockno (bufs s j) /\
     valid (bufs s' j) = valid (bufs s j) /\ data (bufs s' j) = data (bufs s j) /\
     next (bufs s' j) = next (bufs s j) /\
     same_but_slot j s s' /\
     brelse NBUF NBUCKET cpu pid (Buf j) s' = Panic "brelse").
Proof.
  intros Hj Hh Hidx Hi Hl. split.
  - intros Hne. unfold brelse. run. rewrite rd_buf by auto.
    destruct (lock (bufs s j)) as [p|]; cbn [holdingsleep negb]; [|reflexivity].
    destruct (Nat.eqb_spec p pid); [congruence|reflexivity].
  - intros Hlk Hrc.
    destruct (brelse_held NBUF NBUCKET cpu pid s j idx Hj Hlk Hh Hidx Hi Hl)
      as (s' & Hrun & Hbj & Hsame).
    assert (Hu : uint32 (refcnt (bufs s j) - 1) = refcnt (bufs s j) - 1).
    { unfold uint32, UINT_MAX in *. apply Z.mod_small. lia. }
    cbv zeta in Hbj. rewrite Hu in Hbj.
    assert (Hz : (refcnt (bufs s j) - 1 =? 0) = (refcnt (bufs s j) =? 1)).
    { destruct (Z.eqb_spec (refcnt (bufs s j) - 1) 0);
        destruct (Z.eqb_spec (refcnt (bufs s j)) 1); auto; lia. }
    rewrite Hz in Hbj.
    exists s'. split; [exact Hrun|]. rewrite Hbj.
    destruct (refcnt (bufs s j) =? 1);
      cbn [lock refcnt timestamp dev blockno valid data next
           set_timestamp set_refcnt set_lock];
      (do 9 (split; [first [reflexivity | exact Hsame]|]));
      unfold brelse; run; rewrite rd_buf by auto; rewrite Hbj;
      cbn [lock set_timestamp set_refcnt set_lock holdingsleep negb]; reflexivity.
Qed.

(** *** bpin, bunpin *)

(** Lines 96-101 change nothing, and what they return is what they started
    with or an object whose count is 0. *)
Lemma lru_bucket_sound idx : forall fuel b mintime replbuf s r s',
  lru_bucket NBUF NBUCKET fuel idx b mintime replbuf s = Ret r s' ->
  s' = s /\
  (r = replbuf \/
   exists b0, deref s r = Some b0 /\ refcnt b0 = 0 /\ timestamp b0 < mintime).
Proof.
  induction fuel as [|f IH]; intros b mintime replbuf s r s'; cbn [lru_bucket].
  - destruct (ptr_eqb b (Head idx)); [|discriminate].
    intros H. inversion H. auto.
  - destruct (ptr_eqb b (Head idx)); [intros H; inversion H; auto|]. run.
    destruct (rd b refcnt s) as [rc s0| | | |] eqn:R0; try discriminate.
    apply rd_inv in R0. destruct R0 as (-> & b0 & Hb0 & ->).
    destruct (rd b timestamp s) as [ts s0| | | |] eqn:R1; try discriminate.
    apply rd_inv in R1. destruct R1 as (-> & b1 & Hb1 & ->).
    destruct (rd b next s) as [nx s0| | | |] eqn:R2; try discriminate.
    apply rd_inv in R2. destruct R2 as (-> & _).
    rewrite Hb0 in Hb1. inversion Hb1; subst b1.
    destruct (Z.eqb_spec (refcnt b0) 0) as [E|E]; cbn [andb].
    + destruct (Z.ltb_spec (timestamp b0) mintime) as [L|L].
      * intros H. apply IH in H. destruct H as [-> [->|(b2 & H2 & Hr & Ht)]].
        -- split; [reflexivity|]. right. exists b0. auto.
        -- split; [reflexivity|]. right. exists b2. repeat split; auto. lia.
      * apply IH.
    + apply IH.
Qed.

Lemma pin_run cpu j s idx delta :
  (j < NBUF)%nat ->
  0 <= hash NBUCKET (blockno (bufs s j)) ->
  idx = Z.to_nat (hash NBUCKET (blockno (bufs s j))) ->
  (idx < NBUCKET)%nat -> tlock (table s idx) = None ->
  (rc <- rd (Buf j) refcnt ;;
   wr (Buf j) (set_refcnt (uint32 (rc + delta))) ;;
   release_bucket NBUCKET cpu idx) (set_tlock idx (Some cpu) s) =
  Ret tt (set_tlock idx None
            (set_buf j (set_refcnt (uint32 (refcnt (bufs s j) + delta)) (bufs s j))
               (set_tlock idx (Some cpu) s))).
Proof.
  intros Hj Hh Hidx Hi Hl. run. rewrite rd_buf, wr_buf by auto.
  rewrite release_bucket_held by (auto; bst; reflexivity). reflexivity.
Qed.

(** X22.  [bpin] raises the reference count of a slot by one and [bunpin]
    lowers it by one, each under the lock of the bucket of the slot and
    touching nothing else; a [bunpin] after a [bpin] puts the cache back as
    it was.  While the slot is pinned its count is not 0: neither scan for
    a slot to recycle takes it, not the scan of a bucket list (lines
    96-101), from any cursor and with any candidate so far, and not the scan
    of the whole array (lines 110-115). *)
Theorem bpin_bunpin_roundtrip cpu j s idx :
  (j < NBUF)%nat ->
  0 <= hash NBUCKET (blockno (bufs s j)) ->
  idx = Z.to_nat (hash NBUCKET (blockno (bufs s j))) ->
  (idx < NBUCKET)%nat -> tlock (table s idx) = None ->
  0 <= refcnt (bufs s j) < UINT_MAX ->
  exists s1 s2,
    bpin NBUF NBUCKET cpu (Buf j) s = Ret tt s1 /\
    bufs s1 j = set_refcnt (refcnt (bufs s j) + 1) (bufs s j) /\
    same_but_slot j s s1 /\
    ~ evictable s1 j /\
    (forall fuel i b mintime replbuf r s', replbuf <> Buf j ->
       lru_bucket NBUF NBUCKET fuel i b mintime replbuf s1 = Ret r s' ->
       r <> Buf j) /\
    (forall js mintime replbuf, replbuf <> Buf j ->
                                lru_all s1 js mintime replbuf <> Buf j) /\
    bunpin NBUF NBUCKET cpu (Buf j) s1 = Ret tt s2 /\
    (forall k, bufs s2 k = bufs s k) /\
    (forall i, table s2 i = table s i) /\
    bcache_lock s2 = bcache_lock s /\ io s2 = io s.
Proof.
  intros Hj Hh Hidx Hi Hl Hrc.
  assert (Hu : uint32 (refcnt (bufs s j) + 1) = refcnt (bufs s j) + 1).
  { unfold uint32, UINT_MAX in *. apply Z.mod_small. lia. }
  pose (s1 := set_tlock idx None
                (set_buf j (set_refcnt (uint32 (refcnt (bufs s j) + 1)) (bufs s j))
                   (set_tlock idx (Some cpu) s))).
  assert (Hb1 : bufs s1 j = set_refcnt (refcnt (bufs s j) + 1) (bufs s j)).
  { unfold s1. bst. rewrite Hu. reflexivity. }
  assert (Hl1 : tlock (table s1 idx) = None) by (unfold s1; bst; reflexivity).
  assert (Hbn1 : blockno (bufs s1 j) = blockno (bufs s j)) by (rewrite Hb1; reflexivity).
  exists s1. eexists.
  split; [|split; [|split; [|split; [|split; [|split; [|split; [|split; [|split; [|split]]]]]]]]].
  - unfold bpin. unfold bind at 1. rewrite rd_buf by auto.
    destruct (Z.ltb_spec (hash NBUCKET (blockno (bufs s j))) 0); [lia|].
    cbv zeta. rewrite <- Hidx. unfold bind at 1.
    rewrite acquire_bucket_free by auto.
    apply (pin_run cpu j s idx 1); auto.
  - exact Hb1.
  - unfold same_but_slot, s1. bst. repeat split; auto.
    + intros k Hk. bst. destruct (Nat.eqb_spec k j); [congruence|reflexivity].
    + intros i. apply bucket_eq; bst; auto.
      destruct (Nat.eqb_spec i idx); subst; auto.
  - intros [C _]. rewrite Hb1 in C. cbn [refcnt set_refcnt] in C. lia.
  - intros fuel i b mintime replbuf r s' Hne Hrun C.
    destruct (lru_bucket_sound i fuel b mintime replbuf s1 r s' Hrun)
      as [_ [E|(b0 & Hd & Hr0 & _)]]; [congruence|].
    rewrite C in Hd. cbn [deref] in Hd.
    destruct (j <? NBUF)%nat; [|discriminate Hd].
    assert (E0 : b0 = bufs s1 j) by (injection Hd; auto).
    rewrite E0, Hb1 in Hr0. cbn [refcnt set_refcnt] in Hr0. lia.
  - intros js mintime replbuf Hne C.
    destruct (lru_all_sound s1 js mintime replbuf) as [E|(k & E & _ & Hk & _)].
    + congruence.
    + rewrite C in E. inversion E; subst k. rewrite Hb1 in Hk.
      cbn [refcnt set_refcnt] in Hk. lia.
  - unfold bunpin. unfold bind at 1. rewrite rd_buf by auto. rewrite Hbn1.
    destruct (Z.ltb_spec (hash NBUCKET (blockno (bufs s j))) 0); [lia|].
    cbv zeta. rewrite <- Hidx. unfold bind at 1.
    rewrite acquire_bucket_free by auto.
    apply (pin_run cpu j s1 idx (-1)); auto; rewrite Hbn1; auto.
  - intros k. bst. destruct (Nat.eqb_spec k j) as [->|Ne].
    + rewrite Hb1. cbn [refcnt set_refcnt].
      replace (refcnt (bufs s j) + 1 + -1) with (refcnt (bufs s j)) by lia.
      assert (Hu' : uint32 (refcnt (bufs s j)) = refcnt (bufs s j)).
      { unfold uint32, UINT_MAX in *. apply Z.mod_small. lia. }
      rewrite Hu'. destruct (bufs s j); reflexivity.
    + unfold s1. bst. destruct (Nat.eqb_spec k j); [congruence|reflexivity].
  - intros i. unfold s1. apply bucket_eq; bst;
      destruct (Nat.eqb_spec i idx); subst; auto.
  - reflexivity.
  - reflexivity.
Qed.

(** *** What a miss may take *)

Lemma lookup_ro idx d bn : forall fuel b s r s',
  lookup NBUF NBUCKET fuel idx d bn b s = Ret r s' -> s' = s.
Proof.
  induction fuel as [|f IH]; intros b s r s'; cbn [lookup].
  - destruct (ptr_eqb b (Head idx)); [|discriminate]. intros H. now inversion H.
  - destruct (ptr_eqb b (Head idx)); [intros H; now inversion H|]. run.
    destruct (rd b dev s) as [bd s0| | | |] eqn:R0; try discriminate.
    apply rd_inv in R0. destruct R0 as (-> & _).
    destruct (rd b blockno s) as [bb s0| | | |] eqn:R1; try discriminate.
    apply rd_inv in R1. destruct R1 as (-> & _).
    destruct ((bd =? d) && (bb =? bn)); [intros H; now inversion H|].
    destruct (rd b next s) as [nx s0| | | |] eqn:R2; try discriminate.
    apply rd_inv in R2. destruct R2 as (-> & _). apply IH.
Qed.

(** One round of the loop of line 108 that ends in another round has
    changed no slot. *)
Lemma after_scan_again cpu idx r s s' :
  after_scan NBUF NBUCKET cpu idx r s = Ret Again s' -> bufs s' = bufs s.
Proof.
  unfold after_scan. destruct (ptr_eqb r Null).
  { intros H. now inversion H. }
  run.
  destruct (rd r blockno s) as [bn s0| | | |] eqn:R0; try discriminate.
  apply rd_inv in R0. destruct R0 as (-> & _).
  destruct (bn =? UINT_MAX).
  - destruct (rd (Head idx) next s) as [hn s0| | | |]; try discriminate.
    destruct (wr r (set_next hn) s0) as [[] s1| | | |]; try discriminate.
    destruct (wr (Head idx) (set_next r) s1) as [[] s2| | | |]; try discriminate.
    destruct (release_bcache cpu s2) as [[] s3| | | |]; discriminate.
  - destruct (hash NBUCKET bn <? 0); [discriminate|].
    destruct (acquire_bucket NBUCKET cpu (Z.to_nat (hash NBUCKET bn)) s)
      as [[] s1| | | |] eqn:A; try discriminate.
    assert (E1 : bufs s1 = bufs s).
    { revert A. unfold acquire_bucket.
      destruct (Z.to_nat (hash NBUCKET bn) <? NBUCKET)%nat; [|discriminate].
      destruct (tlock (table s _)); [discriminate|].
      intros H. now inversion H. }
    destruct (refcnt (beyond s1) =? 0); [discriminate|].
    destruct (release_bucket NBUCKET cpu _ s1) as [[] s2| | | |] eqn:R; try discriminate.
    apply release_bucket_inv in R. subst s2.
    intros H. inversion H. exact E1.
Qed.

(** The slot the loop of line 108 comes out with had a count of 0 when the
    loop was entered. *)
Lemma global_loop_sound cpu idx : forall fuel r s res s',
  global_loop NBUF NBUCKET fuel cpu idx r s = Ret res s' ->
  (r = Null \/ exists j, r = Buf j /\ (j < NBUF)%nat /\ evictable s j) ->
  exists j, fst res = Buf j /\ (j < NBUF)%nat /\ evictable s j.
Proof.
  induction fuel as [|f IH]; intros r s res s' H Hr; [discriminate|].
  revert H. cbn [global_loop]. run.
  assert (Hr1 : lru_all s (seq 0 NBUF) UINT_MAX r = Null \/
                exists j, lru_all s (seq 0 NBUF) UINT_MAX r = Buf j /\
                          (j < NBUF)%nat /\ evictable s j).
  { destruct (lru_all_sound s (seq 0 NBUF) UINT_MAX r) as [->|(j & -> & Hj & Hrc & Hts)].
    - exact Hr.
    - right. exists j. apply in_seq in Hj. repeat split; auto. lia. }
  destruct (after_scan NBUF NBUCKET cpu idx (lru_all s (seq 0 NBUF) UINT_MAX r) s)
    as [v s1| | | |] eqn:A; try discriminate.
  assert (Hnn : v <> Again -> lru_all s (seq 0 NBUF) UINT_MAX r <> Null).
  { intros Hv C. rewrite C in A. unfold after_scan in A. cbn [ptr_eqb] in A.
    inversion A. congruence. }
  destruct v as [|ridx|].
  - intros H. inversion H; subst. cbn [fst].
    destruct Hr1 as [C|Hj]; [|exact Hj]. exfalso. apply Hnn; [discriminate|exact C].
  - intros H. inversion H; subst. cbn [fst].
    destruct Hr1 as [C|Hj]; [|exact Hj]. exfalso. apply Hnn; [discriminate|exact C].
  - intros H. apply after_scan_again in A.
    apply IH in H.
    + destruct H as (j & Hf & Hj & Hev). exists j. split; [exact Hf|]. split; [exact Hj|].
      unfold evictable in *. rewrite A in Hev. exact Hev.
    + destruct Hr1 as [C|(j & Hf & Hj & Hev)]; [now left|].
      right. exists j. split; [exact Hf|]. split; [exact Hj|].
      unfold evictable in *. rewrite A. exact Hev.
Qed.

(** X23.  A call of [bget] that runs undisturbed never takes a slot that is
    in use: when the block is not cached, whatever way the slot returned
    was found (in the bucket, never bound, or moved from another bucket),
    its reference count was 0 when the call began, and its timestamp below
    0xffffffff. *)
Theorem bget_miss_takes_unused_slot fuel cpu pid d bn s s1 p s' :
  search NBUF NBUCKET fuel cpu (Z.to_nat (hash NBUCKET bn)) d bn s = Ret None s1 ->
  bget NBUF NBUCKET fuel cpu pid d bn s = Ret p s' ->
  exists b, deref s p = Some b /\ refcnt b = 0 /\ timestamp b < UINT_MAX.
Proof.
  intros Hs H.
  assert (E1 : s1 = set_tlock (Z.to_nat (hash NBUCKET bn)) (Some cpu) s).
  { revert Hs. unfold search. run.
    destruct (acquire_bucket NBUCKET cpu _ s) as [[] sa| | | |] eqn:A; try discriminate.
    assert (sa = set_tlock (Z.to_nat (hash NBUCKET bn)) (Some cpu) s) as ->.
    { revert A. unfold acquire_bucket.
      destruct (Z.to_nat (hash NBUCKET bn) <? NBUCKET)%nat; [|discriminate].
      destruct (tlock (table s _)); [discriminate|].
      intros H0. now inversion H0. }
    destruct (rd (Head _) next _) as [hn s0| | | |] eqn:R0; try discriminate.
    apply rd_inv in R0. destruct R0 as (-> & _).
    intros H0. apply lookup_ro in H0. exact H0. }
  unfold bget in H. destruct (hash NBUCKET bn <? 0); [discriminate|].
  cbv zeta in H. revert H. run. rewrite Hs.
  destruct (rd (Head (Z.to_nat (hash NBUCKET bn))) next s1) as [hn s2| | | |] eqn:R0;
    try discriminate.
  apply rd_inv in R0. destruct R0 as (-> & _).
  destruct (lru_bucket NBUF NBUCKET fuel _ hn UINT_MAX Null s1) as [r s3| | | |] eqn:L;
    try discriminate.
  apply lru_bucket_sound in L. destruct L as (-> & Hr).
  destruct (ptr_eqb_spec r Null) as [->|Hnn]; cbn [negb].
  - unfold acquire_bcache.
    destruct (bcache_lock s1); [discriminate|].
    destruct (global_loop NBUF NBUCKET fuel cpu _ Null _) as [res s5| | | |] eqn:G;
      try discriminate.
    apply global_loop_sound in G; [|now left].
    destruct G as (j & Hf & Hj & Hrc & Hts).
    assert (Hb : bufs (set_bcache_lock (Some cpu) s1) j = bufs s j) by (subst s1; reflexivity).
    rewrite Hb in Hrc, Hts.
    assert (Hfin : forall s6 p0 s0,
              find NBUF NBUCKET cpu pid (Z.to_nat (hash NBUCKET bn)) (fst res) d bn s6
                = Ret p0 s0 ->
              exists b, deref s p0 = Some b /\ refcnt b = 0 /\ timestamp b < UINT_MAX).
    { intros s6 p0 s0 H. apply find_binds in H. destruct H as (-> & _).
      rewrite Hf. exists (bufs s j). rewrite deref_buf by auto. auto. }
    destruct (snd res) as [ridx|].
    + destruct (migrate NBUF NBUCKET cpu _ ridx (fst res) s5) as [[] s6| | | |];
        try discriminate.
      apply Hfin.
    + apply Hfin.
  - intros H. apply find_binds in H. destruct H as (-> & _).
    destruct Hr as [C|(b0 & Hb0 & Hrc & Hts)]; [contradiction|].
    exists b0. subst s1. rewrite deref_set_tlock in Hb0. auto.
Qed.

End Further.

(** *** The small cache *)

Ltac concrete := vm_compute; first [reflexivity | discriminate | lia | intuition discriminate].

Lemma tiny_two j : (j < Tiny.NBUF)%nat -> j = 0%nat \/ j = 1%nat.
Proof. unfold Tiny.NBUF. lia. Qed.

Ltac tiny_full_premises :=
  [> concrete
   | concrete
   | split; [unfold Tiny.NBUCKET; lia|]; cbn [chain];
     repeat split; try (unfold Tiny.NBUF; lia); concrete
   | concrete
   | concrete
   | intros k [<-|[<-|[]]]; intros [_ C]; vm_compute in C; discriminate
   | let j := fresh "j" in let Hj := fresh "Hj" in
     intros j Hj; destruct (tiny_two j Hj) as [-> | ->]; concrete ].

Lemma bget_without_free_slot_witness :
  bget Tiny.NBUF Tiny.NBUCKET 0 0 3 1 4 Tiny.full = Fuel /\
  bget Tiny.NBUF Tiny.NBUCKET 5 0 3 1 4 Tiny.full = Fuel /\
  bget Tiny.NBUF Tiny.NBUCKET 100 0 3 1 4 Tiny.full = Fuel.
Proof.
  split; [|split].
  - apply (bget_without_free_slot_never_ends Tiny.NBUF Tiny.NBUCKET 0 0 3 1 4
             Tiny.full 0%nat [1; 0]%nat); tiny_full_premises.
  - apply (bget_without_free_slot_never_ends Tiny.NBUF Tiny.NBUCKET 5 0 3 1 4
             Tiny.full 0%nat [1; 0]%nat); tiny_full_premises.
  - apply (bget_without_free_slot_never_ends Tiny.NBUF Tiny.NBUCKET 100 0 3 1 4
             Tiny.full 0%nat [1; 0]%nat); tiny_full_premises.
Defined.

(** C2, as the code has it.  Slot 1 is linked in bucket 0, bound to block
    2 and unused; core 0 wants block 1 and its scan of the array chooses
    slot 1.  Core 1 then takes block 2: a hit on slot 1, whose reference
    count is now 1.  Core 0 goes on, takes the lock of bucket 0 and tests
    [b->refcnt], which is the word behind the array and not the count of
    slot 1: the word being 0, core 0 leaves the loop, and moves the slot
    that is in use to bucket 1.  And were the word not 0, core 0 would let
    go of the lock and scan again although the slot it chose is unused. *)
Theorem recheck_reads_behind_the_array :
  lru_all Tiny.a_scans (seq 0 Tiny.NBUF) UINT_MAX Null = Buf 1 /\
  refcnt (bufs Tiny.a_scans 1) = 0 /\
  value_of (bget Tiny.NBUF Tiny.NBUCKET 4 1 2 1 2 Tiny.a_scans) Null = Buf 1 /\
  refcnt (bufs Tiny.b_hits 1) = 1 /\
  value_of (after_scan Tiny.NBUF Tiny.NBUCKET 0 1 (Buf 1) Tiny.b_hits) Again = Break 0 /\
  returned (migrate Tiny.NBUF Tiny.NBUCKET 0 1 0 (Buf 1)
             (state_of (after_scan Tiny.NBUF Tiny.NBUCKET 0 1 (Buf 1) Tiny.b_hits)
                       Tiny.off)) = true /\
  lru_all Tiny.a_scans_stray (seq 0 Tiny.NBUF) UINT_MAX Null = Buf 1 /\
  refcnt (bufs Tiny.a_scans_stray 1) = 0 /\
  returned (after_scan Tiny.NBUF Tiny.NBUCKET 0 1 (Buf 1) Tiny.a_scans_stray) = true /\
  value_of (after_scan Tiny.NBUF Tiny.NBUCKET 0 1 (Buf 1) Tiny.a_scans_stray) GoFind
    = Again.
Proof. repeat split; vm_compute; reflexivity. Qed.

(** C3, as the code has it.  Core 0 asks for block 1 (bucket 1, empty)
    when bucket 0 lists slot 1 and then slot 0.  If the free slot is slot
    1, the first of the list, it moves to bucket 1 and slot 0 stays where
    it is.  If the free slot is slot 0, the second of the list, the search
    [for(b = &rbucket->head; b->next != replbuf; b++)] steps off the head
    of bucket 0 and the call has no defined result. *)
Theorem migration_by_position :
  (next (head (table Tiny.first_free 0)) = Buf 1 /\
   next (bufs Tiny.first_free 1) = Buf 0 /\
   next (bufs Tiny.first_free 0) = Head 0 /\
   refcnt (bufs Tiny.first_free 1) = 0 /\
   let o := bget Tiny.NBUF Tiny.NBUCKET 4 0 3 1 1 Tiny.first_free in
   value_of o Null = Buf 1 /\
   next (head (table (state_of o Tiny.off) 1)) = Buf 1 /\
   next (bufs (state_of o Tiny.off) 1) = Head 1 /\
   next (head (table (state_of o Tiny.off) 0)) = Buf 0 /\
   bufs (state_of o Tiny.off) 0 = bufs Tiny.first_free 0) /\
  (next (head (table Tiny.second_free 0)) = Buf 1 /\
   next (bufs Tiny.second_free 1) = Buf 0 /\
   next (bufs Tiny.second_free 0) = Head 0 /\
   refcnt (bufs Tiny.second_free 0) = 0 /\
   lru_all Tiny.second_free (seq 0 Tiny.NBUF) UINT_MAX Null = Buf 0 /\
   bget Tiny.NBUF Tiny.NBUCKET 4 0 3 1 1 Tiny.second_free = Undef).
Proof. repeat split; vm_compute; reflexivity. Qed.

Lemma hit_path_witness :
  exists s1,
    bget Tiny.NBUF Tiny.NBUCKET 4 0 1 1 5 Tiny.c2 = Ret (Buf 0) s1 /\
    refcnt (bufs s1 0) = refcnt (bufs Tiny.c2 0) + 1 /\
    lock (bufs s1 0) = Some 1%nat /\
    bound_to s1 1 5 0 /\
    valid (bufs s1 0) = valid (bufs Tiny.c2 0) /\
    next (bufs s1 0) = next (bufs Tiny.c2 0) /\
    data (bufs s1 0) = data (bufs Tiny.c2 0) /\
    same_but_slot 0 Tiny.c2 s1 /\
    (valid (bufs Tiny.c2 0) <> 0 ->
     exists s2 s3,
       brelse Tiny.NBUF Tiny.NBUCKET 0 1 (Buf 0) s1 = Ret tt s2 /\
       bread Tiny.NBUF Tiny.NBUCKET 4 0 1 1 5 s2 = Ret (Buf 0) s3 /\
       io s3 = io Tiny.c2 /\
       valid (bufs s3 0) = valid (bufs Tiny.c2 0) /\
       data (bufs s3 0) = data (bufs Tiny.c2 0)).
Proof.
  apply (hit_path Tiny.NBUF Tiny.NBUCKET 4 0 1 1 5 Tiny.c2 1%nat [] 0%nat []).
  - concrete.
  - concrete.
  - split; [unfold Tiny.NBUCKET; lia|]. cbn [chain app].
    repeat split; try (unfold Tiny.NBUF; lia); concrete.
  - concrete.
  - intros k [].
  - split; concrete.
  - concrete.
  - split; concrete.
  - cbn [length]. lia.
Defined.

(** Scenario C on the small cache: the first [bread] of block 5 is a miss
    and makes one transfer; after [brelse] the second [bread] returns the
    same slot, still valid, and the transfer of the first is the only
    one. *)
Example scenario_C :
  value_of (bread Tiny.NBUF Tiny.NBUCKET 4 0 1 1 5 Tiny.s0) Null = Buf 0 /\
  io Tiny.c1 = [(false, 1, 5)] /\
  returned (brelse Tiny.NBUF Tiny.NBUCKET 0 1 (Buf 0) Tiny.c1) = true /\
  value_of (bread Tiny.NBUF Tiny.NBUCKET 4 0 1 1 5 Tiny.c2) Null = Buf 0 /\
  io Tiny.c3 = [(false, 1, 5)] /\
  valid (bufs Tiny.c3 0) = 1.
Proof. repeat split; vm_compute; reflexivity. Qed.

Lemma bget_miss_binds_witness :
  exists b,
    deref Tiny.NBUF Tiny.NBUCKET Tiny.s1 (Buf 0) = Some b /\
    dev b = 1 /\ blockno b = 0 /\ valid b = 0 /\ refcnt b = 1.
Proof.
  apply (bget_miss_binds Tiny.NBUF Tiny.NBUCKET 4 0 1 1 0 Tiny.s0
           (state_of (search Tiny.NBUF Tiny.NBUCKET 4 0 0 1 0 Tiny.s0) Tiny.off)
           (Buf 0) Tiny.s1).
  - change (Z.to_nat (hash Tiny.NBUCKET 0)) with 0%nat.
    rewrite (returned_eq (search _ _ _ _ _ _ _ _) None Tiny.off) at 1
      by (vm_compute; reflexivity).
    f_equal; vm_compute; reflexivity.
  - unfold Tiny.s1.
    rewrite (returned_eq (bget _ _ _ _ _ _ _ _) Null Tiny.off) at 1
      by (vm_compute; reflexivity).
    f_equal; vm_compute; reflexivity.
Defined.

(** The other two ways of a miss: a free slot of the bucket itself, and a
    slot taken from the front of another bucket. *)
Example miss_paths :
  (let o := bget Tiny.NBUF Tiny.NBUCKET 4 0 3 1 4 Tiny.first_free in
   value_of o Null = Buf 1 /\
   dev (bufs (state_of o Tiny.off) 1) = 1 /\ blockno (bufs (state_of o Tiny.off) 1) = 4 /\
   valid (bufs (state_of o Tiny.off) 1) = 0 /\ refcnt (bufs (state_of o Tiny.off) 1) = 1) /\
  (let o := bget Tiny.NBUF Tiny.NBUCKET 4 0 3 1 1 Tiny.first_free in
   value_of o Null = Buf 1 /\
   dev (bufs (state_of o Tiny.off) 1) = 1 /\ blockno (bufs (state_of o Tiny.off) 1) = 1 /\
   valid (bufs (state_of o Tiny.off) 1) = 0 /\ refcnt (bufs (state_of o Tiny.off) 1) = 1).
Proof. repeat split; vm_compute; reflexivity. Qed.

(** *** The further facts on the small cache *)

Ltac tiny_list :=
  split; [unfold Tiny.NBUCKET; lia|]; cbn [chain app];
  repeat split; try (unfold Tiny.NBUF; lia); concrete.

Lemma hash_range_witness :
  (5 < 2 ^ 31 ->
     hash Tiny.NBUCKET 5 = 5 mod Z.of_nat Tiny.NBUCKET /\
     0 <= hash Tiny.NBUCKET 5 < Z.of_nat Tiny.NBUCKET) /\
  (2 ^ 31 <= 5 ->
     hash Tiny.NBUCKET 5 = - ((2 ^ 32 - 5) mod Z.of_nat Tiny.NBUCKET) /\
     - Z.of_nat Tiny.NBUCKET < hash Tiny.NBUCKET 5 <= 0) /\
  ((1 < Tiny.NBUCKET)%nat -> hash Tiny.NBUCKET UINT_MAX = -1).
Proof.
  apply (hash_range Tiny.NBUCKET 5).
  - unfold Tiny.NBUCKET. lia.
  - lia.
Defined.

Lemma bget_recycles_lru_of_bucket_witness :
  exists s',
    bget Tiny.NBUF Tiny.NBUCKET 4 0 3 1 4 Tiny.first_free = Ret (Buf 1) s' /\
    bound_to s' 1 4 1 /\ valid (bufs s' 1) = 0 /\ refcnt (bufs s' 1) = 1 /\
    lock (bufs s' 1) = Some 3%nat /\
    next (bufs s' 1) = next (bufs Tiny.first_free 1) /\
    bucket_list Tiny.NBUF Tiny.NBUCKET s' 0 ([] ++ 1%nat :: [0%nat]) /\
    same_but_slot 1 Tiny.first_free s' /\ io s' = io Tiny.first_free.
Proof.
  apply (bget_recycles_lru_of_bucket Tiny.NBUF Tiny.NBUCKET 4 0 3 1 4 Tiny.first_free
           0%nat [] 1%nat [0%nat]).
  - concrete.
  - concrete.
  - tiny_list.
  - concrete.
  - intros k [<-|[<-|[]]]; intros [_ C]; vm_compute in C; discriminate C.
  - split; concrete.
  - intros k [].
  - intros k [<-|[]] C. vm_compute in C. discriminate C.
  - concrete.
  - cbn [length app]. lia.
Defined.

Lemma bget_takes_unbound_slot_witness :
  exists s',
    bget Tiny.NBUF Tiny.NBUCKET 4 0 1 1 0 Tiny.s0 = Ret (Buf 0) s' /\
    bound_to s' 1 0 0 /\ valid (bufs s' 0) = 0 /\ refcnt (bufs s' 0) = 1 /\
    lock (bufs s' 0) = Some 1%nat /\
    bucket_list Tiny.NBUF Tiny.NBUCKET s' 0 [0%nat] /\
    (forall k, k <> 0%nat -> bufs s' k = bufs Tiny.s0 k) /\
    (forall i, i <> 0%nat -> table s' i = table Tiny.s0 i) /\
    tlock (table s' 0) = None /\ bcache_lock s' = None /\ io s' = io Tiny.s0.
Proof.
  apply (bget_takes_unbound_slot Tiny.NBUF Tiny.NBUCKET 4 0 1 1 0 Tiny.s0 0%nat [] 0%nat).
  - concrete.
  - concrete.
  - tiny_list.
  - concrete.
  - concrete.
  - intros k [].
  - intros k [].
  - unfold Tiny.NBUF. lia.
  - split; concrete.
  - concrete.
  - intros k Hk. lia.
  - unfold Tiny.NBUF. intros k Hk _. assert (k = 1%nat) as -> by lia. concrete.
  - concrete.
  - cbn [length]. lia.
Defined.

Lemma first_bget_after_binit_witness :
  exists s0 s',
    binit Tiny.NBUF Tiny.NBUCKET (boot zero_buf 0 (fun _ _ => [])) = Ret tt s0 /\
    bget Tiny.NBUF Tiny.NBUCKET 4 0 1 1 5 s0 = Ret (Buf 0) s' /\
    bufs s' 0%nat = mkbuf 0 1 5 (Some 1%nat) 1 (Head 1) 0 [] /\
    bucket_list Tiny.NBUF Tiny.NBUCKET s' 1 [0%nat] /\
    (forall i, (i < Tiny.NBUCKET)%nat -> i <> 1%nat ->
               bucket_list Tiny.NBUF Tiny.NBUCKET s' i []) /\
    (forall i, (i < Tiny.NBUCKET)%nat -> tlock (table s' i) = None) /\
    bcache_lock s' = None /\ io s' = [].
Proof.
  apply (first_bget_after_binit Tiny.NBUF Tiny.NBUCKET 4 0 1 1 5 zero_buf 0
           (fun _ _ => []) 1%nat).
  - unfold Tiny.NBUF. lia.
  - unfold Tiny.NBUCKET. lia.
  - lia.
  - reflexivity.
  - lia.
Defined.

Lemma bget_moves_first_slot_of_other_bucket_witness :
  exists s',
    bget Tiny.NBUF Tiny.NBUCKET 4 0 3 1 1 Tiny.first_free = Ret (Buf 1) s' /\
    bufs s' 1%nat = mkbuf 0 1 1 (Some 3%nat) 1 (next (head (table Tiny.first_free 1)))
                          (timestamp (bufs Tiny.first_free 1))
                          (data (bufs Tiny.first_free 1)) /\
    bucket_list Tiny.NBUF Tiny.NBUCKET s' 0 [0%nat] /\
    bucket_list Tiny.NBUF Tiny.NBUCKET s' 1 [1%nat] /\
    (forall k, k <> 1%nat -> bufs s' k = bufs Tiny.first_free k) /\
    (forall i, i <> 1%nat -> i <> 0%nat -> table s' i = table Tiny.first_free i) /\
    tlock (table s' 1) = None /\ tlock (table s' 0) = None /\
    bcache_lock s' = None /\ io s' = io Tiny.first_free.
Proof.
  apply (bget_moves_first_slot_of_other_bucket Tiny.NBUF Tiny.NBUCKET 4 0 3 1 1
           Tiny.first_free 1%nat [] 1%nat 0%nat [0%nat]).
  - concrete.
  - concrete.
  - tiny_list.
  - concrete.
  - concrete.
  - intros k [].
  - intros k [].
  - unfold Tiny.NBUF. lia.
  - split; concrete.
  - intros k Hk C. assert (k = 0%nat) as -> by lia. vm_compute in C. discriminate C.
  - unfold Tiny.NBUF. intros k Hk. lia.
  - concrete.
  - concrete.
  - concrete.
  - lia.
  - tiny_list.
  - intros [C|[]]. discriminate.
  - concrete.
  - concrete.
  - concrete.
  - cbn [length]. lia.
Defined.

Lemma bread_miss_reads_block_once_witness :
  exists s',
    bread Tiny.NBUF Tiny.NBUCKET 4 0 3 1 4 Tiny.first_free = Ret (Buf 1) s' /\
    bufs s' 1%nat = mkbuf 1 1 4 (Some 3%nat) 1 (next (bufs Tiny.first_free 1))
                          (timestamp (bufs Tiny.first_free 1))
                          (disk Tiny.first_free 1 4) /\
    io s' = (false, 1, 4) :: io Tiny.first_free /\
    disk s' = disk Tiny.first_free /\
    (forall k, k <> 1%nat -> bufs s' k = bufs Tiny.first_free k) /\
    (forall i, table s' i = table Tiny.first_free i).
Proof.
  apply (bread_miss_reads_block_once Tiny.NBUF Tiny.NBUCKET 4 0 3 1 4 Tiny.first_free
           0%nat [] 1%nat [0%nat]).
  - concrete.
  - concrete.
  - tiny_list.
  - concrete.
  - intros k [<-|[<-|[]]]; intros [_ C]; vm_compute in C; discriminate C.
  - split; concrete.
  - intros k [].
  - intros k [<-|[]] C. vm_compute in C. discriminate C.
  - concrete.
  - cbn [length app]. lia.
Defined.

Lemma bwrite_contract_witness :
  (lock (bufs Tiny.c1 0) <> Some 1%nat ->
   bwrite Tiny.NBUF Tiny.NBUCKET 1 (Buf 0) Tiny.c1 = Panic "bwrite") /\
  (lock (bufs Tiny.c1 0) = Some 1%nat ->
   exists s',
     bwrite Tiny.NBUF Tiny.NBUCKET 1 (Buf 0) Tiny.c1 = Ret tt s' /\
     disk s' (dev (bufs Tiny.c1 0)) (blockno (bufs Tiny.c1 0)) = data (bufs Tiny.c1 0) /\
     (forall d' bn', d' <> dev (bufs Tiny.c1 0) \/ bn' <> blockno (bufs Tiny.c1 0) ->
                     disk s' d' bn' = disk Tiny.c1 d' bn') /\
     io s' = (true, dev (bufs Tiny.c1 0), blockno (bufs Tiny.c1 0)) :: io Tiny.c1 /\
     bufs s' = bufs Tiny.c1 /\ table s' = table Tiny.c1 /\
     bcache_lock s' = bcache_lock Tiny.c1).
Proof.
  apply (bwrite_contract Tiny.NBUF Tiny.NBUCKET 1 0 Tiny.c1).
  unfold Tiny.NBUF. lia.
Defined.

Lemma brelse_contract_witness :
  (lock (bufs Tiny.c1 0) <> Some 1%nat ->
   brelse Tiny.NBUF Tiny.NBUCKET 0 1 (Buf 0) Tiny.c1 = Panic "brelse") /\
  (lock (bufs Tiny.c1 0) = Some 1%nat -> 0 < refcnt (bufs Tiny.c1 0) <= UINT_MAX ->
   exists s',
     brelse Tiny.NBUF Tiny.NBUCKET 0 1 (Buf 0) Tiny.c1 = Ret tt s' /\
     lock (bufs s' 0) = None /\
     refcnt (bufs s' 0) = refcnt (bufs Tiny.c1 0) - 1 /\
     timestamp (bufs s' 0) =
       (if refcnt (bufs Tiny.c1 0) =? 1 then ticks Tiny.c1
        else timestamp (bufs Tiny.c1 0)) /\
     dev (bufs s' 0) = dev (bufs Tiny.c1 0) /\
     blockno (bufs s' 0) = blockno (bufs Tiny.c1 0) /\
     valid (bufs s' 0) = valid (bufs Tiny.c1 0) /\
     data (bufs s' 0) = data (bufs Tiny.c1 0) /\
     next (bufs s' 0) = next (bufs Tiny.c1 0) /\
     same_but_slot 0 Tiny.c1 s' /\
     brelse Tiny.NBUF Tiny.NBUCKET 0 1 (Buf 0) s' = Panic "brelse").
Proof.
  apply (brelse_contract Tiny.NBUF Tiny.NBUCKET 0 1 Tiny.c1 0 1).
  - unfold Tiny.NBUF. lia.
  - concrete.
  - concrete.
  - unfold Tiny.NBUCKET. lia.
  - concrete.
Defined.

Lemma bpin_bunpin_roundtrip_witness :
  exists s1 s2,
    bpin Tiny.NBUF Tiny.NBUCKET 0 (Buf 0) Tiny.c1 = Ret tt s1 /\
    bufs s1 0%nat = set_refcnt (refcnt (bufs Tiny.c1 0) + 1) (bufs Tiny.c1 0) /\
    same_but_slot 0 Tiny.c1 s1 /\
    ~ evictable s1 0 /\
    (forall fuel i b mintime replbuf r s', replbuf <> Buf 0 ->
       lru_bucket Tiny.NBUF Tiny.NBUCKET fuel i b mintime replbuf s1 = Ret r s' ->
       r <> Buf 0) /\
    (forall js mintime replbuf, replbuf <> Buf 0 ->
                                lru_all s1 js mintime replbuf <> Buf 0) /\
    bunpin Tiny.NBUF Tiny.NBUCKET 0 (Buf 0) s1 = Ret tt s2 /\
    (forall k, bufs s2 k = bufs Tiny.c1 k) /\
    (forall i, table s2 i = table Tiny.c1 i) /\
    bcache_lock s2 = bcache_lock Tiny.c1 /\ io s2 = io Tiny.c1.
Proof.
  apply (bpin_bunpin_roundtrip Tiny.NBUF Tiny.NBUCKET 0 0 Tiny.c1 1).
  - unfold Tiny.NBUF. lia.
  - concrete.
  - concrete.
  - unfold Tiny.NBUCKET. lia.
  - concrete.
  - split; concrete.
Defined.

Lemma bget_miss_takes_unused_slot_witness :
  exists b,
    deref Tiny.NBUF Tiny.NBUCKET Tiny.s0 (Buf 0) = Some b /\
    refcnt b = 0 /\ timestamp b < UINT_MAX.
Proof.
  apply (bget_miss_takes_unused_slot Tiny.NBUF Tiny.NBUCKET 4 0 1 1 0 Tiny.s0
           (state_of (search Tiny.NBUF Tiny.NBUCKET 4 0 0 1 0 Tiny.s0) Tiny.off)
           (Buf 0) Tiny.s1).
  - change (Z.to_nat (hash Tiny.NBUCKET 0)) with 0%nat.
    rewrite (returned_eq (search _ _ _ _ _ _ _ _) None Tiny.off) at 1
      by (vm_compute; reflexivity).
    f_equal; vm_compute; reflexivity.
  - unfold Tiny.s1.
    rewrite (returned_eq (bget _ _ _ _ _ _ _ _) Null Tiny.off) at 1
      by (vm_compute; reflexivity).
    f_equal; vm_compute; reflexivity.
Defined.

End BioFacts.
